(** * Gym Program Tracker: session store, upsert, seeding and analytics

    A shallow embedding of the two React components of the repository,
    [src/App.jsx] (component [App]) and the calendar version of the same
    tracker (component [GymProgramTracker]), and the properties of the
    session store that their specification states. *)

From Stdlib Require Import ZArith Bool SpecFloat Sorted Permutation.
From stdpp Require Import base option list sorting gmap strings pretty.

Local Open Scope Z_scope.

(** ** JavaScript numbers and scalars *)

(** A JavaScript number is an IEEE-754 binary64 value; [spec_float] is its
    specification, with 53 bits of precision and exponents up to 1024. *)
Definition number : Type := spec_float.

Definition prec : Z := 53.
Definition emax : Z := 1024.

Definition NaN : number := S754_nan.
Definition Infinity : number := S754_infinity false.
Definition NegInfinity : number := S754_infinity true.
Definition PosZero : number := S754_zero false.
Definition NegZero : number := S754_zero true.

(** The number [m * 2^e], rounded to nearest even; [lit 45 (-1)] is 22.5. *)
Definition lit (m e : Z) : number := binary_normalize prec emax m e false.

Definition Number_isNaN (n : number) : bool :=
  match n with S754_nan => true | _ => false end.

Definition num_sub (a b : number) : number := SFsub prec emax a b.
Definition num_gt (a b : number) : bool := SFltb b a.
Definition num_le (a b : number) : bool := SFleb a b.

(** The values a form field or a stored numeric field can hold. *)
Inductive scalar : Type :=
| Undefined
| Null
| Str (s : string)
| Num (n : number).

(** [a === b] on scalars. *)
Definition strict_eq (a b : scalar) : bool :=
  match a, b with
  | Undefined, Undefined => true
  | Null, Null => true
  | Str s, Str t => String.eqb s t
  | Num x, Num y => SFeqb x y
  | _, _ => false
  end.

(** [a ?? b] *)
Definition nullish (a b : scalar) : scalar :=
  match a with
  | Undefined | Null => b
  | _ => a
  end.

(** Builtins of the JavaScript runtime whose definition is decimal
    arithmetic on text: the conversion of a string to a number
    ([Number(s)] on a string), [Number.prototype.toFixed] and
    [String.prototype.trim]. *)
Class Builtins : Type := {
  StringToNumber : string → number;
  Number_toFixed : number → Z → string;
  String_trim : string → string;
}.

Section Scalars.
Context `{Builtins}.

(** [Number(value)] *)
Definition Number (value : scalar) : number :=
  match value with
  | Undefined => NaN
  | Null => PosZero
  | Str s => StringToNumber s
  | Num n => n
  end.

Definition clampNumber (value : scalar) : scalar :=
  if strict_eq value (Str "") || strict_eq value Null || strict_eq value Undefined
  then Str ""
  else
    let n := Number value in
    if Number_isNaN n then Str "" else Num n.
End Scalars.

(** ** Data model *)

(** An exercise of the catalog: [{ id, name, unit, start }]. *)
Record Exercise : Type := {
  ex_id : string;
  ex_name : string;
  ex_unit : string;
  start : scalar;
}.

(** The cardio of a day of the catalog: [{ type, minutesDefault }]. *)
Record CardioSpec : Type := {
  cardio_type : string;
  minutesDefault : scalar;
}.

(** A day of the catalog: [{ title, cardio, exercises }]. *)
Record Day : Type := {
  title : string;
  day_cardio : CardioSpec;
  exercises : list Exercise;
}.

Record Entry : Type := {
  weight : scalar;
  reps : scalar;
  sets : scalar;
}.

Record Cardio : Type := {
  type : string;
  minutes : scalar;
}.

(** A stored session, [{ id, date, dayKey, dayName, cardio, notes, entries,
    createdAt }].  [entries] is optional because every reader of the
    store guards it ([s.entries && ...]). *)
Record Session : Type := {
  session_id : string;
  date : string;
  dayKey : string;
  dayName : string;
  cardio : Cardio;
  notes : string;
  entries : option (gmap string Entry);
  createdAt : string;
}.

Abbreviation Store := (list Session).

(** ** Arrays *)

(** [Array.prototype.findIndex]: the first index at which [p] holds, or -1. *)
Fixpoint findIndex {A} (p : A → bool) (l : list A) : Z :=
  match l with
  | [] => -1
  | x :: l' => if p x then 0 else
      let i := findIndex p l' in
      if i <? 0 then -1 else i + 1
  end.

(** [copy = [...l]; copy[idx] = x] for [idx >= 0] within the array. *)
Definition set_index {A} (l : list A) (idx : Z) (x : A) : list A :=
  <[Z.to_nat idx := x]> l.

(** [l[i]], which is [undefined] out of range, also on the negative side. *)
Definition at_index {A} (l : list A) (i : Z) : option A :=
  if i <? 0 then None else l !! Z.to_nat i.

(** ** The state updater of [saveSession] *)

(** [s.date === date && s.dayKey === dayKey], where [date] and [dayKey] are
    those of the form, which the payload [p] carries. *)
Definition same_date_and_day (p s : Session) : bool :=
  String.eqb (date s) (date p) && String.eqb (dayKey s) (dayKey p).

(** [s.date === date] *)
Definition same_date (p s : Session) : bool :=
  String.eqb (date s) (date p).

(** ** The program catalog *)

Definition exercise (id name : string) (start : scalar) : Exercise :=
  {| ex_id := id; ex_name := name; ex_unit := "kg"; start := start |}.

Definition lookup_day (days : list (string * Day)) (key : string) : option Day :=
  snd <$> List.find (λ kd, String.eqb (fst kd) key) days.

(** The catalog of a component: [PROGRAM.days], in the order of its keys.
    [fallow] is the starting value of the exercises that have none: the
    empty string in [src/App.jsx], [null] in the calendar version. *)
Definition PROGRAM_days (fallow : scalar) : list (string * Day) :=
  [ ("d1", {| title := "Day 1 - Shoulders (Heavy) + Push + Abs";
              day_cardio := {| cardio_type := "Incline walk"; minutesDefault := Num (lit 15 0) |};
              exercises :=
                [ exercise "shoulder_press" "Shoulder Press" (Num (lit 35 0));
                  exercise "lat_raise_machine" "Lateral Raise Machine" (Num (lit 20 0));
                  exercise "incline_db_press" "Incline DB Press" (Num (lit 45 (-1)));
                  exercise "rear_delt_fly_cable" "Rear Delt Fly (cable)" (Num (lit 15 0));
                  exercise "triceps_pushdown" "Triceps Pushdown" (Num (lit 40 0));
                  exercise "ab_crunch_machine" "Ab Crunch Machine" (Num (lit 40 0)) ] |});
    ("d2", {| title := "Day 2 - Light Lower + Stairs + Abs";
              day_cardio := {| cardio_type := "Stair machine"; minutesDefault := Num (lit 20 0) |};
              exercises :=
                [ exercise "goblet_squat" "Goblet Squat" fallow;
                  exercise "romanian_deadlift" "Romanian Deadlift" fallow;
                  exercise "walking_lunges" "Walking Lunges" fallow;
                  exercise "standing_calf_raise" "Standing Calf Raise" fallow;
                  exercise "ab_crunch_machine" "Ab Crunch Machine" fallow ] |});
    ("d3", {| title := "Day 3 - Shoulders (Volume) + Pull + Abs";
              day_cardio := {| cardio_type := "Incline walk"; minutesDefault := Num (lit 15 0) |};
              exercises :=
                [ exercise "upright_cable_row" "Upright Cable Row (wide grip)" fallow;
                  exercise "lat_pulldown" "Lat Pulldown" fallow;
                  exercise "face_pull" "Face Pull" fallow;
                  exercise "cable_lateral_raise" "Cable Lateral Raise" fallow;
                  exercise "triceps_pushdown" "Triceps Pushdown" fallow;
                  exercise "ab_crunch_machine" "Ab Crunch Machine" fallow ] |});
    ("d4", {| title := "Day 4 - Upper Accessories + Conditioning";
              day_cardio := {| cardio_type := "Stairs or incline walk"; minutesDefault := Num (lit 15 0) |};
              exercises :=
                [ exercise "arnold_press" "Arnold Press" fallow;
                  exercise "rear_delt_fly" "Rear Delt Fly" fallow;
                  exercise "biceps_curl" "Biceps Curl" fallow;
                  exercise "hammer_curl" "Hammer Curl" fallow ] |}) ].

(** ** Default entries on a change of day *)

(** [s.entries?.[exId]] *)
Definition entry_of (exId : string) (s : Session) : option Entry :=
  match entries s with
  | Some es => es !! exId
  | None => None
  end.

(** [s.entries && s.entries[exId] && s.entries[exId].weight !== ""] *)
Definition has_weight (exId : string) (s : Session) : bool :=
  match entry_of exId s with
  | Some e => negb (strict_eq (weight e) (Str ""))
  | None => false
  end.

(** [last.entries[exId].weight], read only from a session that
    [has_weight] accepted; the other branch is never taken. *)
Definition weight_in (exId : string) (s : Session) : scalar :=
  match entry_of exId s with
  | Some e => weight e
  | None => Undefined
  end.

Definition seedEntry (sessions : Store) (ex : Exercise) : Entry :=
  let last := List.find (has_weight (ex_id ex)) (rev sessions) in
  let defaultWeight :=
    match last with
    | Some s => weight_in (ex_id ex) s
    | None => start ex
    end in
  {| weight := nullish defaultWeight (Str ""); reps := Str ""; sets := Str "" |}.

Definition nextEntries (sessions : Store) (day : Day) : gmap string Entry :=
  foldl (λ acc ex, <[ex_id ex := seedEntry sessions ex]> acc) ∅ (exercises day).

(** The effect run on a change of day: the new [cardioMinutes] and
    [entries] of the form.  An unknown day key makes [day] undefined and
    the effect throws: [None]. *)
Definition dayChangeDefaults (days : list (string * Day)) (sessions : Store)
    (dayKey : string) : option (scalar * gmap string Entry) :=
  day ← lookup_day days dayKey;
  Some (minutesDefault (day_cardio day), nextEntries sessions day).

(** ** The analytics series *)

Record Point : Type := {
  p_date : string;
  p_weight : option number;   (* [null] or a number *)
  p_dayKey : string;
}.

(** [a > b] on strings: lexicographic.  A string is here a sequence of
    bytes; on ASCII text, as the ISO dates are, the order is that of the
    language. *)
Definition string_gt (a b : string) : bool :=
  match String.compare a b with
  | Gt => true
  | _ => false
  end.

(** [Array.prototype.sort] by a comparator.  The language leaves the
    algorithm to the engine; this is an insertion sort, which asks the
    comparator only whether its result is positive.  It keeps elements
    that the comparator does not tell apart in the order of the array; an
    engine may not, and nothing below depends on that order. *)
Fixpoint sort_insert {A} (cmp : A → A → Z) (x : A) (sorted : list A) : list A :=
  match sorted with
  | [] => [x]
  | y :: rest => if cmp y x >? 0 then x :: y :: rest else y :: sort_insert cmp x rest
  end.

Definition Array_sort {A} (cmp : A → A → Z) (l : list A) : list A :=
  foldl (λ sorted x, sort_insert cmp x sorted) [] l.

Definition by_date (a b : Point) : Z :=
  if string_gt (p_date a) (p_date b) then 1 else -1.

(** [s.entries && s.entries[exId]] *)
Definition records (exId : string) (s : Session) : bool :=
  match entry_of exId s with
  | Some _ => true
  | None => false
  end.

Definition is_empty_sentinel (w : scalar) : bool :=
  strict_eq w (Str "") || strict_eq w Null || strict_eq w Undefined.

Section Analytics.
Context `{Builtins}.

Definition point_of (exId : string) (s : Session) : Point :=
  let e := entry_of exId s in
  let w := match e with Some e => weight e | None => Undefined end in
  let weight := if is_empty_sentinel w then None else Some (Number w) in
  {| p_date := date s; p_weight := weight; p_dayKey := dayKey s |}.

Definition chartData (sessions : Store) (selectedExerciseId : string) : list Point :=
  Array_sort by_date
    (map (point_of selectedExerciseId)
       (List.filter (records selectedExerciseId) sessions)).
End Analytics.

(** ** The summary *)

Record Summary : Type := {
  last : option Point;
  prev : option Point;
  delta : option number;
  best : option number;
}.

(** [typeof d.weight === "number" && !Number.isNaN(d.weight)] *)
Definition is_valid (d : Point) : bool :=
  match p_weight d with
  | Some n => negb (Number_isNaN n)
  | None => false
  end.

(** The number a weight stands for in arithmetic; [null] counts as 0. *)
Definition weight_number (d : Point) : number :=
  match p_weight d with
  | Some n => n
  | None => PosZero
  end.

Definition is_pos_zero (n : number) : bool :=
  match n with S754_zero false => true | _ => false end.
Definition is_neg_zero (n : number) : bool :=
  match n with S754_zero true => true | _ => false end.

(** [Math.max(...ws)]: NaN if an argument is, else the greatest one,
    starting from minus infinity, with +0 above -0. *)
Fixpoint Math_max_from (highest : number) (ws : list number) : number :=
  match ws with
  | [] => highest
  | n :: ws' =>
      if Number_isNaN n then NaN
      else if is_pos_zero n && is_neg_zero highest then Math_max_from n ws'
      else if num_gt n highest then Math_max_from n ws'
      else Math_max_from highest ws'
  end.

Definition Math_max (ws : list number) : number := Math_max_from NegInfinity ws.

Section Summary.
Context `{Builtins}.

(** [Number(x.toFixed(2))] *)
Definition round2 (x : number) : number := Number (Str (Number_toFixed x 2)).

Definition lastTwo (chartData : list Point) : Summary :=
  let valid := List.filter is_valid chartData in
  let last := at_index valid (Z.of_nat (length valid) - 1) in
  let prev := at_index valid (Z.of_nat (length valid) - 2) in
  let delta :=
    match last, prev with
    | Some l, Some p => Some (round2 (num_sub (weight_number l) (weight_number p)))
    | _, _ => None
    end in
  let best :=
    if Z.of_nat (length valid) =? 0 then None
    else Some (Math_max (map weight_number valid)) in
  {| last := last; prev := prev; delta := delta; best := best |}.
End Summary.

(** ** Saving the form *)

(** The state of the log form: [date], [dayKey], [notes], [cardioMinutes]
    and [entries]. *)
Record FormState : Type := {
  form_date : string;
  form_dayKey : string;
  form_notes : string;
  cardioMinutes : scalar;
  form_entries : gmap string Entry;
}.

Section Save.
Context `{Builtins}.

(** [v === "" ? "" : clampNumber(v)] *)
Definition clean (v : scalar) : scalar :=
  if strict_eq v (Str "") then Str "" else clampNumber v.

Definition cleanEntry (e : Entry) : Entry :=
  {| weight := clean (weight e); reps := clean (reps e); sets := clean (sets e) |}.

Definition no_entry : Entry := {| weight := Str ""; reps := Str ""; sets := Str "" |}.

Definition cleanEntries (day : Day) (entries : gmap string Entry) : gmap string Entry :=
  foldl (λ acc ex, <[ex_id ex := cleanEntry (default no_entry (entries !! ex_id ex))]> acc)
    ∅ (exercises day).

(** The session built from the form.  [rnd] is the text of
    [Math.random().toString(16).slice(2)] and [now] that of
    [new Date().toISOString()]. *)
Definition payload (day : Day) (f : FormState) (rnd now : string) : Session :=
  {| session_id := form_date f +:+ "-" +:+ form_dayKey f +:+ "-" +:+ rnd;
     date := form_date f;
     dayKey := form_dayKey f;
     dayName := title day;
     cardio := {| type := cardio_type (day_cardio day);
                  minutes := clean (cardioMinutes f) |};
     notes := String_trim (form_notes f);
     entries := Some (cleanEntries day (form_entries f));
     createdAt := now |}.

(** [saveSession] up to the store: [None] when [PROGRAM.days[dayKey]]
    is undefined and the function throws on [day.exercises]. *)
Definition saveSession (days : list (string * Day))
    (upsert : Session → Store → Store)
    (f : FormState) (rnd now : string) (prev : Store) : option Store :=
  day ← lookup_day days (form_dayKey f);
  Some (upsert (payload day f rnd now) prev).
End Save.

(** ** The two components *)

Module App.
(** [src/App.jsx] *)
Definition PROGRAM : list (string * Day) := PROGRAM_days (Str "").

(** The updater passed to [setSessions]. *)
Definition upsert (payload : Session) (prev : Store) : Store :=
  let idx := findIndex (same_date_and_day payload) prev in
  if idx >=? 0 then set_index prev idx payload
  else prev ++ [payload].

Definition saveSession `{Builtins} := saveSession PROGRAM upsert.
Definition dayChangeDefaults := dayChangeDefaults PROGRAM.
End App.

Module GymProgramTracker.
(** The calendar version. *)
Definition PROGRAM : list (string * Day) := PROGRAM_days Null.

(** The updater passed to [setSessions]. *)
Definition upsert (payload : Session) (prev : Store) : Store :=
  let idx := findIndex (same_date_and_day payload) prev in
  if idx >=? 0 then set_index prev idx payload
  else
    (* Also replace if same date but different dayKey, because calendar is per-day *)
    let idxDateOnly := findIndex (same_date payload) prev in
    if idxDateOnly >=? 0 then set_index prev idxDateOnly payload
    else prev ++ [payload].

Definition saveSession `{Builtins} := saveSession PROGRAM upsert.
Definition dayChangeDefaults := dayChangeDefaults PROGRAM.
End GymProgramTracker.

(** ** Export and import *)

(** What [JSON.parse] returns and [JSON.stringify] accepts. *)
#[warnings="-register-all"] Inductive value : Type :=
| VUndefined
| VNull
| VBool (b : bool)
| VNum (n : number)
| VStr (s : string)
| VArray (items : list value)
| VObject (props : list (string * value)).

(** A text reaches the program only through [JSON.parse]; it is taken
    for what parsing makes of it: a syntax error, or a value. *)
Inductive text : Type :=
| Malformed (error : string)
| Document (data : value).

Inductive parsed : Type :=
| Ok (data : value)
| Failed (error : string).

Definition safeParseJSON (t : text) : parsed :=
  match t with
  | Document data => Ok data
  | Malformed e => Failed e
  end.

(** What [JSON.stringify] writes for a number: the number itself when it
    is finite, without the sign of zero, and [null] otherwise. *)
Definition serialize_number (n : number) : value :=
  match n with
  | S754_finite _ _ _ => VNum n
  | S754_zero _ => VNum PosZero
  | S754_infinity _ | S754_nan => VNull
  end.

(** The document [JSON.stringify] writes for a value, [None] where it
    writes nothing: an [undefined] is left out of an object and becomes
    [null] in an array. *)
Fixpoint serialize (v : value) : option value :=
  match v with
  | VUndefined => None
  | VNull => Some VNull
  | VBool b => Some (VBool b)
  | VNum n => Some (serialize_number n)
  | VStr s => Some (VStr s)
  | VArray items =>
      Some (VArray (map (λ x, default VNull (serialize x)) items))
  | VObject props =>
      Some (VObject
        ((fix members (ps : list (string * value)) : list (string * value) :=
            match ps with
            | [] => []
            | (k, x) :: ps' =>
                match serialize x with
                | Some y => (k, y) :: members ps'
                | None => members ps'
                end
            end) props))
  end.

Definition JSON_stringify (v : value) : option text := Document <$> serialize v.

Definition truthy (v : value) : bool :=
  match v with
  | VUndefined | VNull => false
  | VBool b => b
  | VNum n => match n with S754_zero _ | S754_nan => false | _ => true end
  | VStr s => negb (String.eqb s "")
  | VArray _ | VObject _ => true
  end.

(** [v[key]] for a key that is not a builtin property, on a value that is
    neither [null] nor [undefined]. *)
Definition get_prop (v : value) (key : string) : value :=
  match v with
  | VObject props =>
      match List.find (λ kv, String.eqb (fst kv) key) props with
      | Some kv => snd kv
      | None => VUndefined
      end
  | _ => VUndefined
  end.

(** [exportData]: the text handed to the download. *)
Definition exportData (sessions : list value) : option text :=
  JSON_stringify (VObject [("sessions", VArray sessions)]).

Definition Array_isArray (v : value) : bool :=
  match v with
  | VArray _ => true
  | _ => false
  end.

(** The elements of an array. *)
Definition items_of (v : value) : list value :=
  match v with
  | VArray items => items
  | _ => []
  end.

(** [importDataFromFile]: the alert shown and the store afterwards. *)
Definition importDataFromFile (t : text) (sessions : list value) : string * list value :=
  match safeParseJSON t with
  | Failed error => ("Import failed: " +:+ error, sessions)
  | Ok data =>
      if negb (truthy data) || negb (Array_isArray (get_prop data "sessions"))
      then ("Import failed: expected { sessions: [...] }", sessions)
      else ("Import complete.", items_of (get_prop data "sessions"))
  end.

(** The object that the literal of [saveSession] lays out for a session,
    as the store holds it in memory. *)
Definition scalar_value (v : scalar) : value :=
  match v with
  | Undefined => VUndefined
  | Null => VNull
  | Str s => VStr s
  | Num n => VNum n
  end.

Definition entry_value (e : Entry) : value :=
  VObject [("weight", scalar_value (weight e));
           ("reps", scalar_value (reps e));
           ("sets", scalar_value (sets e))].

Definition session_value (s : Session) : value :=
  VObject [("id", VStr (session_id s));
           ("date", VStr (date s));
           ("dayKey", VStr (dayKey s));
           ("dayName", VStr (dayName s));
           ("cardio", VObject [("type", VStr (type (cardio s)));
                               ("minutes", scalar_value (minutes (cardio s)))]);
           ("notes", VStr (notes s));
           ("entries",
            match entries s with
            | Some es => VObject (prod_map id entry_value <$> map_to_list es)
            | None => VUndefined
            end);
           ("createdAt", VStr (createdAt s))].

(** ** The decimal builtins on ASCII text

    An interpretation of [Builtins] with which the definitions above run:
    numerals are read and written exactly and rounded once, to nearest
    even, as the language prescribes.  White space is the ASCII one.  For
    a magnitude of 10^21 or more [toFixed] writes all the digits of the
    integer where the language writes them in exponent notation; both
    texts read back as the same number. *)

Definition code (c : Ascii.ascii) : Z := Z.of_N (Ascii.N_of_ascii c).

Definition is_space (c : Ascii.ascii) : bool :=
  ((9 <=? code c) && (code c <=? 13)) || (code c =? 32).

(** The value of a digit in a radix up to 16, if it is one. *)
Definition digit_in (radix : Z) (c : Ascii.ascii) : option Z :=
  let n := code c in
  let v :=
    if (48 <=? n) && (n <=? 57) then n - 48
    else if (97 <=? n) && (n <=? 102) then n - 87
    else if (65 <=? n) && (n <=? 70) then n - 55
    else radix in
  if v <? radix then Some v else None.

(** The digits a text starts with: their value after [acc], their count
    after [count], and the rest of the text. *)
Fixpoint scan (radix acc count : Z) (s : string) : Z * Z * string :=
  match s with
  | String c s' =>
      match digit_in radix c with
      | Some v => scan radix (radix * acc + v) (count + 1) s'
      | None => (acc, count, s)
      end
  | EmptyString => (acc, count, s)
  end.

Fixpoint skip_spaces (s : string) : string :=
  match s with
  | String c s' => if is_space c then skip_spaces s' else s
  | EmptyString => s
  end.

Definition ascii_trim (s : string) : string :=
  String.rev (skip_spaces (String.rev (skip_spaces s))).

(** The number nearest to [m * 10^e], for [m >= 0], with the sign [neg]. *)
Definition of_decimal (neg : bool) (m e : Z) : number :=
  if m =? 0 then S754_zero neg
  else if 0 <=? e then binary_normalize prec emax (cond_Zopp neg (m * 10 ^ e)) 0 neg
  else
    let d := 10 ^ (- e) in
    let s := Z.log2 d + 64 in
    let q := (m * 2 ^ s) / d in
    let sticky := if (m * 2 ^ s) mod d =? 0 then 0 else 1 in
    binary_normalize prec emax (cond_Zopp neg (2 * q + sticky)) (- s - 1) neg.

(** An integer in a radix, after its prefix: all of the text, or NaN. *)
Definition of_radix (radix : Z) (s : string) : number :=
  match scan radix 0 0 s with
  | (v, count, EmptyString) => if 0 <? count then of_decimal false v 0 else NaN
  | _ => NaN
  end.

(** The exponent part of a decimal numeral, if the text is one or is empty. *)
Definition exponent_part (s : string) : option Z :=
  match s with
  | EmptyString => Some 0
  | String c s' =>
      if (code c =? 101) || (code c =? 69) then
        let '(neg, digits) :=
          match s' with
          | String d s'' =>
              if code d =? 45 then (true, s'')
              else if code d =? 43 then (false, s'')
              else (false, s')
          | EmptyString => (false, s')
          end in
        match scan 10 0 0 digits with
        | (v, count, EmptyString) => if 0 <? count then Some (cond_Zopp neg v) else None
        | _ => None
        end
      else None
  end.

(** A decimal numeral without its sign. *)
Definition of_unsigned_decimal (neg : bool) (s : string) : number :=
  if String.eqb s "Infinity" then S754_infinity neg
  else
    let '(ip, n1, r1) := scan 10 0 0 s in
    let '(m, n2, r2) :=
      match r1 with
      | String c r => if code c =? 46 then scan 10 ip 0 r else (ip, 0, r1)
      | EmptyString => (ip, 0, r1)
      end in
    if 0 <? n1 + n2 then
      match exponent_part r2 with
      | Some e => of_decimal neg m (e - n2)
      | None => NaN
      end
    else NaN.

Definition ascii_StringToNumber (s : string) : number :=
  match ascii_trim s with
  | EmptyString => PosZero
  | String c r as t =>
      if code c =? 45 then of_unsigned_decimal true r
      else if code c =? 43 then of_unsigned_decimal false r
      else
        match r with
        | String x r' =>
            if code c =? 48 then
              if (code x =? 120) || (code x =? 88) then of_radix 16 r'
              else if (code x =? 111) || (code x =? 79) then of_radix 8 r'
              else if (code x =? 98) || (code x =? 66) then of_radix 2 r'
              else of_unsigned_decimal false t
            else of_unsigned_decimal false t
        | EmptyString => of_unsigned_decimal false t
        end
  end.

(** The decimal digits of [n >= 0], at least [width] of them. *)
Definition digits_of (width : nat) (n : Z) : string :=
  let text := pretty n in
  String.string_of_list_ascii
    (replicate (width - String.length text) (Ascii.ascii_of_nat 48)) +:+ text.

(** [n / 10^f] written with [f] fraction digits. *)
Definition fixed_text (n f : Z) : string :=
  let text := digits_of (S (Z.to_nat f)) n in
  let cut := (String.length text - Z.to_nat f)%nat in
  if f =? 0 then text
  else String.substring 0 cut text +:+ "." +:+ String.substring cut (Z.to_nat f) text.

(** The integer nearest to [m * 2^e * 10^f], the larger one on a tie. *)
Definition scaled (m e f : Z) : Z :=
  if 0 <=? e then m * 2 ^ e * 10 ^ f
  else (2 * (m * 10 ^ f) + 2 ^ (- e)) / (2 * 2 ^ (- e)).

Definition ascii_toFixed (x : number) (f : Z) : string :=
  match x with
  | S754_nan => "NaN"
  | S754_infinity neg => if neg then "-Infinity" else "Infinity"
  | S754_zero _ => fixed_text 0 f
  | S754_finite neg m e =>
      let sign := if neg then "-" else "" in
      if 10 ^ 21 <=? scaled (Z.pos m) e 0 then sign +:+ fixed_text (scaled (Z.pos m) e 0) 0
      else sign +:+ fixed_text (scaled (Z.pos m) e f) f
  end.

Definition ascii_builtins : Builtins :=
  {| StringToNumber := ascii_StringToNumber;
     Number_toFixed := ascii_toFixed;
     String_trim := ascii_trim |}.

(** ** Vocabulary of the properties *)

Definition matches_both (s x : Session) : Prop :=
  date x = date s ∧ dayKey x = dayKey s.

Definition matches_date (s x : Session) : Prop :=
  date x = date s.

(** [i] is the first position of [store] whose session satisfies [P]. *)
Definition first_at (P : Session → Prop) (store : Store) (i : nat) : Prop :=
  (∃ x, store !! i = Some x ∧ P x) ∧
  ∀ j y, (j < i)%nat → store !! j = Some y → ¬ P y.

(** [store'] is [store] with position [i] replaced by [s] and every other
    position as it was. *)
Definition replaced_at (store : Store) (i : nat) (s : Session) (store' : Store) : Prop :=
  length store' = length store ∧
  store' !! i = Some s ∧
  ∀ j, j ≠ i → store' !! j = store !! j.

(** The three rules of the upsert, for an updater [f]. *)
Definition three_rules (f : Session → Store → Store) : Prop :=
  ∀ (s : Session) (store : Store),
    (∀ i, first_at (matches_both s) store i → replaced_at store i s (f s store)) ∧
    ((∀ y, y ∈ store → ¬ matches_both s y) →
       ∀ i, first_at (matches_date s) store i → replaced_at store i s (f s store)) ∧
    ((∀ y, y ∈ store → ¬ matches_date s y) → f s store = store ++ [s]).

(** The rules without the one on the date alone. *)
Definition two_rules (f : Session → Store → Store) : Prop :=
  ∀ (s : Session) (store : Store),
    (∀ i, first_at (matches_both s) store i → replaced_at store i s (f s store)) ∧
    ((∀ y, y ∈ store → ¬ matches_both s y) → f s store = store ++ [s]).

(** No two sessions of the store share a date. *)
Definition unique_dates (store : Store) : Prop := NoDup (date <$> store).

(** No two sessions of the store share both date and day key. *)
Definition unique_date_days (store : Store) : Prop :=
  NoDup ((λ s, (date s, dayKey s)) <$> store).

(** A sequence of upserts, applied from left to right. *)
Definition upserts (f : Session → Store → Store) (store : Store) (ss : list Session) : Store :=
  foldl (λ st s, f s st) store ss.

(** Every sequence of upserts keeps the dates of the store distinct. *)
Definition keeps_unique_dates (f : Session → Store → Store) : Prop :=
  ∀ (store : Store) (ss : list Session),
    unique_dates store → unique_dates (upserts f store ss).

(** The session [s] holds the weight [w] for the exercise, and [w] is not
    the empty string. *)
Definition holds_weight (exId : string) (s : Session) (w : scalar) : Prop :=
  ∃ es e, entries s = Some es ∧ es !! exId = Some e ∧ weight e = w ∧ w ≠ Str "".

(** [i] is the last position of [store] whose session satisfies [P]. *)
Definition last_at (P : Session → Prop) (store : Store) (i : nat) : Prop :=
  (∃ x, store !! i = Some x ∧ P x) ∧
  ∀ j y, (i < j)%nat → store !! j = Some y → ¬ P y.

(** The weight seeded for an exercise on a change of day. *)
Definition seeded_weight (days : list (string * Day)) (sessions : Store)
    (dayKey exId : string) : option scalar :=
  '(_, next) ← dayChangeDefaults days sessions dayKey;
  weight <$> next !! exId.

(** [a] is strictly before [b], by date and by time of saving. *)
Definition older (a b : Session) : Prop :=
  string_gt (date b) (date a) = true ∧ string_gt (createdAt b) (createdAt a) = true.

(** Seeding takes the weight of the most recent session that holds one. *)
Definition seeds_most_recent (days : list (string * Day)) : Prop :=
  ∀ (sessions : Store) (dayKey : string) (day : Day) (ex : Exercise) (s : Session) (w : scalar),
    lookup_day days dayKey = Some day → ex ∈ exercises day →
    s ∈ sessions → holds_weight (ex_id ex) s w →
    (∀ s' w', s' ∈ sessions → s' ≠ s → holds_weight (ex_id ex) s' w' → older s' s) →
    seeded_weight days sessions dayKey (ex_id ex) = Some w.

(** The object a loop over the exercises builds, setting [acc[ex.id]] to
    [g ex] in turn. *)
Definition built (g : Exercise → Entry) (acc : gmap string Entry)
    (exs : list Exercise) : gmap string Entry :=
  foldl (λ acc ex, <[ex_id ex := g ex]> acc) acc exs.

(** The dates of [a] and [b] are in order: [a]'s is not after [b]'s. *)
Definition date_le (a b : Point) : Prop := String.leb (p_date a) (p_date b) = true.

Section SeriesVocabulary.
Context `{Builtins}.

(** The point of the series for a session [s] that recorded the entry [e]:
    no weight when the stored one is the empty string, [null] or
    [undefined], and its numeric reading otherwise. *)
Definition series_point (s : Session) (e : Entry) : Point :=
  {| p_date := date s;
     p_weight :=
       match weight e with
       | Undefined | Null | Str "" => None
       | Str t => Some (StringToNumber t)
       | Num n => Some n
       end;
     p_dayKey := dayKey s |}.
End SeriesVocabulary.

(** A point with a numeric weight: a number that is not NaN. *)
Definition numeric (d : Point) : Prop :=
  ∃ n, p_weight d = Some n ∧ Number_isNaN n = false.

(** [k] is the integer nearest to [m * 2^e * 10^f], and the larger one of
    the two when the value is half way between two integers. *)
Definition nearest_scaled (m : positive) (e f k : Z) : Prop :=
  let num := Z.pos m * 10 ^ f * 2 ^ Z.max e 0 in
  let den := 2 ^ Z.max (- e) 0 in
  den * (2 * k - 1) ≤ 2 * num < den * (2 * k + 1).

(** The numeral of [k / 100], for [k >= 0]: two fraction digits, after a
    minus sign when [neg]. *)
Definition hundredths (neg : bool) (k : Z) : string :=
  (if neg then "-" else "") +:+ fixed_text k 2.

Section Rounding.
Context `{Builtins}.

(** What the language prescribes for [x.toFixed(2)] when [x] is a zero, and
    when it is finite with a magnitude [m * 2^e] that rounds to an integer
    below 10^21: the numeral with two fraction digits of the hundredth
    nearest to the magnitude, the larger one on a tie, after the sign. *)
Definition toFixed_rounds : Prop :=
  (∀ sign, Number_toFixed (S754_zero sign) 2 = "0.00") ∧
  ∀ neg m e k0 k,
    nearest_scaled m e 0 k0 → k0 < 10 ^ 21 → nearest_scaled m e 2 k →
    Number_toFixed (S754_finite neg m e) 2 = hundredths neg k.

(** [r] is [x] rounded to two decimal places: the number read from the
    numeral, with two fraction digits, of the hundredth nearest to [x]. *)
Definition rounded_to_hundredths (x : number) (r : option number) : Prop :=
  match x with
  | S754_zero _ => r = Some (StringToNumber "0.00")
  | S754_finite neg m e =>
      ∃ k, nearest_scaled m e 2 k ∧
           ((∃ k0, nearest_scaled m e 0 k0 ∧ k0 < 10 ^ 21) →
            r = Some (StringToNumber (hundredths neg k)))
  | _ => True
  end.
End Rounding.

(** A value that [JSON.stringify] writes and [JSON.parse] reads back as it
    is: no [undefined], and every number finite and not the negative
    zero. *)
Fixpoint representable (v : value) : bool :=
  match v with
  | VUndefined => false
  | VNull | VBool _ | VStr _ => true
  | VNum n => match n with S754_finite _ _ _ | S754_zero false => true | _ => false end
  | VArray items => forallb representable items
  | VObject props => forallb (λ kv, representable (snd kv)) props
  end.

(** The binding of [key] in an object: the first one, as [get_prop] reads. *)
Definition field (props : list (string * value)) (key : string) (v : value) : Prop :=
  ∃ before after,
    props = before ++ (key, v) :: after ∧ ∀ kv, kv ∈ before → fst kv ≠ key.

(** Export followed by import gives back the store. *)
Definition round_trip : Prop :=
  ∀ sessions before : list value,
    ∃ t, exportData sessions = Some t ∧ snd (importDataFromFile t before) = sessions.

(** What [saveSession] stores in a numeric field: the empty string, or a
    number that is not NaN. *)
Definition stored (v : scalar) : Prop :=
  v = Str "" ∨ ∃ n, v = Num n ∧ Number_isNaN n = false.

(** ** Example sessions *)

Definition blank : scalar := Str "".

Definition one_entry (exId : string) (w : scalar) : gmap string Entry :=
  {[ exId := {| weight := w; reps := blank; sets := blank |} ]}.

Definition session_on (d k stamp exId : string) (w : scalar) : Session :=
  {| session_id := d +:+ "-" +:+ k +:+ "-1f";
     date := d; dayKey := k; dayName := k;
     cardio := {| type := "Incline walk"; minutes := blank |};
     notes := "";
     entries := Some (one_entry exId w);
     createdAt := stamp |}.

Definition press_jan1 : Session :=
  session_on "2024-01-01" "d1" "2024-01-01T09:00:00.000Z" "shoulder_press" (Num (lit 40 0)).
Definition squat_jan1 : Session :=
  session_on "2024-01-01" "d2" "2024-01-01T18:00:00.000Z" "goblet_squat" (Num (lit 20 0)).
Definition press_feb1 : Session :=
  session_on "2024-02-01" "d1" "2024-02-01T09:00:00.000Z" "shoulder_press" (Num (lit 50 0)).
Definition press_feb1_again : Session :=
  session_on "2024-02-01" "d1" "2024-02-02T09:00:00.000Z" "shoulder_press" (Num (lit 55 0)).

Definition shoulder_press : Exercise :=
  exercise "shoulder_press" "Shoulder Press" (Num (lit 35 0)).

Definition press_day : Day :=
  {| title := "Day 1 - Shoulders (Heavy) + Push + Abs";
     day_cardio := {| cardio_type := "Incline walk"; minutesDefault := Num (lit 15 0) |};
     exercises := [shoulder_press] |}.

Definition point (d : string) (w : option number) : Point :=
  {| p_date := d; p_weight := w; p_dayKey := "d1" |}.

Definition press_form : FormState :=
  {| form_date := "2024-01-01";
     form_dayKey := "d1";
     form_notes := " felt strong ";
     cardioMinutes := Num (lit 15 0);
     form_entries :=
       {[ "shoulder_press" := {| weight := Str "42.5"; reps := Str "eight"; sets := Str "" |};
          "goblet_squat" := {| weight := Str "20"; reps := Str "10"; sets := Str "3" |} ]} |}.

(** A form of a later date than the example sessions. *)
Definition march_form : FormState :=
  {| form_date := "2024-03-01";
     form_dayKey := "d1";
     form_notes := "";
     cardioMinutes := Str "20";
     form_entries :=
       {[ "shoulder_press" := {| weight := Str "42.125"; reps := Str "8"; sets := Str "3" |} ]} |}.

(** A form whose weight and cardio minutes hold white space only. *)
Definition spaces_form : FormState :=
  {| form_date := "2024-01-01";
     form_dayKey := "d1";
     form_notes := "";
     cardioMinutes := Str " ";
     form_entries :=
       {[ "shoulder_press" := {| weight := Str "  "; reps := Str ""; sets := Str "" |} ]} |}.

Definition infinite_form : FormState :=
  {| form_date := "2024-01-01";
     form_dayKey := "d4";
     form_notes := "";
     cardioMinutes := Str "";
     form_entries :=
       {[ "biceps_curl" := {| weight := Str "Infinity"; reps := Str "8"; sets := Str "3" |} ]} |}.

(** ** The rest of the components *)

(** [deleteSession]: [prev.filter((s) => s.id !== id)] *)
Definition deleteSession (id : string) (prev : Store) : Store :=
  List.filter (λ s, negb (String.eqb (session_id s) id)) prev.

(** [clearAll], where [ok] is the answer to the confirmation. *)
Definition clearAll (ok : bool) (sessions : Store) : Store :=
  if ok then [] else sessions.

(** [sessionsByDate] of the calendar version: a [Map] filled by
    [map.set(s.date, s)] for each session in turn, and read by [get]. *)
Definition sessionsByDate (sessions : Store) : gmap string Session :=
  foldl (λ map s, <[date s := s]> map) ∅ sessions.

(** [allExercises]: a [Map] from id to name, filled in the order of the
    days and of their exercises with the ids it does not have yet, then
    listed in the order of insertion. *)
Definition map_has (map : list (string * string)) (id : string) : bool :=
  existsb (λ kv, String.eqb (fst kv) id) map.

Definition allExercises (days : list (string * Day)) : list (string * string) :=
  foldl (λ map d,
           foldl (λ map ex,
                    if negb (map_has map (ex_id ex))
                    then map ++ [(ex_id ex, ex_name ex)] else map)
                 map (exercises (snd d)))
        [] days.

(** [allExercises.find((e) => e.id === exId)?.name ?? exId], the name the
    history shows for an entry. *)
Definition exercise_name (all : list (string * string)) (exId : string) : string :=
  match List.find (λ e, String.eqb (fst e) exId) all with
  | Some e => snd e
  | None => exId
  end.

(** The exercises of a catalog in the order of its days, and the first of
    them with a given id. *)
Definition catalog_exercises (days : list (string * Day)) : list Exercise :=
  concat ((λ d, exercises (snd d)) <$> days).

Definition first_exercise (exs : list Exercise) (id : string) (ex : Exercise) : Prop :=
  ∃ i, exs !! i = Some ex ∧ ex_id ex = id ∧
       ∀ j y, (j < i)%nat → exs !! j = Some y → ex_id y ≠ id.

(** [i] is the first position of [exs] with an exercise of the id. *)
Definition first_position (exs : list Exercise) (id : string) (i : nat) : Prop :=
  (∃ ex, exs !! i = Some ex ∧ ex_id ex = id) ∧
  ∀ j y, (j < i)%nat → exs !! j = Some y → ex_id y ≠ id.

(** The entries of [all] are in the order in which their ids first occur
    in [exs]. *)
Definition in_order_of_first_occurrence (exs : list Exercise)
    (all : list (string * string)) : Prop :=
  ∀ i j a b, (i < j)%nat → all !! i = Some a → all !! j = Some b →
    ∃ p q, first_position exs (fst a) p ∧ first_position exs (fst b) q ∧ (p < q)%nat.

(** [{ ...e, [field]: value }] for the fields that the form edits. *)
Definition set_field (e : Entry) (field : string) (value : scalar) : Entry :=
  if String.eqb field "weight" then {| weight := value; reps := reps e; sets := sets e |}
  else if String.eqb field "reps" then {| weight := weight e; reps := value; sets := sets e |}
  else if String.eqb field "sets" then {| weight := weight e; reps := reps e; sets := value |}
  else e.

(** The entry that spreading [undefined] gives: no field is set. *)
Definition empty_object : Entry :=
  {| weight := Undefined; reps := Undefined; sets := Undefined |}.

(** [updateEntry]: [{ ...prev, [exId]: { ...prev[exId], [field]: value } }] *)
Definition updateEntry (exId field : string) (value : scalar)
    (prev : gmap string Entry) : gmap string Entry :=
  <[exId := set_field (default empty_object (prev !! exId)) field value]> prev.

(** The entry the form shows for a stored one: [e.weight ?? ""] and so on. *)
Definition shown (e : Entry) : Entry :=
  {| weight := nullish (weight e) (Str "");
     reps := nullish (reps e) (Str "");
     sets := nullish (sets e) (Str "") |}.

(** No field of the entry is [null] or [undefined]: an input of the form
    can show it. *)
Definition filled (e : Entry) : Prop :=
  ∀ v, v ∈ [weight e; reps e; sets e] → v ≠ Undefined ∧ v ≠ Null.

(** [loadSessionForDate] of the calendar version, on the state of the
    form: what the setters of the handler leave, before the next render.
    It throws, [None], when the day key of the stored session is not in
    the catalog. *)
Definition loadSessionForDate (days : list (string * Day)) (sessions : Store)
    (iso : string) (f : FormState) : option FormState :=
  match sessionsByDate sessions !! iso with
  | None =>
      Some {| form_date := iso; form_dayKey := form_dayKey f; form_notes := form_notes f;
              cardioMinutes := cardioMinutes f; form_entries := form_entries f |}
  | Some session =>
      day ← lookup_day days (dayKey session);
      Some {| form_date := date session;
              form_dayKey := dayKey session;
              form_notes := notes session;
              cardioMinutes :=
                nullish (minutes (cardio session)) (minutesDefault (day_cardio day));
              form_entries :=
                foldl (λ filled ex,
                         <[ex_id ex := shown (default no_entry (entry_of (ex_id ex) session))]>
                           filled)
                      ∅ (exercises day) |}
  end.

(** A click on a day of the calendar, [onPickDate]: the handler
    [loadSessionForDate], then the render that follows it.  The
    day-change effect of the calendar version depends on [[dayKey]]: when
    the handler has changed the day key the effect runs after the render
    and sets the cardio minutes and the entries again, over those of the
    handler. *)
Definition onPickDate (days : list (string * Day)) (sessions : Store)
    (iso : string) (f : FormState) : option FormState :=
  loaded ← loadSessionForDate days sessions iso f;
  if String.eqb (form_dayKey loaded) (form_dayKey f) then Some loaded
  else
    '(minutes, next) ← dayChangeDefaults days sessions (form_dayKey loaded);
    Some {| form_date := form_date loaded; form_dayKey := form_dayKey loaded;
            form_notes := form_notes loaded;
            cardioMinutes := minutes; form_entries := next |}.

(** The history, newest first: [[...sessions].sort((a, b) => (a.date <
    b.date ? 1 : -1))]. *)
Definition by_date_desc (a b : Session) : Z :=
  if string_gt (date b) (date a) then 1 else -1.

Definition history (sessions : Store) : Store := Array_sort by_date_desc sessions.

(** [a] is of a later date than [b], or of the same one. *)
Definition newer (a b : Session) : Prop := string_gt (date a) (date b) = true.

Definition not_older (a b : Session) : Prop := String.leb (date b) (date a) = true.

(** The weight that a save stores for an exercise is the one seeded on
    the next change of day; when it stores none, the seeded one is as
    before the save. *)
Definition seeds_saved_weight `{Builtins} (days : list (string * Day))
    (upsert : Session → Store → Store) (f : FormState) (rnd now : string)
    (prev : Store) (ex : Exercise) : Prop :=
  let w := clean (weight (default no_entry (form_entries f !! ex_id ex))) in
  ∃ store,
    saveSession days upsert f rnd now prev = Some store ∧
    (w ≠ Str "" →
     seeded_weight days store (form_dayKey f) (ex_id ex) = Some w) ∧
    (w = Str "" →
     seeded_weight days store (form_dayKey f) (ex_id ex)
     = seeded_weight days prev (form_dayKey f) (ex_id ex)).

(** Two exercises, and two days, that differ at most in a starting value
    that is the empty string, [null] or [undefined]. *)
Definition same_exercise (a b : Exercise) : Prop :=
  ex_id a = ex_id b ∧ ex_name a = ex_name b ∧
  nullish (start a) (Str "") = nullish (start b) (Str "").

Definition same_day (a b : Day) : Prop :=
  title a = title b ∧ day_cardio a = day_cardio b ∧
  Forall2 same_exercise (exercises a) (exercises b).

(** The effect that saves the store: the text put in the local storage. *)
Definition saveToStorage (sessions : list value) : option text :=
  JSON_stringify (VObject [("sessions", VArray sessions)]).

(** The effect that loads the store: [raw] is the item of the local
    storage, [None] when it is [null] or the empty string. *)
Definition loadFromStorage (raw : option text) (sessions : list value) : list value :=
  match raw with
  | None => sessions
  | Some t =>
      match safeParseJSON t with
      | Ok data =>
          if truthy data && Array_isArray (get_prop data "sessions")
          then items_of (get_prop data "sessions")
          else sessions
      | Failed _ => sessions
      end
  end.

(** ** The month grid of the calendar *)

(** A cell of the grid: [null] or the number of a day. *)
Definition cell : Type := option Z.

(** [while (cells.length % 7 !== 0) cells.push(null)], for at most [fuel]
    turns. *)
Fixpoint pad_weeks (fuel : nat) (cells : list cell) : option (list cell) :=
  match fuel with
  | O => if Z.of_nat (length cells) mod 7 =? 0 then Some cells else None
  | S fuel' =>
      if Z.of_nat (length cells) mod 7 =? 0 then Some cells
      else pad_weeks fuel' (cells ++ [None])
  end.

(** [cells.slice(from, to)] for [0 <= from <= to]. *)
Definition slice (cells : list cell) (from to : Z) : list cell :=
  take (Z.to_nat (to - from)) (drop (Z.to_nat from) cells).

(** [for (let i = ...; i < cells.length; i += 7) weeks.push(cells.slice(i, i + 7))],
    for at most [fuel] turns. *)
Fixpoint week_slices (fuel : nat) (i : Z) (cells : list cell) : list (list cell) :=
  match fuel with
  | O => []
  | S fuel' =>
      if i <? Z.of_nat (length cells)
      then slice cells i (i + 7) :: week_slices fuel' (i + 7) cells
      else []
  end.

(** [buildMonthGrid]: the weeks of a month whose first day falls on
    [jsDay] (0 for Sunday, as [getDay] counts) and that has [daysInMonth]
    days.  The two loops without a bound of their own run on a fuel that
    the theorems show to be enough. *)
Definition buildMonthGrid (jsDay daysInMonth : Z) : option (list (list cell)) :=
  let offset := (jsDay + 6) mod 7 in
  let cells := replicate (Z.to_nat offset) None ++ (Some <$> seqZ 1 daysInMonth) in
  cells ← pad_weeks 7 cells;
  Some (week_slices (length cells) 0 cells).

(** [String(n).padStart(2, "0")] for an integer [n]. *)
Definition pad2 (n : Z) : string :=
  let text := pretty n in
  String.string_of_list_ascii
    (replicate (2 - String.length text) (Ascii.ascii_of_nat 48)) +:+ text.

(** [isoFromParts], on integers; [m] counts the months from 0. *)
Definition isoFromParts (y m d : Z) : string :=
  pretty y +:+ "-" +:+ pad2 (m + 1) +:+ "-" +:+ pad2 d.

(** The parts of a date that the calendar passes to [isoFromParts]: a
    year of four digits, a month counted from 0 and a day of the month;
    and the order of two dates by their parts. *)
Definition date_parts (y m d : Z) : Prop :=
  1000 ≤ y ≤ 9999 ∧ 0 ≤ m ≤ 11 ∧ 1 ≤ d ≤ 31.

Definition compare_parts (y m d y' m' d' : Z) : comparison :=
  match y ?= y' with
  | Eq => match m ?= m' with Eq => d ?= d' | c => c end
  | c => c
  end.

(** ** Facts about arrays *)

Section FindIndex.
Context {A : Type} (p : A → bool).

Lemma findIndex_lower (l : list A) : -1 ≤ findIndex p l.
Proof.
  induction l as [|x l IH]; simpl; [lia|].
  destruct (p x); [lia|]. destruct (Z.ltb_spec (findIndex p l) 0); lia.
Qed.

Lemma findIndex_none (l : list A) :
  (∀ y, y ∈ l → p y = false) → findIndex p l = -1.
Proof.
  induction l as [|x l IH]; intros Hl; simpl; [done|].
  rewrite (Hl x) by set_solver.
  rewrite IH by (intros y Hy; apply Hl; set_solver). done.
Qed.

Lemma findIndex_first (l : list A) (i : nat) (x : A) :
  l !! i = Some x → p x = true →
  (∀ j y, (j < i)%nat → l !! j = Some y → p y = false) →
  findIndex p l = Z.of_nat i.
Proof.
  revert i. induction l as [|z l IH]; intros i Hi Hx Hbefore; [done|].
  destruct i as [|i]; simpl in *.
  - injection Hi as ->. by rewrite Hx.
  - rewrite (Hbefore 0%nat z) by (done || lia).
    assert (Hrec : findIndex p l = Z.of_nat i).
    { apply IH; [done..|]. intros j y Hj Hy. apply (Hbefore (S j) y); [lia|done]. }
    rewrite Hrec. destruct (Z.ltb_spec (Z.of_nat i) 0); lia.
Qed.

Lemma findIndex_found (l : list A) :
  0 ≤ findIndex p l →
  ∃ x, l !! Z.to_nat (findIndex p l) = Some x ∧ p x = true.
Proof.
  induction l as [|z l IH]; simpl; [lia|].
  destruct (p z) eqn:Hz; [intros _; by exists z|].
  destruct (Z.ltb_spec (findIndex p l) 0) as [Hneg|Hpos]; [lia|].
  intros _. destruct (IH Hpos) as (x & Hx & Hpx). exists x. split; [|done].
  replace (Z.to_nat (findIndex p l + 1)) with (S (Z.to_nat (findIndex p l))) by lia.
  done.
Qed.
End FindIndex.

Lemma findIndex_before {A} (p : A → bool) (l : list A) (j : nat) (y : A) :
  (Z.of_nat j < findIndex p l) → l !! j = Some y → p y = false.
Proof.
  revert j. induction l as [|z l IH]; intros j Hj Hy; [done|].
  simpl in Hj. destruct (p z) eqn:Hz; [lia|].
  destruct j as [|j]; simpl in Hy; [by injection Hy as <-|].
  destruct (Z.ltb_spec (findIndex p l) 0); [lia|].
  apply (IH j); [lia|done].
Qed.

Lemma findIndex_missing {A} (p : A → bool) (l : list A) (y : A) :
  findIndex p l < 0 → y ∈ l → p y = false.
Proof.
  induction l as [|z l IH]; intros Hneg Hy; [by apply elem_of_nil in Hy|].
  simpl in Hneg. destruct (p z) eqn:Hz; [lia|].
  destruct (Z.ltb_spec (findIndex p l) 0); [|lia].
  apply elem_of_cons in Hy as [->|Hy]; [done|by apply IH].
Qed.

(** ** The upsert *)

Lemma same_date_and_day_iff (s x : Session) :
  same_date_and_day s x = true ↔ matches_both s x.
Proof.
  unfold same_date_and_day, matches_both.
  rewrite andb_true_iff, !String.eqb_eq. done.
Qed.

Lemma same_date_iff (s x : Session) : same_date s x = true ↔ matches_date s x.
Proof. unfold same_date, matches_date. by rewrite String.eqb_eq. Qed.

Lemma same_date_and_day_refl (s : Session) : same_date_and_day s s = true.
Proof. by apply same_date_and_day_iff. Qed.

Lemma first_at_findIndex (p : Session → bool) (P : Session → Prop) store i :
  (∀ x, p x = true ↔ P x) → first_at P store i → findIndex p store = Z.of_nat i.
Proof.
  intros Hp [(x & Hx & HPx) Hbefore].
  apply (findIndex_first p store i x); [done|by apply Hp|].
  intros j y Hj Hy. destruct (p y) eqn:Hpy; [|done].
  exfalso. apply (Hbefore j y Hj Hy). by apply Hp.
Qed.

Lemma none_findIndex (p : Session → bool) (P : Session → Prop) (store : Store) :
  (∀ x, p x = true ↔ P x) → (∀ y, y ∈ store → ¬ P y) → findIndex p store = -1.
Proof.
  intros Hp Hnone. apply findIndex_none. intros y Hy.
  destruct (p y) eqn:Hpy; [|done]. exfalso. apply (Hnone y Hy). by apply Hp.
Qed.

Lemma replaced_at_set_index (store : Store) (i : nat) (s : Session) :
  (i < length store)%nat → replaced_at store i s (set_index store (Z.of_nat i) s).
Proof.
  intros Hi. unfold set_index. rewrite Nat2Z.id. split; [apply length_insert|].
  split; [by apply list_lookup_insert_eq|].
  intros j Hj. by apply list_lookup_insert_ne.
Qed.

Lemma first_at_in_range (P : Session → Prop) (store : Store) (i : nat) :
  first_at P store i → (i < length store)%nat.
Proof. intros [(x & Hx & _) _]. by apply lookup_lt_Some in Hx. Qed.

Lemma tracker_upsert_both (s : Session) (store : Store) (i : nat) :
  first_at (matches_both s) store i →
  GymProgramTracker.upsert s store = set_index store (Z.of_nat i) s.
Proof.
  intros Hi. unfold GymProgramTracker.upsert.
  rewrite (first_at_findIndex _ _ _ _ (same_date_and_day_iff s) Hi).
  destruct (Z.geb_spec (Z.of_nat i) 0); [done|lia].
Qed.

Lemma tracker_upsert_date (s : Session) (store : Store) (i : nat) :
  (∀ y, y ∈ store → ¬ matches_both s y) →
  first_at (matches_date s) store i →
  GymProgramTracker.upsert s store = set_index store (Z.of_nat i) s.
Proof.
  intros Hnone Hi. unfold GymProgramTracker.upsert.
  rewrite (none_findIndex _ _ _ (same_date_and_day_iff s) Hnone). simpl.
  rewrite (first_at_findIndex _ _ _ _ (same_date_iff s) Hi).
  destruct (Z.geb_spec (Z.of_nat i) 0); [done|lia].
Qed.

Lemma tracker_upsert_fresh (s : Session) (store : Store) :
  (∀ y, y ∈ store → ¬ matches_date s y) →
  GymProgramTracker.upsert s store = store ++ [s].
Proof.
  intros Hnone. unfold GymProgramTracker.upsert.
  assert (Hboth : ∀ y, y ∈ store → ¬ matches_both s y).
  { intros y Hy [Hd _]. by apply (Hnone y Hy). }
  rewrite (none_findIndex _ _ _ (same_date_and_day_iff s) Hboth). simpl.
  by rewrite (none_findIndex _ _ _ (same_date_iff s) Hnone).
Qed.

Lemma app_upsert_both (s : Session) (store : Store) (i : nat) :
  first_at (matches_both s) store i →
  App.upsert s store = set_index store (Z.of_nat i) s.
Proof.
  intros Hi. unfold App.upsert.
  rewrite (first_at_findIndex _ _ _ _ (same_date_and_day_iff s) Hi).
  destruct (Z.geb_spec (Z.of_nat i) 0); [done|lia].
Qed.

Lemma app_upsert_fresh (s : Session) (store : Store) :
  (∀ y, y ∈ store → ¬ matches_both s y) →
  App.upsert s store = store ++ [s].
Proof.
  intros Hnone. unfold App.upsert.
  by rewrite (none_findIndex _ _ _ (same_date_and_day_iff s) Hnone).
Qed.

Lemma tracker_three_rules : three_rules GymProgramTracker.upsert.
Proof.
  intros s store. split; [|split].
  - intros i Hi. rewrite (tracker_upsert_both s store i Hi).
    apply replaced_at_set_index, (first_at_in_range _ _ _ Hi).
  - intros Hnone i Hi. rewrite (tracker_upsert_date s store i Hnone Hi).
    apply replaced_at_set_index, (first_at_in_range _ _ _ Hi).
  - apply tracker_upsert_fresh.
Qed.

Lemma app_two_rules : two_rules App.upsert.
Proof.
  intros s store. split.
  - intros i Hi. rewrite (app_upsert_both s store i Hi).
    apply replaced_at_set_index, (first_at_in_range _ _ _ Hi).
  - apply app_upsert_fresh.
Qed.

(** *** Keys of the store *)

Section Keys.
Context {K : Type} (key : Session → K).

Lemma keys_set_index (store : Store) (idx : Z) (s x : Session) :
  store !! Z.to_nat idx = Some x → key x = key s →
  key <$> set_index store idx s = key <$> store.
Proof.
  intros Hx Hkey. unfold set_index. rewrite list_fmap_insert.
  apply list_insert_id. rewrite list_lookup_fmap, Hx. simpl. by rewrite Hkey.
Qed.

Lemma keys_append_fresh (store : Store) (s : Session) :
  NoDup (key <$> store) → (∀ y, y ∈ store → key y ≠ key s) →
  NoDup (key <$> (store ++ [s])).
Proof.
  intros Hnodup Hfresh. rewrite fmap_app. apply NoDup_app.
  split; [done|]. split; [|apply NoDup_singleton].
  intros k Hk Hks. apply list_elem_of_singleton in Hks as ->.
  apply list_elem_of_fmap in Hk as (y & Hy & Hin). by apply (Hfresh y Hin).
Qed.
End Keys.

Lemma tracker_upsert_unique_dates (s : Session) (store : Store) :
  unique_dates store → unique_dates (GymProgramTracker.upsert s store).
Proof.
  unfold unique_dates, GymProgramTracker.upsert. intros Hnodup.
  destruct (Z.geb_spec (findIndex (same_date_and_day s) store) 0) as [Hboth|Hboth].
  { destruct (findIndex_found _ _ Hboth) as (x & Hx & Hpx).
    apply same_date_and_day_iff in Hpx as [Hd _].
    by rewrite (keys_set_index date store _ s x Hx Hd). }
  destruct (Z.geb_spec (findIndex (same_date s) store) 0) as [Hdate|Hdate].
  { destruct (findIndex_found _ _ Hdate) as (x & Hx & Hpx).
    apply same_date_iff in Hpx.
    by rewrite (keys_set_index date store _ s x Hx Hpx). }
  apply keys_append_fresh; [done|]. intros y Hy Heq.
  pose proof (findIndex_missing _ _ y Hdate Hy) as Hfalse.
  apply (proj2 (same_date_iff s y)) in Heq. congruence.
Qed.

Lemma app_upsert_unique_date_days (s : Session) (store : Store) :
  unique_date_days store → unique_date_days (App.upsert s store).
Proof.
  unfold unique_date_days, App.upsert. intros Hnodup.
  destruct (Z.geb_spec (findIndex (same_date_and_day s) store) 0) as [Hboth|Hboth].
  { destruct (findIndex_found _ _ Hboth) as (x & Hx & Hpx).
    apply same_date_and_day_iff in Hpx as [Hd Hk].
    rewrite (keys_set_index _ store _ s x Hx); [done|]. by rewrite Hd, Hk. }
  apply keys_append_fresh; [done|]. intros y Hy Heq.
  pose proof (findIndex_missing _ _ y Hboth Hy) as Hfalse.
  assert (matches_both s y) as Hm by (split; congruence).
  apply same_date_and_day_iff in Hm. congruence.
Qed.

Lemma upserts_invariant (f : Session → Store → Store) (I : Store → Prop) :
  (∀ s store, I store → I (f s store)) →
  ∀ ss store, I store → I (upserts f store ss).
Proof.
  intros Hstep ss. induction ss as [|s ss IH]; intros store Hstore; [done|].
  simpl. apply IH, Hstep, Hstore.
Qed.

(** *** Saving the same session again *)

Lemma findIndex_set_index_self (p : Session → bool) (store : Store) (s : Session) :
  p s = true → 0 ≤ findIndex p store →
  findIndex p (set_index store (findIndex p store) s) = findIndex p store.
Proof.
  intros Hs Hpos. destruct (findIndex_found p store Hpos) as (x & Hx & _).
  apply lookup_lt_Some in Hx. unfold set_index.
  etransitivity; [|apply (Z2Nat.id _ Hpos)].
  apply (findIndex_first p _ _ s); [by apply list_lookup_insert_eq|done|].
  intros j y Hj Hy. rewrite list_lookup_insert_ne in Hy by lia.
  apply (findIndex_before p store j y); [lia|done].
Qed.

Lemma set_index_twice (store : Store) (idx : Z) (s : Session) :
  set_index (set_index store idx s) idx s = set_index store idx s.
Proof. unfold set_index. apply list_insert_insert_eq. Qed.

Lemma findIndex_append_self (p : Session → bool) (store : Store) (s : Session) :
  p s = true → findIndex p store < 0 →
  findIndex p (store ++ [s]) = Z.of_nat (length store).
Proof.
  intros Hs Hneg. apply (findIndex_first p _ _ s); [|done|].
  - rewrite lookup_app_r by lia. by rewrite Nat.sub_diag.
  - intros j y Hj Hy. rewrite lookup_app_l in Hy by lia.
    apply (findIndex_missing p store y Hneg), (list_elem_of_lookup_2 _ j), Hy.
Qed.

Lemma set_index_append_self (store : Store) (s : Session) :
  set_index (store ++ [s]) (Z.of_nat (length store)) s = store ++ [s].
Proof.
  unfold set_index. rewrite Nat2Z.id. apply list_insert_id.
  rewrite lookup_app_r by lia. by rewrite Nat.sub_diag.
Qed.

Lemma findIndex_set_index_other (p q : Session → bool) (store : Store) (s : Session) :
  p s = true → findIndex p store < 0 → 0 ≤ findIndex q store →
  findIndex p (set_index store (findIndex q store) s) = findIndex q store.
Proof.
  intros Hs Hneg Hpos. destruct (findIndex_found q store Hpos) as (x & Hx & _).
  apply lookup_lt_Some in Hx. unfold set_index.
  etransitivity; [|apply (Z2Nat.id _ Hpos)].
  apply (findIndex_first p _ _ s); [by apply list_lookup_insert_eq|done|].
  intros j y Hj Hy. rewrite list_lookup_insert_ne in Hy by lia.
  apply (findIndex_missing p store y Hneg), (list_elem_of_lookup_2 _ j), Hy.
Qed.

Lemma app_upsert_twice (s : Session) (store : Store) :
  App.upsert s (App.upsert s store) = App.upsert s store.
Proof.
  unfold App.upsert at 2 3.
  destruct (Z.geb_spec (findIndex (same_date_and_day s) store) 0) as [Hboth|Hboth].
  - unfold App.upsert.
    rewrite (findIndex_set_index_self _ _ _ (same_date_and_day_refl s) Hboth).
    destruct (Z.geb_spec (findIndex (same_date_and_day s) store) 0); [|lia].
    apply set_index_twice.
  - unfold App.upsert.
    rewrite (findIndex_append_self _ _ _ (same_date_and_day_refl s) Hboth).
    destruct (Z.geb_spec (Z.of_nat (length store)) 0); [|lia].
    apply set_index_append_self.
Qed.

Lemma tracker_upsert_twice (s : Session) (store : Store) :
  GymProgramTracker.upsert s (GymProgramTracker.upsert s store)
  = GymProgramTracker.upsert s store.
Proof.
  unfold GymProgramTracker.upsert at 2 3.
  destruct (Z.geb_spec (findIndex (same_date_and_day s) store) 0) as [Hboth|Hboth].
  { unfold GymProgramTracker.upsert.
    rewrite (findIndex_set_index_self _ _ _ (same_date_and_day_refl s) Hboth).
    destruct (Z.geb_spec (findIndex (same_date_and_day s) store) 0); [|lia].
    apply set_index_twice. }
  destruct (Z.geb_spec (findIndex (same_date s) store) 0) as [Hdate|Hdate].
  { unfold GymProgramTracker.upsert.
    rewrite (findIndex_set_index_other _ _ _ _ (same_date_and_day_refl s) Hboth Hdate).
    destruct (Z.geb_spec (findIndex (same_date s) store) 0); [|lia].
    apply set_index_twice. }
  unfold GymProgramTracker.upsert.
  rewrite (findIndex_append_self _ _ _ (same_date_and_day_refl s) Hboth).
  destruct (Z.geb_spec (Z.of_nat (length store)) 0); [|lia].
  apply set_index_append_self.
Qed.

(** ** Default entries *)

Lemma find_snoc {A} (p : A → bool) (l : list A) (x : A) :
  List.find p (l ++ [x]) =
  match List.find p l with
  | Some y => Some y
  | None => if p x then Some x else None
  end.
Proof.
  induction l as [|z l IH]; simpl; [done|]. by destruct (p z).
Qed.

(** Searching the reversed array finds the last match of the array. *)
Lemma find_rev_last {A} (p : A → bool) (l : list A) :
  match List.find p (rev l) with
  | Some x => ∃ i, l !! i = Some x ∧ p x = true ∧
                   ∀ j y, (i < j)%nat → l !! j = Some y → p y = false
  | None => ∀ y, y ∈ l → p y = false
  end.
Proof.
  induction l as [|z l IH]; simpl.
  { intros y Hy. by apply elem_of_nil in Hy. }
  rewrite find_snoc. destruct (List.find p (rev l)) as [x|].
  - destruct IH as (i & Hi & Hx & Hafter). exists (S i). split; [done|]. split; [done|].
    intros [|j] y Hj Hy; [lia|]. apply (Hafter j y); [lia|done].
  - destruct (p z) eqn:Hz.
    + exists 0%nat. split; [done|]. split; [done|].
      intros [|j] y Hj Hy; [lia|]. apply IH, (list_elem_of_lookup_2 _ j), Hy.
    + intros y [->|Hy]%elem_of_cons; [done|by apply IH].
Qed.

Lemma has_weight_iff (exId : string) (s : Session) :
  has_weight exId s = true ↔ ∃ w, holds_weight exId s w.
Proof.
  unfold has_weight, holds_weight, entry_of. split.
  - destruct (entries s) as [es|]; [|done]. destruct (es !! exId) as [e|] eqn:He; [|done].
    intros Hw. exists (weight e), es, e. repeat split; try done.
    intros Heq. rewrite Heq in Hw. done.
  - intros (w & es & e & -> & -> & <- & Hne).
    destruct (weight e) as [| |t|n]; try done. simpl.
    destruct (String.eqb_spec t ""); [congruence|done].
Qed.

Lemma holds_weight_weight_in (exId : string) (s : Session) (w : scalar) :
  holds_weight exId s w → weight_in exId s = w.
Proof.
  intros (es & e & Hes & He & <- & _). unfold weight_in, entry_of. by rewrite Hes, He.
Qed.

Lemma holds_weight_session_on (d k stamp exId : string) (w : scalar) :
  w ≠ Str "" → holds_weight exId (session_on d k stamp exId w) w.
Proof.
  intros Hw. exists (one_entry exId w), {| weight := w; reps := blank; sets := blank |}.
  split; [reflexivity|]. split; [apply lookup_singleton_eq|]. by split.
Qed.

(** The entry that seeding computes for an exercise. *)
Lemma seedEntry_found (sessions : Store) (ex : Exercise) (i : nat) :
  last_at (λ s, ∃ w, holds_weight (ex_id ex) s w) sessions i →
  ∃ s, sessions !! i = Some s ∧
       seedEntry sessions ex =
       {| weight := nullish (weight_in (ex_id ex) s) (Str ""); reps := Str ""; sets := Str "" |}.
Proof.
  intros [(s & Hs & Hw) Hafter]. exists s. split; [done|].
  unfold seedEntry. pose proof (find_rev_last (has_weight (ex_id ex)) sessions) as Hfind.
  destruct (List.find (has_weight (ex_id ex)) (rev sessions)) as [x|].
  - destruct Hfind as (k & Hk & Hx & Hlater).
    assert (k = i) as ->.
    { destruct (Nat.lt_trichotomy k i) as [Hlt|[Heq|Hgt]]; [|done|].
      - apply has_weight_iff in Hw. rewrite (Hlater i s Hlt Hs) in Hw. done.
      - exfalso. apply (Hafter k x Hgt Hk). by apply has_weight_iff. }
    by replace x with s by congruence.
  - apply has_weight_iff in Hw. rewrite (Hfind s) in Hw; [done|].
    apply (list_elem_of_lookup_2 _ i), Hs.
Qed.

Lemma seedEntry_none (sessions : Store) (ex : Exercise) :
  (∀ s w, s ∈ sessions → ¬ holds_weight (ex_id ex) s w) →
  seedEntry sessions ex =
  {| weight := nullish (start ex) (Str ""); reps := Str ""; sets := Str "" |}.
Proof.
  intros Hnone. unfold seedEntry.
  pose proof (find_rev_last (has_weight (ex_id ex)) sessions) as Hfind.
  destruct (List.find (has_weight (ex_id ex)) (rev sessions)) as [x|]; [|done].
  destruct Hfind as (k & Hk & Hx & _). apply has_weight_iff in Hx as [w Hw].
  exfalso. apply (Hnone x w); [|done]. apply (list_elem_of_lookup_2 _ k), Hk.
Qed.

(** *** Objects built by a loop over the exercises *)

Section Built.
Context (g : Exercise → Entry).

Lemma built_snoc acc exs ex :
  built g acc (exs ++ [ex]) = <[ex_id ex := g ex]> (built g acc exs).
Proof. unfold built. by rewrite foldl_app. Qed.

Lemma built_keys (exs : list Exercise) (k : string) :
  is_Some (built g ∅ exs !! k) ↔ k ∈ ex_id <$> exs.
Proof.
  induction exs as [|ex exs IH] using rev_ind.
  - simpl. rewrite lookup_empty. split; [by intros [? ?]|by intros ?%elem_of_nil].
  - rewrite built_snoc, fmap_app, elem_of_app, <- IH. simpl.
    rewrite list_elem_of_singleton. destruct (decide (ex_id ex = k)) as [->|Hne].
    + rewrite lookup_insert_eq. split; [by right|by eexists].
    + rewrite lookup_insert_ne by done. split; [by left|]. by intros [?|?].
Qed.

Lemma built_values (exs : list Exercise) (k : string) (e : Entry) :
  built g ∅ exs !! k = Some e → ∃ ex, ex ∈ exs ∧ ex_id ex = k ∧ e = g ex.
Proof.
  induction exs as [|ex exs IH] using rev_ind.
  - simpl. by rewrite lookup_empty.
  - rewrite built_snoc. destruct (decide (ex_id ex = k)) as [<-|Hne].
    + rewrite lookup_insert_eq. intros [= <-]. exists ex. by rewrite elem_of_app, list_elem_of_singleton; auto.
    + rewrite lookup_insert_ne by done. intros (ex' & Hin & Hid & He)%IH.
      exists ex'. rewrite elem_of_app. auto.
Qed.

Lemma built_lookup (exs : list Exercise) (ex : Exercise) :
  NoDup (ex_id <$> exs) → ex ∈ exs → built g ∅ exs !! ex_id ex = Some (g ex).
Proof.
  induction exs as [|x exs IH] using rev_ind; intros Hnodup Hin.
  - by apply elem_of_nil in Hin.
  - rewrite fmap_app in Hnodup. apply NoDup_app in Hnodup as (Hnd & Hdisj & _).
    rewrite built_snoc. apply elem_of_app in Hin as [Hin|Hin].
    2: { apply list_elem_of_singleton in Hin as ->. by rewrite lookup_insert_eq. }
    + rewrite lookup_insert_ne; [by apply IH|].
      intros Heq. apply (Hdisj (ex_id ex)); [by apply list_elem_of_fmap_2|].
      simpl. rewrite Heq. apply list_elem_of_singleton. done.
Qed.
End Built.

Lemma lookup_day_elem (days : list (string * Day)) (key : string) (day : Day) :
  lookup_day days key = Some day → (key, day) ∈ days.
Proof.
  unfold lookup_day. induction days as [|[k d] days IH]; simpl; [done|].
  destruct (String.eqb_spec k key) as [->|Hne]; simpl.
  - intros [= ->]. apply elem_of_cons. by left.
  - intros Hd. apply elem_of_cons. right. by apply IH.
Qed.

Lemma program_days_nodup (fallow : scalar) (key : string) (day : Day) :
  lookup_day (PROGRAM_days fallow) key = Some day → NoDup (ex_id <$> exercises day).
Proof.
  intros Hday%lookup_day_elem.
  assert (Hall : Forall (λ kd, NoDup (ex_id <$> exercises (snd kd))) (PROGRAM_days fallow)).
  { unfold PROGRAM_days. repeat apply Forall_cons_2; [..|apply Forall_nil_2];
      apply (bool_decide_unpack _); vm_compute; reflexivity. }
  rewrite Forall_forall in Hall. apply (Hall _ Hday).
Qed.

(** ** The analytics series *)

Lemma string_compare_trans_le (a b c : string) :
  String.compare a b ≠ Gt → String.compare b c ≠ Gt → String.compare a c ≠ Gt.
Proof.
  revert b c. induction a as [|x a IH]; intros [|y b] [|z c]; simpl; try done.
  unfold Ascii.compare.
  destruct (N.compare_spec (Ascii.N_of_ascii x) (Ascii.N_of_ascii y)) as [Hxy|Hxy|Hxy];
    destruct (N.compare_spec (Ascii.N_of_ascii y) (Ascii.N_of_ascii z)) as [Hyz|Hyz|Hyz];
    destruct (N.compare_spec (Ascii.N_of_ascii x) (Ascii.N_of_ascii z)) as [Hxz|Hxz|Hxz];
    try done; try lia.
  apply IH.
Qed.

Lemma string_leb_trans (a b c : string) :
  String.leb a b = true → String.leb b c = true → String.leb a c = true.
Proof.
  unfold String.leb. intros Hab Hbc.
  pose proof (string_compare_trans_le a b c) as Htrans.
  destruct (String.compare a b), (String.compare b c), (String.compare a c);
    try done; exfalso; by apply Htrans.
Qed.

Lemma string_gt_leb (a b : string) : string_gt a b = true → String.leb b a = true.
Proof.
  unfold string_gt, String.leb. rewrite (String.compare_antisym a b).
  by destruct (String.compare b a).
Qed.

Lemma string_not_gt_leb (a b : string) : string_gt a b = false → String.leb a b = true.
Proof. unfold string_gt, String.leb. by destruct (String.compare a b). Qed.

#[local] Instance date_le_trans : Transitive date_le.
Proof. intros a b c. apply string_leb_trans. Qed.

Lemma by_date_positive (a b : Point) : (by_date a b >? 0) = true → date_le b a.
Proof.
  unfold by_date, date_le. destruct (string_gt (p_date a) (p_date b)) eqn:Hgt; [|done].
  intros _. by apply string_gt_leb.
Qed.

Lemma by_date_not_positive (a b : Point) : (by_date a b >? 0) = false → date_le a b.
Proof.
  unfold by_date, date_le. destruct (string_gt (p_date a) (p_date b)) eqn:Hgt; [done|].
  intros _. by apply string_not_gt_leb.
Qed.

Lemma sort_insert_perm {A} (cmp : A → A → Z) (x : A) (l : list A) :
  sort_insert cmp x l ≡ₚ x :: l.
Proof.
  induction l as [|y l IH]; simpl; [done|].
  destruct (cmp y x >? 0); [done|]. rewrite IH. apply Permutation_swap.
Qed.

Lemma Array_sort_perm {A} (cmp : A → A → Z) (l : list A) : Array_sort cmp l ≡ₚ l.
Proof.
  unfold Array_sort.
  assert (Hgen : ∀ acc, foldl (λ sorted x, sort_insert cmp x sorted) acc l ≡ₚ acc ++ l).
  { induction l as [|x l IH]; intros acc; simpl; [by rewrite app_nil_r|].
    rewrite IH, sort_insert_perm. apply Permutation_middle. }
  apply Hgen.
Qed.

Lemma sort_insert_hd (x a : Point) (l : list Point) :
  HdRel date_le a l → date_le a x → HdRel date_le a (sort_insert by_date x l).
Proof.
  intros Hl Hx. destruct l as [|y l]; simpl; [by constructor|].
  destruct (by_date y x >? 0); constructor; [done|]. by inversion Hl.
Qed.

Lemma sort_insert_sorted (x : Point) (l : list Point) :
  Sorted date_le l → Sorted date_le (sort_insert by_date x l).
Proof.
  induction 1 as [|y l Hsorted IH Hhd]; simpl; [by repeat constructor|].
  destruct (by_date y x >? 0) eqn:Hcmp.
  - constructor; [by constructor|]. constructor. by apply by_date_positive.
  - constructor; [done|]. apply sort_insert_hd; [done|]. by apply by_date_not_positive.
Qed.

Lemma Array_sort_sorted (l : list Point) : Sorted date_le (Array_sort by_date l).
Proof.
  unfold Array_sort.
  assert (Hgen : ∀ acc, Sorted date_le acc →
            Sorted date_le (foldl (λ sorted x, sort_insert by_date x sorted) acc l)).
  { induction l as [|x l IH]; intros acc Hacc; simpl; [done|].
    by apply IH, sort_insert_sorted. }
  apply Hgen. constructor.
Qed.

Lemma is_empty_sentinel_spec (w : scalar) :
  is_empty_sentinel w = true ↔ w = Str "" ∨ w = Null ∨ w = Undefined.
Proof.
  unfold is_empty_sentinel. destruct w as [| |t|n]; simpl.
  - split; [by auto|done].
  - split; [by auto|done].
  - rewrite !orb_false_r. destruct (String.eqb_spec t "") as [->|Hne].
    + split; [by auto|done].
    + split; [done|]. intros [[= Ht]|[?|?]]; done.
  - split; [done|]. intros [?|[?|?]]; done.
Qed.

Section Series.
Context `{Builtins}.

Lemma point_of_recorded (exId : string) (s : Session) (e : Entry) :
  entry_of exId s = Some e → point_of exId s = series_point s e.
Proof.
  intros He. unfold point_of, series_point. rewrite He. f_equal.
  destruct (weight e) as [| |t|n]; try done.
  unfold is_empty_sentinel. simpl. rewrite !orb_false_r.
  by destruct t.
Qed.

Lemma recording_sessions (exId : string) (sessions : Store) :
  point_of exId <$> List.filter (records exId) sessions
  = omap (λ s, series_point s <$> entry_of exId s) sessions.
Proof.
  induction sessions as [|s sessions IH]; [done|].
  cbn [List.filter omap list_omap]. unfold records at 1.
  destruct (entry_of exId s) as [e|] eqn:He; cbn [fmap option_fmap option_map list_fmap].
  - f_equal; [by apply point_of_recorded|exact IH].
  - exact IH.
Qed.
End Series.

(** ** The order of numbers *)

Ltac sf_cases :=
  unfold num_le, num_gt, Number_isNaN, SFleb, SFltb, SFcompare;
  repeat match goal with
  | s : bool |- _ => destruct s
  | |- context [Pos.compare_cont Eq ?x ?y] =>
      change (Pos.compare_cont Eq x y) with (Pos.compare x y)
  end.

Ltac sf_order :=
  repeat match goal with
  | |- context [Z.compare ?x ?y] => destruct (Z.compare_spec x y)
  | |- context [Pos.compare ?x ?y] => destruct (Pos.compare_spec x y)
  end; simpl in *; try done; try lia.

Lemma num_le_refl (a : number) : Number_isNaN a = false → num_le a a = true.
Proof. destruct a; sf_cases; intros; simpl; sf_order. Qed.

Lemma num_gt_le (a b : number) : num_gt a b = true → num_le b a = true.
Proof. destruct a, b; sf_cases; simpl; try done; sf_order. Qed.

Lemma num_not_gt_le (a b : number) :
  Number_isNaN a = false → Number_isNaN b = false →
  num_gt a b = false → num_le a b = true.
Proof. destruct a, b; sf_cases; simpl; try done; intros _ _; sf_order. Qed.

Lemma num_le_trans (a b c : number) :
  num_le a b = true → num_le b c = true → num_le a c = true.
Proof. destruct a, b, c; sf_cases; simpl; try done; sf_order. Qed.

Lemma num_le_zeros (a b : number) :
  is_pos_zero a = true → is_neg_zero b = true → num_le b a = true.
Proof. by destruct a as [[]| | |], b as [[]| | |]. Qed.

Lemma num_le_NegInfinity (a : number) : num_le a NegInfinity = true → a = NegInfinity.
Proof. destruct a as [|[]| |[]]; done. Qed.

(** *** [Math.max] *)

Lemma Math_max_from_spec (ws : list number) (h : number) :
  Number_isNaN h = false → Forall (λ w, Number_isNaN w = false) ws →
  Number_isNaN (Math_max_from h ws) = false ∧
  num_le h (Math_max_from h ws) = true ∧
  Forall (λ w, num_le w (Math_max_from h ws) = true) ws ∧
  (Math_max_from h ws = h ∨ Math_max_from h ws ∈ ws).
Proof.
  revert h. induction ws as [|n ws IH]; intros h Hh Hws; simpl.
  { split; [done|]. split; [by apply num_le_refl|]. split; [constructor|by left]. }
  apply Forall_cons in Hws as [Hn Hws]. rewrite Hn.
  assert (Hup : ∀ r, num_le h n = true →
            Number_isNaN r = false ∧ num_le n r = true ∧
            Forall (λ w, num_le w r = true) ws ∧ (r = n ∨ r ∈ ws) →
            Number_isNaN r = false ∧ num_le h r = true ∧
            Forall (λ w, num_le w r = true) (n :: ws) ∧ (r = h ∨ r ∈ n :: ws)).
  { intros r Hhn (Hr & Hnr & Hall & Hin). split; [done|].
    split; [by apply (num_le_trans h n r)|]. split; [by constructor|].
    right. destruct Hin as [->|Hin]; [by left|by right]. }
  destruct (is_pos_zero n && is_neg_zero h) eqn:Hzero.
  { apply andb_true_iff in Hzero as [Hpos Hneg].
    apply Hup; [by apply num_le_zeros|by apply IH]. }
  destruct (num_gt n h) eqn:Hgt.
  { apply Hup; [by apply num_gt_le|by apply IH]. }
  destruct (IH h Hh Hws) as (Hr & Hhr & Hall & Hin).
  split; [done|]. split; [done|]. split.
  - constructor; [|done].
    apply (num_le_trans n h _); [by apply num_not_gt_le|done].
  - destruct Hin as [->|Hin]; [by left|right; by right].
Qed.

Lemma Math_max_spec (ws : list number) :
  ws ≠ [] → Forall (λ w, Number_isNaN w = false) ws →
  Math_max ws ∈ ws ∧ Forall (λ w, num_le w (Math_max ws) = true) ws.
Proof.
  intros Hne Hws. unfold Math_max.
  destruct (Math_max_from_spec ws NegInfinity eq_refl Hws) as (_ & _ & Hall & Hin).
  split; [|done]. destruct Hin as [Heq|Hin]; [|done].
  destruct ws as [|w ws]; [done|]. rewrite Heq in *.
  apply Forall_cons in Hall as [Hw _]. apply num_le_NegInfinity in Hw as ->.
  by left.
Qed.

(** ** The summary *)

Lemma is_valid_iff (d : Point) : is_valid d = true ↔ numeric d.
Proof.
  unfold is_valid, numeric. destruct (p_weight d) as [n|].
  - rewrite negb_true_iff. split; [by exists n|]. by intros (? & [= <-] & ?).
  - split; [done|]. by intros (? & ? & ?).
Qed.

Lemma filter_not_numeric (l : list Point) :
  Forall (λ d, ¬ numeric d) l → List.filter is_valid l = [].
Proof.
  induction 1 as [|d l Hd _ IH]; simpl; [done|].
  destruct (is_valid d) eqn:Hv; [|done]. by apply is_valid_iff in Hv.
Qed.

Lemma filter_ends_with (before after : list Point) (l : Point) :
  numeric l → Forall (λ d, ¬ numeric d) after →
  List.filter is_valid (before ++ l :: after) = List.filter is_valid before ++ [l].
Proof.
  intros Hl Hafter. rewrite List.filter_app. simpl.
  apply is_valid_iff in Hl. by rewrite Hl, (filter_not_numeric after Hafter).
Qed.

Lemma filter_head (l : list Point) (x : Point) (r : list Point) :
  List.filter is_valid l = x :: r →
  ∃ l1 l2, l = l1 ++ x :: l2 ∧ numeric x ∧ List.filter is_valid l2 = r.
Proof.
  induction l as [|d l IH]; simpl; [done|].
  destruct (is_valid d) eqn:Hd.
  - intros [= -> <-]. exists [], l. by rewrite <- is_valid_iff.
  - intros (l1 & l2 & -> & Hx & Hr)%IH. by exists (d :: l1), l2.
Qed.

Lemma two_numeric_positions (l : list Point) (x y : Point) (r : list Point) :
  List.filter is_valid l = x :: y :: r →
  ∃ i j, (i < j)%nat ∧ l !! i = Some x ∧ l !! j = Some y ∧ numeric x ∧ numeric y.
Proof.
  intros (l1 & l2 & -> & Hx & Hrest)%filter_head.
  apply filter_head in Hrest as (l3 & l4 & -> & Hy & _).
  exists (length l1), (length l1 + S (length l3))%nat.
  split; [lia|]. split; [|split; [|done]].
  - by rewrite lookup_app_r, Nat.sub_diag by lia.
  - rewrite lookup_app_r by lia.
    replace (length l1 + S (length l3) - length l1)%nat with (S (length l3)) by lia.
    simpl. by rewrite lookup_app_r, Nat.sub_diag by lia.
Qed.

Lemma list_end_cases {A} (l : list A) :
  l = [] ∨ (∃ x, l = [x]) ∨ ∃ rest p x, l = rest ++ [p; x].
Proof.
  induction l as [|x l _] using rev_ind; [by left|]. right.
  induction l as [|p l _] using rev_ind; [left; by exists x|].
  right. exists l, p, x. by rewrite <- app_assoc.
Qed.

Lemma at_index_last {A} (l : list A) (x : A) :
  at_index (l ++ [x]) (Z.of_nat (length (l ++ [x])) - 1) = Some x.
Proof.
  unfold at_index. rewrite length_app. simpl.
  destruct (Z.ltb_spec (Z.of_nat (length l + 1) - 1) 0); [lia|].
  replace (Z.to_nat (Z.of_nat (length l + 1) - 1)) with (length l) by lia.
  by rewrite lookup_app_r, Nat.sub_diag by lia.
Qed.

Lemma at_index_before_last {A} (l : list A) (p x : A) :
  at_index (l ++ [p; x]) (Z.of_nat (length (l ++ [p; x])) - 2) = Some p.
Proof.
  unfold at_index. rewrite length_app. simpl.
  destruct (Z.ltb_spec (Z.of_nat (length l + 2) - 2) 0); [lia|].
  replace (Z.to_nat (Z.of_nat (length l + 2) - 2)) with (length l) by lia.
  by rewrite lookup_app_r, Nat.sub_diag by lia.
Qed.

Lemma scaled_nearest (m : positive) (e f : Z) :
  nearest_scaled m e f (scaled (Z.pos m) e f).
Proof.
  unfold nearest_scaled, scaled. destruct (Z.leb_spec 0 e) as [Hpos|Hneg].
  - rewrite (Z.max_l e 0), (Z.max_r (- e) 0) by lia. cbv zeta. rewrite Z.pow_0_r. lia.
  - rewrite (Z.max_r e 0), (Z.max_l (- e) 0) by lia. cbv zeta. rewrite Z.pow_0_r, Z.mul_1_r.
    assert (0 < 2 ^ (- e)) as Hden by (apply Z.pow_pos_nonneg; lia).
    pose proof (Z.div_mod (2 * (Z.pos m * 10 ^ f) + 2 ^ (- e)) (2 * 2 ^ (- e)) ltac:(lia))
      as Hdiv.
    pose proof (Z.mod_pos_bound (2 * (Z.pos m * 10 ^ f) + 2 ^ (- e)) (2 * 2 ^ (- e)) ltac:(lia))
      as Hmod.
    lia.
Qed.

Lemma nearest_scaled_unique (m : positive) (e f k k' : Z) :
  nearest_scaled m e f k → nearest_scaled m e f k' → k = k'.
Proof.
  unfold nearest_scaled. simpl.
  assert (0 < 2 ^ Z.max (- e) 0) as Hden by (apply Z.pow_pos_nonneg; lia).
  intros [Hlow Hhigh] [Hlow' Hhigh'].
  assert (2 * k - 1 < 2 * k' + 1) by (apply (Z.mul_lt_mono_pos_l (2 ^ Z.max (- e) 0)); lia).
  assert (2 * k' - 1 < 2 * k + 1) by (apply (Z.mul_lt_mono_pos_l (2 ^ Z.max (- e) 0)); lia).
  lia.
Qed.

(** The decimal [toFixed] of the file rounds as the language prescribes. *)
Lemma ascii_toFixed_rounds : @toFixed_rounds ascii_builtins.
Proof.
  split; [done|]. intros neg m e k0 k Hk0 Hlimit Hk. simpl. unfold ascii_toFixed.
  rewrite <- (nearest_scaled_unique m e 0 k0 _ Hk0 (scaled_nearest m e 0)).
  rewrite <- (nearest_scaled_unique m e 2 k _ Hk (scaled_nearest m e 2)).
  destruct (Z.leb_spec (10 ^ 21) k0); [lia|]. by destruct neg.
Qed.

Section SummaryFacts.
Context `{Builtins}.

Lemma lastTwo_none (pts : list Point) :
  List.filter is_valid pts = [] →
  lastTwo pts = {| last := None; prev := None; delta := None; best := None |}.
Proof. intros Hv. unfold lastTwo. by rewrite Hv. Qed.

Lemma lastTwo_one (pts : list Point) (x : Point) :
  List.filter is_valid pts = [x] →
  lastTwo pts = {| last := Some x; prev := None; delta := None;
                   best := Some (Math_max [weight_number x]) |}.
Proof. intros Hv. unfold lastTwo. by rewrite Hv. Qed.

Lemma lastTwo_two (pts rest : list Point) (p x : Point) :
  List.filter is_valid pts = rest ++ [p; x] →
  lastTwo pts =
  {| last := Some x; prev := Some p;
     delta := Some (round2 (num_sub (weight_number x) (weight_number p)));
     best := Some (Math_max (map weight_number (rest ++ [p; x]))) |}.
Proof.
  intros Hv. unfold lastTwo. rewrite Hv.
  rewrite at_index_before_last.
  assert (Hlast : at_index (rest ++ [p; x]) (Z.of_nat (length (rest ++ [p; x])) - 1) = Some x).
  { change (rest ++ [p; x]) with (rest ++ [p] ++ [x]).
    rewrite (app_assoc rest [p] [x]). apply at_index_last. }
  rewrite Hlast.
  destruct (Z.eqb_spec (Z.of_nat (length (rest ++ [p; x]))) 0) as [Hlen|_]; [|done].
  rewrite length_app in Hlen. simpl in Hlen. lia.
Qed.

Lemma lastTwo_best (pts : list Point) :
  List.filter is_valid pts ≠ [] →
  ∃ b, best (lastTwo pts) = Some b ∧
       (∃ d, d ∈ pts ∧ numeric d ∧ p_weight d = Some b) ∧
       ∀ d n, d ∈ pts → p_weight d = Some n → Number_isNaN n = false → num_le n b = true.
Proof.
  intros Hne. set (valid := List.filter is_valid pts) in *.
  assert (Hin : ∀ d, d ∈ valid ↔ d ∈ pts ∧ numeric d).
  { intros d. unfold valid. rewrite !list_elem_of_In, filter_In, is_valid_iff. done. }
  assert (Hnum : Forall (λ w, Number_isNaN w = false) (map weight_number valid)).
  { apply Forall_forall. intros w (d & -> & Hd)%list_elem_of_fmap.
    apply Hin in Hd as [_ (n & Hn & Hnan)]. unfold weight_number. by rewrite Hn. }
  assert (Hmap : map weight_number valid ≠ []) by (by destruct valid).
  destruct (Math_max_spec _ Hmap Hnum) as [Hmem Hall].
  exists (Math_max (map weight_number valid)). split; [|split].
  - unfold lastTwo. fold valid.
    destruct (Z.eqb_spec (Z.of_nat (length valid)) 0) as [Hlen|_]; [|done].
    destruct valid; [done|simpl in Hlen; lia].
  - apply list_elem_of_fmap in Hmem as (d & Hd & Hdin).
    apply Hin in Hdin as [Hpts Hnumeric]. exists d. split; [done|]. split; [done|].
    destruct Hnumeric as (n & Hn & _). rewrite Hd. unfold weight_number. by rewrite Hn.
  - intros d n Hd Hn Hnan. rewrite Forall_forall in Hall. apply Hall.
    apply list_elem_of_fmap. exists d. split; [unfold weight_number; by rewrite Hn|].
    apply Hin. split; [done|]. by exists n.
Qed.
End SummaryFacts.

(** ** Saving the form *)

Section SaveFacts.
Context `{Builtins}.

Lemma clampNumber_empty (value : scalar) :
  value = Str "" ∨ value = Null ∨ value = Undefined → clampNumber value = Str "".
Proof. by intros [ -> | [ -> | -> ] ]. Qed.

Lemma clampNumber_unparseable (value : scalar) :
  Number_isNaN (Number value) = true → clampNumber value = Str "".
Proof.
  intros Hnan. unfold clampNumber.
  destruct (strict_eq value (Str "") || strict_eq value Null || strict_eq value Undefined);
    [done|]. by rewrite Hnan.
Qed.

Lemma clampNumber_parseable (value : scalar) :
  ¬ (value = Str "" ∨ value = Null ∨ value = Undefined) →
  Number_isNaN (Number value) = false → clampNumber value = Num (Number value).
Proof.
  intros Hfull Hnum. unfold clampNumber.
  fold (is_empty_sentinel value).
  destruct (is_empty_sentinel value) eqn:Hempty.
  - by apply is_empty_sentinel_spec in Hempty.
  - by rewrite Hnum.
Qed.

Lemma clampNumber_stored (value : scalar) : stored (clampNumber value).
Proof.
  unfold clampNumber.
  destruct (strict_eq value (Str "") || strict_eq value Null || strict_eq value Undefined);
    [by left|].
  destruct (Number_isNaN (Number value)) eqn:Hnan; [by left|].
  right. by exists (Number value).
Qed.

Lemma clean_stored (v : scalar) : stored (clean v).
Proof.
  unfold clean. destruct (strict_eq v (Str "")); [by left|apply clampNumber_stored].
Qed.

Lemma cleanEntries_keys (day : Day) (entries : gmap string Entry) (k : string) :
  is_Some (cleanEntries day entries !! k) ↔ k ∈ ex_id <$> exercises day.
Proof. apply (built_keys (λ ex, cleanEntry (default no_entry (entries !! ex_id ex)))). Qed.

Lemma cleanEntries_stored (day : Day) (entries : gmap string Entry) (k : string) (e : Entry) :
  cleanEntries day entries !! k = Some e →
  stored (weight e) ∧ stored (reps e) ∧ stored (sets e).
Proof.
  intros He.
  apply (built_values (λ ex, cleanEntry (default no_entry (entries !! ex_id ex)))) in He
    as (ex & _ & _ & ->).
  repeat split; apply clean_stored.
Qed.
End SaveFacts.

Lemma app_upsert_holds (p : Session) (prev : Store) : p ∈ App.upsert p prev.
Proof.
  unfold App.upsert.
  destruct (Z.geb_spec (findIndex (same_date_and_day p) prev) 0) as [Hpos|_].
  - destruct (findIndex_found _ _ Hpos) as (x & Hx & _). apply lookup_lt_Some in Hx.
    apply (list_elem_of_lookup_2 _ (Z.to_nat (findIndex (same_date_and_day p) prev))).
    by apply list_lookup_insert_eq.
  - apply elem_of_app. right. by left.
Qed.

Lemma tracker_upsert_holds (p : Session) (prev : Store) :
  p ∈ GymProgramTracker.upsert p prev.
Proof.
  unfold GymProgramTracker.upsert.
  destruct (Z.geb_spec (findIndex (same_date_and_day p) prev) 0) as [Hpos|_].
  { destruct (findIndex_found _ _ Hpos) as (x & Hx & _). apply lookup_lt_Some in Hx.
    apply (list_elem_of_lookup_2 _ (Z.to_nat (findIndex (same_date_and_day p) prev))).
    by apply list_lookup_insert_eq. }
  destruct (Z.geb_spec (findIndex (same_date p) prev) 0) as [Hpos|_].
  { destruct (findIndex_found _ _ Hpos) as (x & Hx & _). apply lookup_lt_Some in Hx.
    apply (list_elem_of_lookup_2 _ (Z.to_nat (findIndex (same_date p) prev))).
    by apply list_lookup_insert_eq. }
  apply elem_of_app. right. by left.
Qed.

(** ** Export and import *)

Lemma serialize_representable (v : value) :
  representable v = true → serialize v = Some v.
Proof.
  revert v. fix IH 1. intros [| |b|n|t|items|props]; simpl; try done.
  - by destruct n as [[]| | |].
  - intros Hall. do 2 f_equal.
    induction items as [|x items IHitems]; [done|]. simpl in *.
    apply andb_true_iff in Hall as [Hx Hall].
    rewrite (IH x Hx). simpl. f_equal. by apply IHitems.
  - intros Hall. do 2 f_equal.
    induction props as [|[k x] props IHprops]; [done|]. simpl in *.
    apply andb_true_iff in Hall as [Hx Hall].
    rewrite (IH x Hx). f_equal. by apply IHprops.
Qed.

Lemma serialize_items (items : list value) :
  Forall (λ v, representable v = true) items →
  map (λ x, default VNull (serialize x)) items = items.
Proof.
  induction 1 as [|x items Hx _ IH]; simpl; [done|].
  by rewrite (serialize_representable x Hx), IH.
Qed.

Lemma get_prop_field (props : list (string * value)) (key : string) (v : value) :
  field props key v → get_prop (VObject props) key = v.
Proof.
  intros (before & after & -> & Hbefore). simpl.
  induction before as [|[k x] before IH]; simpl.
  - by rewrite String.eqb_refl.
  - destruct (String.eqb_spec k key) as [Hk|_].
    + exfalso. apply (Hbefore (k, x)); [by left|done].
    + apply IH. intros kv Hkv. apply Hbefore. by right.
Qed.

Lemma get_prop_defined (props : list (string * value)) (key : string) (v : value) :
  get_prop (VObject props) key = v → v ≠ VUndefined → field props key v.
Proof.
  simpl. induction props as [|[k x] props IH]; simpl; [congruence|].
  destruct (String.eqb_spec k key) as [->|Hk]; simpl.
  - intros -> _. exists [], props. split; [done|]. by intros kv ?%elem_of_nil.
  - intros Hv Hdef. destruct (IH Hv Hdef) as (before & after & -> & Hbefore).
    exists ((k, x) :: before), after. split; [done|].
    intros kv [->|Hkv]%elem_of_cons; [done|by apply Hbefore].
Qed.

(** ** Scenarios *)

(** A store with one session on 2024-01-01 for day d1 and a weight of 40;
    saving a session of that date and day with 42 leaves one session, the
    new one. *)
Example save_over_same_day :
  let new := session_on "2024-01-01" "d1" "2024-01-01T19:00:00.000Z"
               "shoulder_press" (Num (lit 42 0)) in
  GymProgramTracker.upsert new [press_jan1] = [new] ∧ App.upsert new [press_jan1] = [new].
Proof. split; reflexivity. Qed.

(** The readings of some numerals. *)
Example readings :
  ascii_StringToNumber "22.5" = lit 45 (-1) ∧
  ascii_StringToNumber " 40 " = lit 40 0 ∧
  ascii_StringToNumber "1e3" = lit 1000 0 ∧
  ascii_StringToNumber "0x10" = lit 16 0 ∧
  ascii_StringToNumber "Infinity" = Infinity ∧
  ascii_StringToNumber "4 0" = NaN ∧
  ascii_StringToNumber "forty" = NaN.
Proof. repeat split; by vm_compute. Qed.

(** 0.1 + 0.2 is not 0.3, and [toFixed(2)] writes it as 0.30. *)
Example binary_fractions :
  SFadd prec emax (ascii_StringToNumber "0.1") (ascii_StringToNumber "0.2")
  ≠ ascii_StringToNumber "0.3" ∧
  ascii_toFixed (SFadd prec emax (ascii_StringToNumber "0.1") (ascii_StringToNumber "0.2")) 2
  = "0.30" ∧
  ascii_toFixed (ascii_StringToNumber "1.005") 2 = "1.00".
Proof. split; [by vm_compute|split; by vm_compute]. Qed.

(** A field of white space is not empty for [clampNumber]: it reads as 0. *)
Example white_space_reads_as_zero :
  @clampNumber ascii_builtins (Str "  ") = Num PosZero ∧
  @clampNumber ascii_builtins (Str "") = Str "".
Proof. split; by vm_compute. Qed.

(** The series of the two sessions of the examples, and its summary. *)
Example press_series :
  @chartData ascii_builtins [press_feb1; press_jan1] "shoulder_press"
  = [ {| p_date := "2024-01-01"; p_weight := Some (lit 40 0); p_dayKey := "d1" |};
      {| p_date := "2024-02-01"; p_weight := Some (lit 50 0); p_dayKey := "d1" |} ] ∧
  delta (@lastTwo ascii_builtins
           (@chartData ascii_builtins [press_feb1; press_jan1] "shoulder_press"))
  = Some (lit 10 0) ∧
  best (@lastTwo ascii_builtins
          (@chartData ascii_builtins [press_feb1; press_jan1] "shoulder_press"))
  = Some (lit 50 0).
Proof. repeat split; by vm_compute. Qed.

(** ** The properties of the specification *)

(** C1.  In the calendar version the updater of [saveSession] replaces in
    place the first session of the same date and day key; failing that,
    the first session of the same date; failing that, it appends; every
    other position of the store is as it was.  The updater of
    [src/App.jsx] has the first and the last rule only: a session of the
    same date and another day key is not replaced. *)
Theorem upsert_rules : three_rules GymProgramTracker.upsert ∧ two_rules App.upsert.
Proof. split; [apply tracker_three_rules|apply app_two_rules]. Qed.

Lemma upsert_rules_witness :
  replaced_at [press_jan1] 0 squat_jan1 (GymProgramTracker.upsert squat_jan1 [press_jan1])
  ∧ App.upsert squat_jan1 [press_jan1] = [press_jan1; squat_jan1].
Proof.
  destruct upsert_rules as [Hthree Htwo].
  assert (Hnone : ∀ y, y ∈ [press_jan1] → ¬ matches_both squat_jan1 y).
  { intros y Hy [_ Hk]. apply list_elem_of_singleton in Hy. subst y. discriminate Hk. }
  split.
  - destruct (Hthree squat_jan1 [press_jan1]) as (_ & Hdate & _).
    apply Hdate; [exact Hnone|].
    split; [by exists press_jan1|]. intros j y Hj. lia.
  - destruct (Htwo squat_jan1 [press_jan1]) as (_ & Hfresh).
    apply Hfresh, Hnone.
Defined.

Lemma upsert_rules_fail_in_App :
  first_at (matches_date squat_jan1) [press_jan1] 0 ∧
  (∀ y, y ∈ [press_jan1] → ¬ matches_both squat_jan1 y) ∧
  App.upsert squat_jan1 [press_jan1] = [press_jan1; squat_jan1] ∧
  ¬ replaced_at [press_jan1] 0 squat_jan1 (App.upsert squat_jan1 [press_jan1]) ∧
  ¬ three_rules App.upsert.
Proof.
  assert (Hfirst : first_at (matches_date squat_jan1) [press_jan1] 0).
  { split; [by exists press_jan1|]. intros j y Hj. lia. }
  assert (Hnone : ∀ y, y ∈ [press_jan1] → ¬ matches_both squat_jan1 y).
  { intros y Hy [_ Hk]. apply list_elem_of_singleton in Hy. subst y. discriminate Hk. }
  assert (Hnot : ¬ replaced_at [press_jan1] 0 squat_jan1 (App.upsert squat_jan1 [press_jan1])).
  { intros (Hlen & _). discriminate Hlen. }
  refine (conj Hfirst (conj Hnone (conj eq_refl (conj Hnot _)))).
  intros Hrules. destruct (Hrules squat_jan1 [press_jan1]) as (_ & Hdate & _).
  apply Hnot, Hdate; done.
Qed.

(** C2.  In the calendar version, a store in which no two sessions share
    a date stays so under every sequence of upserts.  In [src/App.jsx]
    the upserts keep distinct the pairs of date and day key. *)
Theorem upserts_keep_one_session_per_date :
  keeps_unique_dates GymProgramTracker.upsert ∧
  ∀ (store : Store) (ss : list Session),
    unique_date_days store → unique_date_days (upserts App.upsert store ss).
Proof.
  split.
  - intros store ss. revert store. apply upserts_invariant.
    intros s store. apply tracker_upsert_unique_dates.
  - intros store ss. revert store. apply upserts_invariant.
    intros s store. apply app_upsert_unique_date_days.
Qed.

Lemma upserts_keep_one_session_per_date_witness :
  unique_dates (upserts GymProgramTracker.upsert [press_jan1] [squat_jan1; press_feb1])
  ∧ unique_date_days (upserts App.upsert [press_jan1] [squat_jan1; press_feb1]).
Proof.
  destruct upserts_keep_one_session_per_date as [Hdates Hpairs]. split.
  - apply Hdates. unfold unique_dates. simpl. apply NoDup_singleton.
  - apply Hpairs. unfold unique_date_days. simpl. apply NoDup_singleton.
Defined.

Lemma two_sessions_on_one_date_in_App :
  unique_dates [] ∧
  upserts App.upsert [] [press_jan1; squat_jan1] = [press_jan1; squat_jan1] ∧
  date press_jan1 = date squat_jan1 ∧
  ¬ unique_dates (upserts App.upsert [] [press_jan1; squat_jan1]) ∧
  ¬ keeps_unique_dates App.upsert.
Proof.
  assert (Hnot : ¬ unique_dates (upserts App.upsert [] [press_jan1; squat_jan1])).
  { unfold unique_dates. simpl. intros Hnodup. apply NoDup_cons in Hnodup as [Hnotin _].
    apply Hnotin, list_elem_of_singleton. reflexivity. }
  refine (conj NoDup_nil_2 (conj eq_refl (conj eq_refl (conj Hnot _)))).
  intros Hkeeps. apply Hnot, Hkeeps, NoDup_nil_2.
Qed.

(** C8.  Saving the same session a second time changes nothing, in either
    component: the store after the second upsert is the store after the
    first. *)
Theorem upsert_idempotent :
  (∀ (s : Session) (store : Store),
     GymProgramTracker.upsert s (GymProgramTracker.upsert s store)
     = GymProgramTracker.upsert s store) ∧
  (∀ (s : Session) (store : Store),
     App.upsert s (App.upsert s store) = App.upsert s store).
Proof. split; [apply tracker_upsert_twice|apply app_upsert_twice]. Qed.

(** The day-change effect as it is written.  On a change of day, in
    either component, the form gets one entry per exercise of the day,
    with empty sets and reps.  Its weight comes
    from the last position of the store (the array is searched from its
    end) whose session has an entry for the exercise with a weight other
    than the empty string: that weight, or the empty string when it is
    [null] or [undefined].  When no position qualifies the weight is the
    starting value of the exercise, or the empty string when there is
    none.  On an empty store, day d1 seeds shoulder_press with 35. *)
Theorem day_change_seeding (fallow : scalar) (sessions : Store) :
  (∀ (dayKey : string) (day : Day),
     lookup_day (PROGRAM_days fallow) dayKey = Some day →
     ∃ next,
       dayChangeDefaults (PROGRAM_days fallow) sessions dayKey
       = Some (minutesDefault (day_cardio day), next) ∧
       (∀ k, is_Some (next !! k) ↔ k ∈ ex_id <$> exercises day) ∧
       ∀ ex, ex ∈ exercises day →
         ∃ w, next !! ex_id ex = Some {| weight := w; reps := Str ""; sets := Str "" |} ∧
           (∀ i s v, sessions !! i = Some s → holds_weight (ex_id ex) s v →
              (∀ j y u, (i < j)%nat → sessions !! j = Some y → ¬ holds_weight (ex_id ex) y u) →
              w = nullish v (Str "")) ∧
           ((∀ s v, s ∈ sessions → ¬ holds_weight (ex_id ex) s v) →
              w = nullish (start ex) (Str ""))) ∧
  (snd <$> dayChangeDefaults (PROGRAM_days fallow) [] "d1") ≫= (.!! "shoulder_press")
  = Some {| weight := Num (lit 35 0); reps := Str ""; sets := Str "" |}.
Proof.
  split; [|by vm_compute].
  intros dayKey day Hday. exists (nextEntries sessions day).
  split; [unfold dayChangeDefaults; by rewrite Hday|].
  split; [apply (built_keys (seedEntry sessions))|].
  intros ex Hex. exists (weight (seedEntry sessions ex)). split; [|split].
  - change (nextEntries sessions day) with (built (seedEntry sessions) ∅ (exercises day)).
    rewrite (built_lookup (seedEntry sessions) _ ex (program_days_nodup _ _ _ Hday) Hex).
    done.
  - intros i s v Hs Hv Hlater.
    assert (Hlast : last_at (λ s, ∃ w, holds_weight (ex_id ex) s w) sessions i).
    { split; [exists s; eauto|]. intros j y Hj Hy [u Hu]. by apply (Hlater j y u). }
    destruct (seedEntry_found sessions ex i Hlast) as (s' & Hs' & ->).
    replace s' with s by congruence. simpl.
    by rewrite (holds_weight_weight_in _ _ _ Hv).
  - intros Hnone. by rewrite (seedEntry_none sessions ex Hnone).
Qed.

Lemma day_change_seeding_witness :
  ∃ next,
    GymProgramTracker.dayChangeDefaults [press_feb1_again; press_jan1] "d1"
    = Some (Num (lit 15 0), next) ∧
    next !! "shoulder_press"
    = Some {| weight := Num (lit 40 0); reps := Str ""; sets := Str "" |}.
Proof.
  destruct (day_change_seeding Null [press_feb1_again; press_jan1]) as [Hseed _].
  destruct (Hseed "d1" _ eq_refl) as (next & Hdefaults & _ & Hentries).
  exists next. split; [exact Hdefaults|].
  destruct (Hentries shoulder_press) as (w & Hw & Hfound & _).
  { apply elem_of_cons. by left. }
  simpl in Hw. rewrite Hw. f_equal. f_equal.
  apply (Hfound 1%nat press_jan1 (Num (lit 40 0))).
  - reflexivity.
  - apply holds_weight_session_on. discriminate.
  - intros [|[|j]] y u Hj Hy; [lia|lia|discriminate Hy].
Defined.

(** C3.  The store below is reached, in either component, by saving
    February 1st with 50, then January 1st with 40, then February 1st
    again with 55: the last save is replaced in place, ahead of the older
    session.  Seeding then takes 40, the weight of the older session at
    the end of the array, and not 55, the weight logged last and of the
    latest date. *)
Lemma seeding_takes_an_older_session :
  upserts GymProgramTracker.upsert [] [press_feb1; press_jan1; press_feb1_again]
  = [press_feb1_again; press_jan1] ∧
  upserts App.upsert [] [press_feb1; press_jan1; press_feb1_again]
  = [press_feb1_again; press_jan1] ∧
  older press_jan1 press_feb1_again ∧
  holds_weight "shoulder_press" press_feb1_again (Num (lit 55 0)) ∧
  seeded_weight GymProgramTracker.PROGRAM [press_feb1_again; press_jan1] "d1" "shoulder_press"
  = Some (Num (lit 40 0)) ∧
  seeded_weight App.PROGRAM [press_feb1_again; press_jan1] "d1" "shoulder_press"
  = Some (Num (lit 40 0)) ∧
  ¬ seeds_most_recent GymProgramTracker.PROGRAM ∧
  ¬ seeds_most_recent App.PROGRAM.
Proof.
  assert (Hholds : holds_weight "shoulder_press" press_feb1_again (Num (lit 55 0))).
  { apply holds_weight_session_on. discriminate. }
  assert (Holder : older press_jan1 press_feb1_again) by (split; reflexivity).
  assert (Hrefute : ∀ fallow,
    seeded_weight (PROGRAM_days fallow) [press_feb1_again; press_jan1] "d1" "shoulder_press"
    = Some (Num (lit 40 0)) → ¬ seeds_most_recent (PROGRAM_days fallow)).
  { intros fallow Hseed Hclaim.
    assert (Hc : seeded_weight (PROGRAM_days fallow) [press_feb1_again; press_jan1]
                   "d1" "shoulder_press" = Some (Num (lit 55 0))).
    { eapply (Hclaim [press_feb1_again; press_jan1] "d1" _ shoulder_press press_feb1_again).
      - reflexivity.
      - apply elem_of_cons. by left.
      - apply elem_of_cons. by left.
      - exact Hholds.
      - intros s' w' Hin Hne _.
        apply elem_of_cons in Hin as [->|Hin]; [done|].
        apply list_elem_of_singleton in Hin as ->. exact Holder. }
    rewrite Hc in Hseed. vm_compute in Hseed. discriminate Hseed. }
  assert (Hseeded : ∀ fallow,
    seeded_weight (PROGRAM_days fallow) [press_feb1_again; press_jan1] "d1" "shoulder_press"
    = Some (Num (lit 40 0))) by (intros fallow; by vm_compute).
  refine (conj eq_refl (conj eq_refl (conj Holder (conj Hholds
            (conj (Hseeded _) (conj (Hseeded _) (conj _ _))))))).
  - apply Hrefute, Hseeded.
  - apply Hrefute, Hseeded.
Qed.

(** A weight that is [null], as an import of an exported infinite weight
    leaves it, counts as a weight for the test [weight !== ""] of the
    effect though the series counts it as none: the session that holds it
    hides the 40 of the older session and the empty string is seeded. *)
Example null_weight_hides_an_older_weight :
  let imported := session_on "2024-02-01" "d1" "2024-02-01T09:00:00.000Z" "shoulder_press" Null in
  seeded_weight GymProgramTracker.PROGRAM [press_jan1; imported] "d1" "shoulder_press"
  = Some (Str "") ∧
  seeded_weight App.PROGRAM [press_jan1; imported] "d1" "shoulder_press" = Some (Str "") ∧
  p_weight (@point_of ascii_builtins "shoulder_press" imported) = None.
Proof. split; [by vm_compute|split; by vm_compute]. Qed.

(** C4.  The series of an exercise has exactly one point per session that
    recorded an entry for it, carrying the date and day key of the
    session; the weight of the point is [null] exactly when the stored
    weight is the empty string, [null] or [undefined], and is the numeric
    reading of the stored weight otherwise; the series is in
    non-decreasing order of date; the series of an exercise that no
    session recorded is empty. *)
Theorem chartData_series `{Builtins} (sessions : Store) (exId : string) :
  chartData sessions exId ≡ₚ omap (λ s, series_point s <$> entry_of exId s) sessions ∧
  (∀ s e, p_weight (series_point s e) = None ↔
          weight e = Str "" ∨ weight e = Null ∨ weight e = Undefined) ∧
  (∀ s e, ¬ (weight e = Str "" ∨ weight e = Null ∨ weight e = Undefined) →
          p_weight (series_point s e) = Some (Number (weight e))) ∧
  StronglySorted date_le (chartData sessions exId) ∧
  ((∀ s, s ∈ sessions → entry_of exId s = None) → chartData sessions exId = []).
Proof.
  assert (Hperm : chartData sessions exId
                  ≡ₚ omap (λ s, series_point s <$> entry_of exId s) sessions).
  { unfold chartData. by rewrite Array_sort_perm, recording_sessions. }
  split; [exact Hperm|]. split; [|split; [|split]].
  - intros s e. unfold series_point. simpl.
    destruct (weight e) as [| |[|c t]|n]; split; try done; try by auto.
    all: intros [?|[?|?]]; done.
  - intros s e Hw. unfold series_point. simpl.
    destruct (weight e) as [| |[|c t]|n]; try done; exfalso; apply Hw; auto.
  - apply Sorted_StronglySorted; [apply date_le_trans|]. apply Array_sort_sorted.
  - intros Hnone. apply Permutation_nil_r. rewrite Hperm.
    clear Hperm. induction sessions as [|s sessions IH]; [done|].
    cbn [omap list_omap]. rewrite (Hnone s) by (by left).
    apply IH. intros s' Hs'. apply Hnone. by right.
Qed.

Lemma chartData_series_witness :
  @chartData ascii_builtins [press_feb1; press_jan1] "biceps_curl" = [] ∧
  p_weight (@series_point ascii_builtins press_jan1
              {| weight := Str "40"; reps := blank; sets := blank |})
  = Some (lit 40 0).
Proof.
  destruct (@chartData_series ascii_builtins [press_feb1; press_jan1] "biceps_curl")
    as (_ & _ & Hreading & _ & Hempty).
  split.
  - apply Hempty. intros s Hs.
    apply elem_of_cons in Hs as [->|Hs]; [reflexivity|].
    apply list_elem_of_singleton in Hs as ->. reflexivity.
  - rewrite Hreading; [reflexivity|]. simpl. intros [?|[?|?]]; discriminate.
Defined.

(** C5.  In the summary of a series, [last] is the last point with a
    numeric weight and [prev] the numeric point before it; [delta] is the
    difference of their weights put through [toFixed(2)] and read back as
    a number, which is the difference rounded to two decimal places: with
    [toFixed] as the language prescribes it, [delta] is the number read
    from the numeral, with two fraction digits, of the hundredth nearest
    to the difference (the one of larger magnitude when two are equally
    near), for a difference that is a zero or is below 10^21 in
    magnitude; [prev] and [delta] are absent when the series has fewer
    than two numeric points, [last] and [best] when it has none; [best]
    is the weight of a numeric point that no numeric weight exceeds. *)
Theorem lastTwo_summary `{Builtins} (pts : list Point) :
  (∀ before l after,
     pts = before ++ l :: after → numeric l → Forall (λ d, ¬ numeric d) after →
     last (lastTwo pts) = Some l) ∧
  (∀ before p mid l after wp wl,
     pts = before ++ p :: mid ++ l :: after →
     p_weight p = Some wp → p_weight l = Some wl → numeric p → numeric l →
     Forall (λ d, ¬ numeric d) mid → Forall (λ d, ¬ numeric d) after →
     prev (lastTwo pts) = Some p ∧
     delta (lastTwo pts) = Some (round2 (num_sub wl wp)) ∧
     (toFixed_rounds → rounded_to_hundredths (num_sub wl wp) (delta (lastTwo pts)))) ∧
  ((∀ i j a b, (i < j)%nat → pts !! i = Some a → pts !! j = Some b →
               ¬ (numeric a ∧ numeric b)) →
     prev (lastTwo pts) = None ∧ delta (lastTwo pts) = None) ∧
  (Forall (λ d, ¬ numeric d) pts →
     last (lastTwo pts) = None ∧ best (lastTwo pts) = None) ∧
  (∀ d, d ∈ pts → numeric d →
     ∃ b, best (lastTwo pts) = Some b ∧
          (∃ d', d' ∈ pts ∧ numeric d' ∧ p_weight d' = Some b) ∧
          ∀ d' n, d' ∈ pts → p_weight d' = Some n → Number_isNaN n = false →
                  num_le n b = true).
Proof.
  split; [|split; [|split; [|split]]].
  - intros before l after -> Hl Hafter.
    pose proof (filter_ends_with before after l Hl Hafter) as Hv.
    destruct (list_end_cases (List.filter is_valid before)) as [Hb|[[x Hb]|(r & p & x & Hb)]];
      rewrite Hb in Hv.
    + by rewrite (lastTwo_one _ l Hv).
    + by rewrite (lastTwo_two _ [] x l Hv).
    + assert (Hv' : List.filter is_valid (before ++ l :: after) = (r ++ [p]) ++ [x; l]).
      { rewrite Hv. by rewrite <- !app_assoc. }
      by rewrite (lastTwo_two _ (r ++ [p]) x l Hv').
  - intros before p mid l after wp wl -> Hwp Hwl Hp Hl Hmid Hafter.
    assert (Hv : List.filter is_valid (before ++ p :: mid ++ l :: after)
                 = List.filter is_valid before ++ [p; l]).
    { rewrite List.filter_app. f_equal. simpl.
      apply is_valid_iff in Hp. rewrite Hp. f_equal.
      rewrite (filter_ends_with mid after l Hl Hafter).
      by rewrite (filter_not_numeric mid Hmid). }
    rewrite (lastTwo_two _ _ p l Hv). simpl. split; [done|].
    unfold weight_number. rewrite Hwp, Hwl. split; [done|].
    intros [Hzero Hfinite]. unfold rounded_to_hundredths, round2. simpl.
    destruct (num_sub wl wp) as [sign| | |neg m e]; [by rewrite Hzero|done|done|].
    exists (scaled (Z.pos m) e 2). split; [apply scaled_nearest|].
    intros (k0 & Hk0 & Hlimit).
    by rewrite (Hfinite neg m e k0 _ Hk0 Hlimit (scaled_nearest m e 2)).
  - intros Hfew.
    destruct (list_end_cases (List.filter is_valid pts)) as [Hv|[[x Hv]|(r & p & x & Hv)]].
    + by rewrite (lastTwo_none _ Hv).
    + by rewrite (lastTwo_one _ x Hv).
    + exfalso. destruct r as [|y r].
      * destruct (two_numeric_positions pts p x [] Hv) as (i & j & Hij & Hi & Hj & Hp & Hx).
        by apply (Hfew i j p x Hij Hi Hj).
      * destruct r as [|z r].
        -- destruct (two_numeric_positions pts y p [x] Hv) as (i & j & Hij & Hi & Hj & Hy & Hp).
           by apply (Hfew i j y p Hij Hi Hj).
        -- destruct (two_numeric_positions pts y z (r ++ [p; x]) Hv)
             as (i & j & Hij & Hi & Hj & Hy & Hz).
           by apply (Hfew i j y z Hij Hi Hj).
  - intros Hnone. by rewrite (lastTwo_none _ (filter_not_numeric pts Hnone)).
  - intros d Hd Hnum. apply lastTwo_best. intros Hv.
    assert (Hin : d ∈ List.filter is_valid pts).
    { rewrite list_elem_of_In, filter_In, is_valid_iff, <- list_elem_of_In. done. }
    rewrite Hv in Hin. by apply elem_of_nil in Hin.
Qed.

(** The series of 40 on 2024-01-01 and 42.125 on 2024-01-08 has a delta
    of 2.13, the hundredth above the difference 2.125, and a best of
    42.125. *)
Lemma lastTwo_summary_witness :
  let pts := [point "2024-01-01" (Some (lit 40 0));
              point "2024-01-08" (Some (lit 337 (-3)))] in
  delta (@lastTwo ascii_builtins pts) = Some (of_decimal false 213 (-2)) ∧
  prev (@lastTwo ascii_builtins pts) = Some (point "2024-01-01" (Some (lit 40 0))) ∧
  last (@lastTwo ascii_builtins pts) = Some (point "2024-01-08" (Some (lit 337 (-3)))) ∧
  ∃ b, best (@lastTwo ascii_builtins pts) = Some b ∧ num_le (lit 40 0) b = true.
Proof.
  intros pts.
  destruct (@lastTwo_summary ascii_builtins pts) as (Hlast & Hprev & _ & _ & Hbest).
  assert (H40 : numeric (point "2024-01-01" (Some (lit 40 0))))
    by (eexists; split; reflexivity).
  assert (H42 : numeric (point "2024-01-08" (Some (lit 337 (-3)))))
    by (eexists; split; reflexivity).
  destruct (Hprev [] (point "2024-01-01" (Some (lit 40 0))) []
              (point "2024-01-08" (Some (lit 337 (-3)))) [] (lit 40 0) (lit 337 (-3)))
    as (Hp & _ & Hround);
    [reflexivity|reflexivity|reflexivity|exact H40|exact H42|constructor..|].
  split; [|split; [exact Hp|split]].
  - specialize (Hround ascii_toFixed_rounds).
    assert (num_sub (lit 337 (-3)) (lit 40 0) = S754_finite false 4785074604081152 (-51))
      as Hdiff by (by vm_compute).
    rewrite Hdiff in Hround. destruct Hround as (k & Hk & Hdelta).
    assert (k = 213) as ->.
    { apply (nearest_scaled_unique 4785074604081152 (-51) 2 k 213 Hk).
      split; by vm_compute. }
    rewrite Hdelta; [by vm_compute|].
    exists 2. split; [split; by vm_compute|by vm_compute].
  - apply (Hlast [point "2024-01-01" (Some (lit 40 0))] _ []); [done|exact H42|constructor].
  - destruct (Hbest (point "2024-01-01" (Some (lit 40 0)))) as (b & Hb & _ & Hmax).
    { by left. } { exact H40. }
    exists b. split; [exact Hb|].
    apply (Hmax (point "2024-01-01" (Some (lit 40 0)))); [by left|done|done].
Defined.

(** The cases of [clampNumber] as it is written.  It maps the empty
    string, [null] and [undefined], and every value whose numeric reading
    is NaN, to the empty string, not to zero; it maps every other value to its numeric reading; its result is
    never NaN.  [saveSession] is defined on every form whose day key is
    in the catalog, whatever its numeric fields hold, and stores the
    cardio minutes as the empty string or a number. *)
Theorem clampNumber_normalizes `{Builtins} (value : scalar) :
  (value = Str "" ∨ value = Null ∨ value = Undefined → clampNumber value = Str "") ∧
  (Number_isNaN (Number value) = true → clampNumber value = Str "") ∧
  (¬ (value = Str "" ∨ value = Null ∨ value = Undefined) →
   Number_isNaN (Number value) = false → clampNumber value = Num (Number value)) ∧
  stored (clampNumber value) ∧
  ∀ (days : list (string * Day)) (upsert : Session → Store → Store)
    (f : FormState) (rnd now : string) (prev : Store) (day : Day),
    lookup_day days (form_dayKey f) = Some day →
    ∃ p, saveSession days upsert f rnd now prev = Some (upsert p prev) ∧
         stored (minutes (cardio p)).
Proof.
  split; [apply clampNumber_empty|]. split; [apply clampNumber_unparseable|].
  split; [apply clampNumber_parseable|]. split; [apply clampNumber_stored|].
  intros days upsert f rnd now prev day Hday. exists (payload day f rnd now).
  unfold saveSession. rewrite Hday. split; [done|]. apply clean_stored.
Qed.

Lemma clampNumber_normalizes_witness :
  @clampNumber ascii_builtins (Str "") = Str "" ∧
  @clampNumber ascii_builtins (Str "eight") = Str "" ∧
  @clampNumber ascii_builtins (Str "42.5") = Num (lit 85 (-1)) ∧
  ∃ p, @saveSession ascii_builtins App.PROGRAM App.upsert press_form "1f"
         "2024-01-01T10:00:00.000Z" [] = Some (App.upsert p []) ∧
       stored (minutes (cardio p)).
Proof.
  split; [|split; [|split]].
  - destruct (@clampNumber_normalizes ascii_builtins (Str "")) as (Hempty & _).
    apply Hempty. by left.
  - destruct (@clampNumber_normalizes ascii_builtins (Str "eight")) as (_ & Hnan & _).
    apply Hnan. reflexivity.
  - destruct (@clampNumber_normalizes ascii_builtins (Str "42.5")) as (_ & _ & Hnum & _).
    rewrite Hnum; [by vm_compute| |reflexivity].
    intros [?|[?|?]]; discriminate.
  - destruct (@clampNumber_normalizes ascii_builtins (Str "")) as (_ & _ & _ & _ & Hsave).
    apply (Hsave App.PROGRAM App.upsert press_form "1f" "2024-01-01T10:00:00.000Z" []
             (default {| title := ""; day_cardio := {| cardio_type := ""; minutesDefault := Null |};
                         exercises := [] |} (lookup_day App.PROGRAM "d1"))).
    reflexivity.
Defined.

(** C6.  A numeric field that holds white space only is empty to the eye
    and is not stored as the empty string: [clampNumber], which tests for
    the empty string alone, reads it as 0, and [saveSession], in either
    component, stores 0 as the weight and as the cardio minutes. *)
Lemma white_space_is_saved_as_zero :
  @clampNumber ascii_builtins (Str "  ") = Num PosZero ∧
  ∃ p,
    @App.saveSession ascii_builtins spaces_form "1f" "2024-01-01T10:00:00.000Z" []
    = Some [p] ∧
    @GymProgramTracker.saveSession ascii_builtins spaces_form "1f" "2024-01-01T10:00:00.000Z" []
    = Some [p] ∧
    entry_of "shoulder_press" p
    = Some {| weight := Num PosZero; reps := Str ""; sets := Str "" |} ∧
    minutes (cardio p) = Num PosZero.
Proof.
  split; [by vm_compute|].
  eexists. split; [by vm_compute|]. split; [by vm_compute|]. split; by vm_compute.
Qed.

(** C10.  For a form whose day key is in the catalog, the session that
    [saveSession] hands to the upsert, and that the store then holds in
    either component, carries the date and day key of the form and an
    entries object whose keys are exactly the exercise ids of that day;
    each weight, reps and sets in it is the empty string or a number that
    is not NaN. *)
Theorem saveSession_entries `{Builtins} (days : list (string * Day))
    (upsert : Session → Store → Store) (f : FormState) (rnd now : string)
    (prev : Store) (day : Day) :
  lookup_day days (form_dayKey f) = Some day →
  ∃ p es,
    saveSession days upsert f rnd now prev = Some (upsert p prev) ∧
    p ∈ App.upsert p prev ∧ p ∈ GymProgramTracker.upsert p prev ∧
    date p = form_date f ∧ dayKey p = form_dayKey f ∧
    entries p = Some es ∧
    (∀ k, is_Some (es !! k) ↔ k ∈ ex_id <$> exercises day) ∧
    (∀ k e, es !! k = Some e → stored (weight e) ∧ stored (reps e) ∧ stored (sets e)).
Proof.
  intros Hday.
  exists (payload day f rnd now), (cleanEntries day (form_entries f)).
  split; [unfold saveSession; by rewrite Hday|].
  split; [apply app_upsert_holds|]. split; [apply tracker_upsert_holds|].
  split; [done|]. split; [done|]. split; [done|].
  split; [apply cleanEntries_keys|apply cleanEntries_stored].
Qed.

Lemma saveSession_entries_witness :
  ∃ p es,
    @saveSession ascii_builtins GymProgramTracker.PROGRAM GymProgramTracker.upsert
      press_form "1f" "2024-01-01T10:00:00.000Z" [press_jan1]
    = Some (GymProgramTracker.upsert p [press_jan1]) ∧
    entries p = Some es ∧
    is_Some (es !! "shoulder_press") ∧
    ¬ is_Some (es !! "goblet_squat").
Proof.
  destruct (@saveSession_entries ascii_builtins GymProgramTracker.PROGRAM
              GymProgramTracker.upsert press_form "1f" "2024-01-01T10:00:00.000Z"
              [press_jan1] _ eq_refl)
    as (p & es & Hsave & _ & _ & _ & _ & Hes & Hkeys & _).
  exists p, es. split; [exact Hsave|]. split; [exact Hes|]. split.
  - apply Hkeys. by left.
  - intros Hin%Hkeys. vm_compute in Hin.
    repeat (apply elem_of_cons in Hin as [Hin|Hin]; [discriminate Hin|]).
    by apply elem_of_nil in Hin.
Defined.

(** C7.  Import reports a failure and leaves the store as it was when the
    text does not parse, and when what it parses to is not an object
    whose [sessions] field is an array; otherwise it reports completion
    and the store becomes that array, whatever it held before. *)
Theorem import_outcome (t : text) (sessions : list value) :
  (∀ error, t = Malformed error →
     importDataFromFile t sessions = ("Import failed: " +:+ error, sessions)) ∧
  (∀ data, t = Document data →
     (∀ props imported, data = VObject props → ¬ field props "sessions" (VArray imported)) →
     importDataFromFile t sessions
     = ("Import failed: expected { sessions: [...] }", sessions)) ∧
  (∀ props imported, t = Document (VObject props) →
     field props "sessions" (VArray imported) →
     importDataFromFile t sessions = ("Import complete.", imported)).
Proof.
  split; [by intros error ->|]. split.
  - intros data -> Hshape. unfold importDataFromFile. simpl.
    destruct (truthy data) eqn:Htruthy; [simpl|done].
    destruct (get_prop data "sessions") as [| | | | |imported|] eqn:Hget; try done.
    destruct data as [| | | | | |props]; try done.
    exfalso. apply (Hshape props imported eq_refl).
    by apply get_prop_defined.
  - intros props imported -> Hfield. unfold importDataFromFile. simpl safeParseJSON.
    cbn [truthy negb orb]. by rewrite (get_prop_field props "sessions" _ Hfield).
Qed.

Lemma import_outcome_witness :
  importDataFromFile (Malformed "SyntaxError: Unexpected end of JSON input")
    [session_value press_jan1]
  = ("Import failed: SyntaxError: Unexpected end of JSON input", [session_value press_jan1]) ∧
  importDataFromFile (Document (VObject [("sessions", VStr "none")]))
    [session_value press_jan1]
  = ("Import failed: expected { sessions: [...] }", [session_value press_jan1]) ∧
  importDataFromFile (Document (VObject [("sessions", VArray [session_value press_feb1])]))
    [session_value press_jan1]
  = ("Import complete.", [session_value press_feb1]).
Proof.
  split; [|split].
  - by apply (import_outcome (Malformed "SyntaxError: Unexpected end of JSON input")).
  - destruct (import_outcome (Document (VObject [("sessions", VStr "none")]))
                [session_value press_jan1]) as (_ & Hshape & _).
    apply (Hshape _ eq_refl). intros props imported [= <-] Hfield.
    apply get_prop_field in Hfield. discriminate Hfield.
  - destruct (import_outcome
                (Document (VObject [("sessions", VArray [session_value press_feb1])]))
                [session_value press_jan1]) as (_ & _ & Hok).
    apply (Hok _ _ eq_refl). exists [], []. split; [done|]. intros kv Hkv.
    by apply elem_of_nil in Hkv.
Defined.

(** C9.  For a store whose values [JSON.stringify] can write (no
    [undefined], every number finite and not the negative zero), the text
    that export writes is imported as that same store, in place of
    whatever the store held. *)
Theorem export_import_round_trip (sessions before : list value) :
  Forall (λ v, representable v = true) sessions →
  ∃ t, exportData sessions = Some t ∧
       importDataFromFile t before = ("Import complete.", sessions).
Proof.
  intros Hrep. exists (Document (VObject [("sessions", VArray sessions)])).
  split; [|done].
  unfold exportData, JSON_stringify. simpl. by rewrite (serialize_items sessions Hrep).
Qed.

Lemma export_import_round_trip_witness :
  ∃ t, exportData [session_value press_jan1; session_value press_feb1] = Some t ∧
       importDataFromFile t []
       = ("Import complete.", [session_value press_jan1; session_value press_feb1]).
Proof.
  apply export_import_round_trip.
  repeat constructor.
Defined.

(** A weight typed as Infinity is saved as a number, written as [null] by
    export, and read back as [null]. *)
Lemma infinite_weight_is_not_read_back :
  ∃ store sessions t,
    @GymProgramTracker.saveSession ascii_builtins infinite_form "1f"
      "2024-01-01T10:00:00.000Z" [] = Some store ∧
    sessions = session_value <$> store ∧
    exportData sessions = Some t ∧
    snd (importDataFromFile t []) ≠ sessions ∧
    ¬ round_trip.
Proof.
  eexists _, _, _. split; [by vm_compute|]. split; [by vm_compute|].
  split; [by vm_compute|].
  assert (Hdiffer : ∀ before,
    snd (importDataFromFile
      (default (Malformed "")
         (exportData (session_value <$> default []
            (@GymProgramTracker.saveSession ascii_builtins infinite_form "1f"
               "2024-01-01T10:00:00.000Z" [])))) before)
    ≠ session_value <$> default []
        (@GymProgramTracker.saveSession ascii_builtins infinite_form "1f"
           "2024-01-01T10:00:00.000Z" [])).
  { intros before Heq. vm_compute in Heq. congruence. }
  split; [apply (Hdiffer [])|].
  intros Hround.
  destruct (Hround (session_value <$> default []
              (@GymProgramTracker.saveSession ascii_builtins infinite_form "1f"
                 "2024-01-01T10:00:00.000Z" [])) []) as (t & Ht & Himport).
  apply (Hdiffer []). vm_compute in Ht. injection Ht as <-. exact Himport.
Qed.

(** ** The rest of the components *)

(** *** Deleting a session *)

Lemma deleteSession_elem (id : string) (store : Store) (s : Session) :
  s ∈ deleteSession id store ↔ s ∈ store ∧ session_id s ≠ id.
Proof.
  unfold deleteSession. rewrite !list_elem_of_In, filter_In, negb_true_iff.
  by rewrite String.eqb_neq.
Qed.

Lemma deleteSession_sublist (id : string) (store : Store) :
  deleteSession id store `sublist_of` store.
Proof.
  unfold deleteSession. induction store as [|x store IH]; simpl; [constructor|].
  destruct (negb (String.eqb (session_id x) id)); by constructor.
Qed.

Lemma deleteSession_absent (id : string) (store : Store) :
  (∀ y, y ∈ store → session_id y ≠ id) → deleteSession id store = store.
Proof.
  unfold deleteSession. induction store as [|x store IH]; intros Hall; simpl; [done|].
  destruct (String.eqb_spec (session_id x) id) as [Heq|_]; simpl.
  - destruct (Hall x); [by left|done].
  - f_equal. apply IH. intros y Hy. apply Hall. by right.
Qed.

Lemma deleteSession_app (id : string) (l1 l2 : Store) :
  deleteSession id (l1 ++ l2) = deleteSession id l1 ++ deleteSession id l2.
Proof. apply List.filter_app. Qed.

Lemma deleteSession_set_index (p : Session) (store : Store) (i : nat) :
  (i < length store)%nat → (∀ y, y ∈ store → session_id y ≠ session_id p) →
  deleteSession (session_id p) (set_index store (Z.of_nat i) p) = delete i store.
Proof.
  intros Hi Hids. unfold set_index. rewrite Nat2Z.id.
  rewrite insert_take_drop, delete_take_drop by done.
  change (take i store ++ p :: drop (S i) store)
    with (take i store ++ [p] ++ drop (S i) store).
  rewrite !deleteSession_app.
  rewrite (deleteSession_absent _ (take i store)), (deleteSession_absent _ (drop (S i) store)).
  - unfold deleteSession at 1. simpl. by rewrite String.eqb_refl.
  - intros y Hy. apply Hids. by apply (sublist_subseteq _ _ (sublist_drop store (S i))).
  - intros y Hy. apply Hids. by apply (sublist_subseteq _ _ (sublist_take store i)).
Qed.

Lemma deleteSession_append (p : Session) (store : Store) :
  (∀ y, y ∈ store → session_id y ≠ session_id p) →
  deleteSession (session_id p) (store ++ [p]) = store.
Proof.
  intros Hids. rewrite deleteSession_app, (deleteSession_absent _ store Hids).
  unfold deleteSession. simpl. by rewrite String.eqb_refl, app_nil_r.
Qed.

(** *** What an upsert keeps *)

Lemma set_index_keeps (store : Store) (idx : Z) (p x s : Session) :
  store !! Z.to_nat idx = Some x → s ∈ store → s ≠ x → s ∈ set_index store idx p.
Proof.
  intros Hx Hs Hne. apply list_elem_of_lookup in Hs as [j Hj].
  apply (list_elem_of_lookup_2 _ j). unfold set_index.
  rewrite list_lookup_insert_ne; [done|]. intros Heq. rewrite <- Heq in Hj. congruence.
Qed.

Lemma set_index_elem (store : Store) (idx : Z) (p s : Session) :
  s ∈ set_index store idx p → s = p ∨ ∃ j, j ≠ Z.to_nat idx ∧ store !! j = Some s.
Proof.
  unfold set_index. intros [j Hj]%list_elem_of_lookup.
  destruct (decide (j = Z.to_nat idx)) as [->|Hne].
  - left. apply lookup_lt_Some in Hj as Hlen. rewrite length_insert in Hlen.
    rewrite list_lookup_insert_eq in Hj by done. congruence.
  - right. exists j. by rewrite list_lookup_insert_ne in Hj.
Qed.

Lemma tracker_upsert_keeps (p s : Session) (store : Store) :
  s ∈ store → date s ≠ date p → s ∈ GymProgramTracker.upsert p store.
Proof.
  intros Hs Hdate. unfold GymProgramTracker.upsert.
  destruct (Z.geb_spec (findIndex (same_date_and_day p) store) 0) as [Hboth|_].
  { destruct (findIndex_found _ _ Hboth) as (x & Hx & [Hd _]%same_date_and_day_iff).
    apply (set_index_keeps _ _ _ x); [done..|]. intros ->. done. }
  destruct (Z.geb_spec (findIndex (same_date p) store) 0) as [Hd|_].
  { destruct (findIndex_found _ _ Hd) as (x & Hx & Hdx%same_date_iff).
    apply (set_index_keeps _ _ _ x); [done..|]. intros ->. done. }
  apply elem_of_app. by left.
Qed.

Lemma app_upsert_keeps (p s : Session) (store : Store) :
  s ∈ store → ¬ matches_both p s → s ∈ App.upsert p store.
Proof.
  intros Hs Hnot. unfold App.upsert.
  destruct (Z.geb_spec (findIndex (same_date_and_day p) store) 0) as [Hboth|_].
  { destruct (findIndex_found _ _ Hboth) as (x & Hx & Hm%same_date_and_day_iff).
    apply (set_index_keeps _ _ _ x); [done..|]. intros ->. done. }
  apply elem_of_app. by left.
Qed.

Lemma tracker_upsert_length (p : Session) (store : Store) :
  (length store ≤ length (GymProgramTracker.upsert p store) ≤ S (length store))%nat.
Proof.
  unfold GymProgramTracker.upsert, set_index.
  repeat (destruct (_ >=? 0)); rewrite ?length_insert, ?length_app; simpl; lia.
Qed.

Lemma app_upsert_length (p : Session) (store : Store) :
  (length store ≤ length (App.upsert p store) ≤ S (length store))%nat.
Proof.
  unfold App.upsert, set_index.
  repeat (destruct (_ >=? 0)); rewrite ?length_insert, ?length_app; simpl; lia.
Qed.

(** Under distinct dates, what the store holds after an upsert. *)
Lemma tracker_upsert_elem (p s : Session) (store : Store) :
  unique_dates store →
  s ∈ GymProgramTracker.upsert p store ↔ s = p ∨ (s ∈ store ∧ date s ≠ date p).
Proof.
  intros Hunique. split.
  - unfold GymProgramTracker.upsert.
    assert (Hreplaced : ∀ idx x, store !! Z.to_nat idx = Some x → date x = date p →
              s ∈ set_index store idx p → s = p ∨ s ∈ store ∧ date s ≠ date p).
    { intros idx x Hx Hd [->|(j & Hj & Hs)]%set_index_elem; [by left|]. right.
      split; [by apply (list_elem_of_lookup_2 _ j)|]. intros Heq. apply Hj.
      apply (NoDup_lookup (date <$> store) j (Z.to_nat idx) (date p)); [done|..].
      - by rewrite list_lookup_fmap, Hs; simpl; rewrite Heq.
      - by rewrite list_lookup_fmap, Hx; simpl; rewrite Hd. }
    destruct (Z.geb_spec (findIndex (same_date_and_day p) store) 0) as [Hboth|_].
    { destruct (findIndex_found _ _ Hboth) as (x & Hx & [Hd _]%same_date_and_day_iff).
      by apply (Hreplaced _ x). }
    destruct (Z.geb_spec (findIndex (same_date p) store) 0) as [Hd|Hd].
    { destruct (findIndex_found _ _ Hd) as (x & Hx & Hdx%same_date_iff).
      by apply (Hreplaced _ x). }
    intros [Hs|Hs]%elem_of_app.
    + right. split; [done|]. intros Heq.
      pose proof (findIndex_missing _ _ s Hd Hs) as Hfalse.
      apply (proj2 (same_date_iff p s)) in Heq. congruence.
    + left. by apply list_elem_of_singleton in Hs.
  - intros [->|[Hs Hd]]; [apply tracker_upsert_holds|by apply tracker_upsert_keeps].
Qed.

(** *** The index of the calendar *)

Lemma sessionsByDate_snoc (store : Store) (s : Session) :
  sessionsByDate (store ++ [s]) = <[date s := s]> (sessionsByDate store).
Proof. unfold sessionsByDate. by rewrite foldl_app. Qed.

Lemma sessionsByDate_last (store : Store) (d : string) :
  match sessionsByDate store !! d with
  | Some s => ∃ i, store !! i = Some s ∧ date s = d ∧
                   ∀ j y, (i < j)%nat → store !! j = Some y → date y ≠ d
  | None => ∀ y, y ∈ store → date y ≠ d
  end.
Proof.
  induction store as [|x store IH] using rev_ind.
  { unfold sessionsByDate. simpl. rewrite lookup_empty. by intros y ?%elem_of_nil. }
  rewrite sessionsByDate_snoc. destruct (decide (date x = d)) as [Hd|Hd].
  - rewrite <- Hd, lookup_insert_eq. exists (length store).
    split; [by rewrite lookup_app_r, Nat.sub_diag by lia|]. split; [done|].
    intros j y Hj Hy. apply lookup_lt_Some in Hy. rewrite length_app in Hy. simpl in Hy. lia.
  - rewrite lookup_insert_ne by done.
    destruct (sessionsByDate store !! d) as [s|].
    + destruct IH as (i & Hi & Hs & Hlater). exists i.
      split; [by apply lookup_app_l_Some|]. split; [done|].
      intros j y Hj Hy. apply lookup_app_Some in Hy as [Hy|[_ Hy]]; [by apply (Hlater j)|].
      destruct (j - length store)%nat; [|done]. by injection Hy as <-.
    + intros y [Hy|Hy]%elem_of_app; [by apply IH|].
      by apply list_elem_of_singleton in Hy as ->.
Qed.

Lemma sessionsByDate_unique (store : Store) (d : string) (s : Session) :
  unique_dates store →
  sessionsByDate store !! d = Some s ↔ s ∈ store ∧ date s = d.
Proof.
  intros Hunique. pose proof (sessionsByDate_last store d) as Hlast. split.
  - intros Hs. rewrite Hs in Hlast. destruct Hlast as (i & Hi & Hd & _).
    split; [by apply (list_elem_of_lookup_2 _ i)|done].
  - intros [[j Hj]%list_elem_of_lookup Hd].
    destruct (sessionsByDate store !! d) as [x|].
    + destruct Hlast as (i & Hi & Hdx & _). f_equal.
      assert (i = j) as ->; [|congruence].
      apply (NoDup_lookup (date <$> store) i j d); [done|..].
      * by rewrite list_lookup_fmap, Hi; simpl; rewrite Hdx.
      * by rewrite list_lookup_fmap, Hj; simpl; rewrite Hd.
    + destruct (Hlast s); [by apply (list_elem_of_lookup_2 _ j)|done].
Qed.

Lemma deleteSession_keys {K} (key : Session → K) (id : string) (store : Store) :
  NoDup (key <$> store) → NoDup (key <$> deleteSession id store).
Proof.
  intros Hnodup. apply (sublist_NoDup _ (key <$> store)); [done|].
  apply fmap_sublist, deleteSession_sublist.
Qed.

(** X1.  [deleteSession] removes every session of the given id and keeps
    the others in their order; a store with one session per date, or per
    date and day key, stays so. *)
Theorem deleteSession_removes (id : string) (store : Store) :
  (∀ s, s ∈ deleteSession id store ↔ s ∈ store ∧ session_id s ≠ id) ∧
  deleteSession id store `sublist_of` store ∧
  (unique_dates store → unique_dates (deleteSession id store)) ∧
  (unique_date_days store → unique_date_days (deleteSession id store)).
Proof.
  split; [intros s; apply deleteSession_elem|]. split; [apply deleteSession_sublist|].
  split; apply deleteSession_keys.
Qed.

Lemma deleteSession_removes_witness :
  unique_dates (deleteSession "2024-01-01-d1-1f" [press_jan1; press_feb1]) ∧
  unique_date_days (deleteSession "2024-01-01-d1-1f" [press_jan1; squat_jan1]).
Proof.
  split.
  - destruct (deleteSession_removes "2024-01-01-d1-1f" [press_jan1; press_feb1])
      as (_ & _ & Hdates & _).
    apply Hdates. apply (bool_decide_unpack _). by vm_compute.
  - destruct (deleteSession_removes "2024-01-01-d1-1f" [press_jan1; squat_jan1])
      as (_ & _ & _ & Hpairs).
    apply Hpairs. apply (bool_decide_unpack _). by vm_compute.
Defined.

(** X2.  Saving a session whose id no stored session has, and deleting it
    by its id: when the save appended it, the store is back as it was;
    when the save replaced a session, that session is not restored, the
    store is the old one without it. *)
Theorem delete_after_save (p : Session) (store : Store) :
  (∀ y, y ∈ store → session_id y ≠ session_id p) →
  ((∀ y, y ∈ store → ¬ matches_date p y) →
     deleteSession (session_id p) (GymProgramTracker.upsert p store) = store) ∧
  ((∀ y, y ∈ store → ¬ matches_both p y) →
     deleteSession (session_id p) (App.upsert p store) = store) ∧
  (∀ i, first_at (matches_both p) store i →
     deleteSession (session_id p) (GymProgramTracker.upsert p store) = delete i store ∧
     deleteSession (session_id p) (App.upsert p store) = delete i store) ∧
  (∀ i, (∀ y, y ∈ store → ¬ matches_both p y) → first_at (matches_date p) store i →
     deleteSession (session_id p) (GymProgramTracker.upsert p store) = delete i store).
Proof.
  intros Hids. split; [|split; [|split]].
  - intros Hfresh. rewrite (tracker_upsert_fresh p store Hfresh).
    by apply deleteSession_append.
  - intros Hfresh. rewrite (app_upsert_fresh p store Hfresh).
    by apply deleteSession_append.
  - intros i Hi. rewrite (tracker_upsert_both p store i Hi), (app_upsert_both p store i Hi).
    split; apply deleteSession_set_index; try done; apply (first_at_in_range _ _ _ Hi).
  - intros i Hnone Hi. rewrite (tracker_upsert_date p store i Hnone Hi).
    apply deleteSession_set_index; [apply (first_at_in_range _ _ _ Hi)|done].
Qed.

Lemma delete_after_save_witness :
  deleteSession (session_id squat_jan1) (GymProgramTracker.upsert squat_jan1 [press_jan1]) = [] ∧
  deleteSession (session_id squat_jan1) (App.upsert squat_jan1 [press_jan1]) = [press_jan1].
Proof.
  assert (Hids : ∀ y, y ∈ [press_jan1] → session_id y ≠ session_id squat_jan1).
  { intros y Hy%list_elem_of_singleton. subst y. discriminate. }
  assert (Hnone : ∀ y, y ∈ [press_jan1] → ¬ matches_both squat_jan1 y).
  { intros y Hy%list_elem_of_singleton [_ Hk]. subst y. discriminate Hk. }
  destruct (delete_after_save squat_jan1 [press_jan1] Hids) as (_ & Happ & _ & Hdate).
  split.
  - apply (Hdate 0%nat Hnone). split; [by exists press_jan1|]. intros j y Hj. lia.
  - apply Happ, Hnone.
Defined.

(** X3.  An upsert keeps every session of another date (in [src/App.jsx]:
    of another date or day key), holds the saved session, and changes the
    length of the store by at most one. *)
Theorem upsert_keeps_other_sessions (p : Session) (store : Store) :
  (∀ s, s ∈ store → date s ≠ date p → s ∈ GymProgramTracker.upsert p store) ∧
  (∀ s, s ∈ store → ¬ matches_both p s → s ∈ App.upsert p store) ∧
  p ∈ GymProgramTracker.upsert p store ∧ p ∈ App.upsert p store ∧
  (length store ≤ length (GymProgramTracker.upsert p store) ≤ S (length store))%nat ∧
  (length store ≤ length (App.upsert p store) ≤ S (length store))%nat.
Proof.
  split; [intros s; apply tracker_upsert_keeps|].
  split; [intros s; apply app_upsert_keeps|].
  split; [apply tracker_upsert_holds|]. split; [apply app_upsert_holds|].
  split; [apply tracker_upsert_length|apply app_upsert_length].
Qed.

Lemma upsert_keeps_other_sessions_witness :
  press_jan1 ∈ GymProgramTracker.upsert press_feb1_again [press_feb1; press_jan1] ∧
  press_jan1 ∈ App.upsert squat_jan1 [press_jan1].
Proof.
  split.
  - destruct (upsert_keeps_other_sessions press_feb1_again [press_feb1; press_jan1])
      as (Hkeeps & _).
    apply Hkeeps.
    + apply elem_of_cons. right. by left.
    + intros Hd. discriminate Hd.
  - destruct (upsert_keeps_other_sessions squat_jan1 [press_jan1]) as (_ & Hkeeps & _).
    apply Hkeeps.
    + by left.
    + intros [_ Hk]. discriminate Hk.
Defined.

(** X4.  The index of the calendar gives, for a date, the last session of
    the store with that date, and nothing exactly when no session has it;
    in a store with one session per date it gives every session under
    its date. *)
Theorem sessionsByDate_lookup (store : Store) (d : string) :
  (∀ i s, store !! i = Some s → date s = d →
     (∀ j y, (i < j)%nat → store !! j = Some y → date y ≠ d) →
     sessionsByDate store !! d = Some s) ∧
  (sessionsByDate store !! d = None ↔ ∀ y, y ∈ store → date y ≠ d) ∧
  (unique_dates store → ∀ s, s ∈ store → date s = d → sessionsByDate store !! d = Some s).
Proof.
  pose proof (sessionsByDate_last store d) as Hlast. split; [|split].
  - intros i s Hi Hd Hlater. destruct (sessionsByDate store !! d) as [x|].
    + destruct Hlast as (k & Hk & Hdx & Hafter). f_equal.
      destruct (Nat.lt_trichotomy i k) as [Hlt|[->|Hgt]]; [|congruence|].
      * by destruct (Hlater k x Hlt Hk).
      * by destruct (Hafter i s Hgt Hi).
    + destruct (Hlast s); [by apply (list_elem_of_lookup_2 _ i)|done].
  - split.
    + intros Hnone. by rewrite Hnone in Hlast.
    + intros Hnone. destruct (sessionsByDate store !! d) as [x|]; [|done].
      destruct Hlast as (k & Hk & Hdx & _).
      destruct (Hnone x); [by apply (list_elem_of_lookup_2 _ k)|done].
  - intros Hunique s Hs Hd. by apply sessionsByDate_unique.
Qed.

Lemma sessionsByDate_lookup_witness :
  sessionsByDate [press_jan1; squat_jan1] !! "2024-01-01" = Some squat_jan1 ∧
  sessionsByDate [press_jan1; press_feb1] !! "2024-01-01" = Some press_jan1.
Proof.
  split.
  - destruct (sessionsByDate_lookup [press_jan1; squat_jan1] "2024-01-01") as (Hlast & _).
    apply (Hlast 1%nat); [reflexivity|reflexivity|].
    intros [|[|j]] y Hj Hy; [lia|lia|discriminate Hy].
  - destruct (sessionsByDate_lookup [press_jan1; press_feb1] "2024-01-01")
      as (_ & _ & Hunique).
    apply Hunique.
    + apply (bool_decide_unpack _). by vm_compute.
    + by left.
    + reflexivity.
Defined.

(** X5.  In the calendar version, on a store with one session per date, a
    save rebinds the date of the saved session in the index of the
    calendar and leaves every other date as it was. *)
Theorem sessionsByDate_upsert (p : Session) (store : Store) :
  unique_dates store →
  sessionsByDate (GymProgramTracker.upsert p store) = <[date p := p]> (sessionsByDate store).
Proof.
  intros Hunique. apply map_eq. intros d. apply option_eq. intros s.
  rewrite (sessionsByDate_unique _ d s (tracker_upsert_unique_dates p store Hunique)).
  rewrite (tracker_upsert_elem p s store Hunique).
  destruct (decide (date p = d)) as [<-|Hne].
  - rewrite lookup_insert_eq. split.
    + intros [[->|[_ Hd]] Hdate]; [done|congruence].
    + intros [= ->]. split; [by left|done].
  - rewrite lookup_insert_ne by done. rewrite (sessionsByDate_unique _ d s Hunique). split.
    + intros [[->|[Hs _]] Hd]; [done|by split].
    + intros [Hs Hd]. split; [|done]. right. split; [done|congruence].
Qed.

Lemma sessionsByDate_upsert_witness :
  sessionsByDate (GymProgramTracker.upsert squat_jan1 [press_jan1; press_feb1])
  = <["2024-01-01" := squat_jan1]> (sessionsByDate [press_jan1; press_feb1]).
Proof.
  apply (sessionsByDate_upsert squat_jan1 [press_jan1; press_feb1]).
  apply (bool_decide_unpack _). by vm_compute.
Defined.

(** *** Objects built by a loop, continued *)

Lemma built_ext (g g' : Exercise → Entry) (exs : list Exercise) :
  (∀ ex, ex ∈ exs → g ex = g' ex) → built g ∅ exs = built g' ∅ exs.
Proof.
  induction exs as [|x exs IH] using rev_ind; intros Hext; [done|].
  rewrite !built_snoc, IH, (Hext x); [done|..].
  - apply elem_of_app. right. by left.
  - intros ex Hex. apply Hext, elem_of_app. by left.
Qed.

Lemma built_lookup_by_id (g : Exercise → Entry) (exs : list Exercise) (ex : Exercise) :
  (∀ a b, ex_id a = ex_id b → g a = g b) →
  ex ∈ exs → built g ∅ exs !! ex_id ex = Some (g ex).
Proof.
  intros Hid Hex.
  destruct (proj2 (built_keys g exs (ex_id ex))) as [e He].
  { by apply list_elem_of_fmap_2. }
  rewrite He. apply built_values in He as (ex' & _ & Hsame & ->).
  f_equal. by apply Hid.
Qed.

Lemma built_lookup_absent (g : Exercise → Entry) (exs : list Exercise) (k : string) :
  k ∉ ex_id <$> exs → built g ∅ exs !! k = None.
Proof.
  intros Hk. destruct (built g ∅ exs !! k) as [e|] eqn:He; [|done].
  destruct Hk. apply (built_keys g). by eexists.
Qed.

(** *** Values already normalised *)

Section Resave.
Context `{Builtins}.

Lemma clean_of_stored (v : scalar) : stored v → clean v = v.
Proof.
  intros [->|(n & -> & Hn)]; [done|].
  unfold clean, clampNumber. simpl. by rewrite Hn.
Qed.

Lemma clean_twice (v : scalar) : clean (clean v) = clean v.
Proof. apply clean_of_stored, clean_stored. Qed.

Lemma cleanEntry_twice (e : Entry) : cleanEntry (cleanEntry e) = cleanEntry e.
Proof. unfold cleanEntry. simpl. by rewrite !clean_twice. Qed.

Lemma nullish_of_stored (v d : scalar) : stored v → nullish v d = v.
Proof. by intros [->|(n & -> & _)]. Qed.

Lemma shown_cleanEntry (e : Entry) : shown (cleanEntry e) = cleanEntry e.
Proof.
  unfold shown, cleanEntry. simpl.
  by rewrite !nullish_of_stored by apply clean_stored.
Qed.

Lemma cleanEntries_lookup (day : Day) (entries : gmap string Entry) (ex : Exercise) :
  ex ∈ exercises day →
  cleanEntries day entries !! ex_id ex
  = Some (cleanEntry (default no_entry (entries !! ex_id ex))).
Proof.
  intros Hex.
  apply (built_lookup_by_id (λ ex, cleanEntry (default no_entry (entries !! ex_id ex))));
    [|done].
  by intros a b ->.
Qed.

Lemma cleanEntries_twice (day : Day) (entries : gmap string Entry) :
  cleanEntries day (cleanEntries day entries) = cleanEntries day entries.
Proof.
  apply (built_ext (λ ex, cleanEntry (default no_entry (cleanEntries day entries !! ex_id ex)))
                   (λ ex, cleanEntry (default no_entry (entries !! ex_id ex)))).
  intros ex Hex. rewrite (cleanEntries_lookup day entries ex Hex). simpl.
  apply cleanEntry_twice.
Qed.
End Resave.

(** *** A click on a day of the calendar *)

Lemma sessionsByDate_saved (p : Session) (store : Store) :
  unique_dates store →
  sessionsByDate (GymProgramTracker.upsert p store) !! date p = Some p.
Proof.
  intros Hunique.
  apply (sessionsByDate_unique _ (date p) p (tracker_upsert_unique_dates p store Hunique)).
  split; [apply tracker_upsert_holds|done].
Qed.

Lemma sessionsByDate_at_last (store : Store) (d : string) (i : nat) (s : Session) :
  store !! i = Some s → date s = d →
  (∀ j y, (i < j)%nat → store !! j = Some y → date y ≠ d) →
  sessionsByDate store !! d = Some s.
Proof.
  intros Hi Hd Hlater. pose proof (sessionsByDate_last store d) as Hlast.
  destruct (sessionsByDate store !! d) as [x|].
  - destruct Hlast as (k & Hk & Hdx & Hafter). f_equal.
    destruct (Nat.lt_trichotomy i k) as [Hlt|[->|Hgt]]; [|congruence|].
    + by destruct (Hlater k x Hlt Hk).
    + by destruct (Hafter i s Hgt Hi).
  - destruct (Hlast s); [by apply (list_elem_of_lookup_2 _ i)|done].
Qed.

Lemma sessionsByDate_none (store : Store) (d : string) :
  (∀ y, y ∈ store → date y ≠ d) → sessionsByDate store !! d = None.
Proof.
  intros Hnone. pose proof (sessionsByDate_last store d) as Hlast.
  destruct (sessionsByDate store !! d) as [x|]; [|done].
  destruct Hlast as (k & Hk & Hdx & _).
  destruct (Hnone x); [by apply (list_elem_of_lookup_2 _ k)|done].
Qed.

Lemma loaded_entries `{Builtins} (day : Day) (f : FormState) (rnd now : string) :
  foldl (λ filled ex,
           <[ex_id ex := shown (default no_entry
                                  (entry_of (ex_id ex) (payload day f rnd now)))]> filled)
        ∅ (exercises day)
  = cleanEntries day (form_entries f).
Proof.
  apply (built_ext
           (λ ex, shown (default no_entry (entry_of (ex_id ex) (payload day f rnd now))))
           (λ ex, cleanEntry (default no_entry (form_entries f !! ex_id ex)))).
  intros ex Hex. unfold entry_of. simpl.
  rewrite (cleanEntries_lookup day (form_entries f) ex Hex). simpl.
  apply shown_cleanEntry.
Qed.

Lemma resave_same `{Builtins} (day : Day) (f f' : FormState) (rnd now rnd' now' : string) :
  form_date f' = form_date f → form_dayKey f' = form_dayKey f →
  cardioMinutes f' = clean (cardioMinutes f) →
  form_entries f' = cleanEntries day (form_entries f) →
  let p := payload day f rnd now in
  let p' := payload day f' rnd' now' in
  date p' = date p ∧ dayKey p' = dayKey p ∧ dayName p' = dayName p ∧
  cardio p' = cardio p ∧ entries p' = entries p.
Proof.
  intros Hd Hk Hc He. unfold payload. simpl.
  by rewrite Hd, Hk, Hc, He, clean_twice, cleanEntries_twice.
Qed.

Lemma nullish_filled (v d : scalar) :
  d ≠ Undefined → d ≠ Null → nullish v d ≠ Undefined ∧ nullish v d ≠ Null.
Proof. by destruct v. Qed.

Lemma shown_filled (e : Entry) : filled (shown e).
Proof.
  intros v Hv. unfold shown in Hv. simpl in Hv.
  repeat (apply elem_of_cons in Hv as [->|Hv]; [by apply nullish_filled|]).
  by apply elem_of_nil in Hv.
Qed.

Lemma seedEntry_filled (sessions : Store) (ex : Exercise) :
  filled (seedEntry sessions ex) ∧
  reps (seedEntry sessions ex) = Str "" ∧ sets (seedEntry sessions ex) = Str "".
Proof.
  split; [|done]. intros v Hv. unfold seedEntry in Hv. simpl in Hv.
  apply elem_of_cons in Hv as [->|Hv]; [by apply nullish_filled|].
  repeat (apply elem_of_cons in Hv as [->|Hv]; [done|]).
  by apply elem_of_nil in Hv.
Qed.

(** The form after a click on a date whose last session in the store is
    [s], of a day [day] of the catalog. *)
Lemma onPickDate_found (days : list (string * Day)) (sessions : Store) (iso : string)
    (f : FormState) (s : Session) (day : Day) :
  sessionsByDate sessions !! iso = Some s →
  lookup_day days (dayKey s) = Some day →
  onPickDate days sessions iso f
  = Some {| form_date := date s; form_dayKey := dayKey s; form_notes := notes s;
            cardioMinutes :=
              if String.eqb (dayKey s) (form_dayKey f)
              then nullish (minutes (cardio s)) (minutesDefault (day_cardio day))
              else minutesDefault (day_cardio day);
            form_entries :=
              if String.eqb (dayKey s) (form_dayKey f)
              then built (λ ex, shown (default no_entry (entry_of (ex_id ex) s)))
                         ∅ (exercises day)
              else nextEntries sessions day |}.
Proof.
  intros Hidx Hday. unfold onPickDate, loadSessionForDate. rewrite Hidx, Hday.
  cbn [mbind option_bind form_dayKey form_date form_notes].
  destruct (String.eqb (dayKey s) (form_dayKey f)); [done|].
  unfold dayChangeDefaults. by rewrite Hday.
Qed.

(** X6.  In the calendar version, on a store with one session per date,
    a session saved from the form is found again by a click on its date:
    the form takes the date, the day key and the trimmed notes of the
    save.  When the form was on the day of the session it also takes the
    normalised cardio minutes and entries of the save, and saving it
    again stores the same date, day, cardio and entries.  When the form
    was on another day, the day-change effect runs after the handler and
    the form holds the default cardio minutes and the seeded entries of
    the day instead, with empty sets and reps. *)
Theorem load_after_save `{Builtins} (f f0 : FormState) (day : Day) (rnd now : string)
    (prev : Store) :
  unique_dates prev →
  lookup_day GymProgramTracker.PROGRAM (form_dayKey f) = Some day →
  ∃ store f',
    GymProgramTracker.saveSession f rnd now prev = Some store ∧
    onPickDate GymProgramTracker.PROGRAM store (form_date f) f0 = Some f' ∧
    form_date f' = form_date f ∧
    form_dayKey f' = form_dayKey f ∧
    form_notes f' = String_trim (form_notes f) ∧
    (form_dayKey f0 = form_dayKey f →
     cardioMinutes f' = clean (cardioMinutes f) ∧
     form_entries f' = cleanEntries day (form_entries f) ∧
     ∀ rnd' now',
       let p := payload day f rnd now in
       let p' := payload day f' rnd' now' in
       date p' = date p ∧ dayKey p' = dayKey p ∧ dayName p' = dayName p ∧
       cardio p' = cardio p ∧ entries p' = entries p) ∧
    (form_dayKey f0 ≠ form_dayKey f →
     cardioMinutes f' = minutesDefault (day_cardio day) ∧
     form_entries f' = nextEntries store day ∧
     ∀ k e, form_entries f' !! k = Some e → reps e = Str "" ∧ sets e = Str "").
Proof.
  intros Hunique Hday.
  pose proof (sessionsByDate_saved (payload day f rnd now) prev Hunique) as Hidx.
  set (store := GymProgramTracker.upsert (payload day f rnd now) prev) in *.
  exists store. eexists. split.
  { unfold GymProgramTracker.saveSession, saveSession. by rewrite Hday. }
  split.
  { apply (onPickDate_found _ _ _ f0 (payload day f rnd now) day); [exact Hidx|exact Hday]. }
  cbn [form_date form_dayKey form_notes cardioMinutes form_entries
       date dayKey notes cardio minutes payload].
  do 3 (split; [reflexivity|]).
  destruct (String.eqb_spec (form_dayKey f) (form_dayKey f0)) as [Hsame|Hother]; split.
  - intros _. rewrite (nullish_of_stored (clean (cardioMinutes f))) by apply clean_stored.
    split; [done|]. split; [apply loaded_entries|].
    intros rnd' now'.
    refine (resave_same day f
              {| form_date := form_date f; form_dayKey := form_dayKey f;
                 form_notes := String_trim (form_notes f);
                 cardioMinutes := clean (cardioMinutes f);
                 form_entries :=
                   built (λ ex, shown (default no_entry
                                         (entry_of (ex_id ex) (payload day f rnd now))))
                         ∅ (exercises day) |} rnd now rnd' now' eq_refl eq_refl eq_refl _).
    apply loaded_entries.
  - intros Hne. by destruct Hne.
  - intros Heq. by destruct Hother.
  - intros _. split; [done|]. split; [done|].
    intros k e (ex & _ & _ & ->)%(built_values (seedEntry store)).
    apply seedEntry_filled.
Qed.

Lemma load_after_save_witness :
  ∃ store f',
    @GymProgramTracker.saveSession ascii_builtins press_form "1f" "2024-03-01T10:00:00.000Z"
      [press_jan1; press_feb1] = Some store ∧
    onPickDate GymProgramTracker.PROGRAM store (form_date press_form) spaces_form = Some f' ∧
    cardioMinutes f' = Num (lit 15 0).
Proof.
  assert (unique_dates [press_jan1; press_feb1]) as Hunique.
  { apply (bool_decide_unpack _). by vm_compute. }
  destruct (@load_after_save ascii_builtins press_form spaces_form _ "1f"
              "2024-03-01T10:00:00.000Z" [press_jan1; press_feb1] Hunique eq_refl)
    as (store & f' & Hsave & Hload & _ & _ & _ & Hsame & _).
  exists store, f'. split; [exact Hsave|]. split; [exact Hload|].
  destruct (Hsame eq_refl) as [Hminutes _]. rewrite Hminutes. by vm_compute.
Defined.

(** X7.  A click on a date of the calendar.  When no session of the store
    has the date, only the date of the form changes.  Otherwise the last
    session of the store with that date is taken: when its day key is not
    in the catalog the handler throws; when it is, the form takes the
    date, day key and notes of the session and gets one entry for each
    exercise of its day and no other, none with a [null] or [undefined]
    field.  When the form was on the day of the session these are the
    cardio minutes and the entries of the session, blank where it has
    none; when it was on another day they are the default minutes and the
    seeded entries of the day, which the day-change effect sets after the
    handler. *)
Theorem onPickDate_cases (days : list (string * Day)) (sessions : Store)
    (iso : string) (f : FormState) :
  ((∀ y, y ∈ sessions → date y ≠ iso) →
   onPickDate days sessions iso f
   = Some {| form_date := iso; form_dayKey := form_dayKey f; form_notes := form_notes f;
             cardioMinutes := cardioMinutes f; form_entries := form_entries f |}) ∧
  (∀ i s,
     sessions !! i = Some s → date s = iso →
     (∀ j y, (i < j)%nat → sessions !! j = Some y → date y ≠ iso) →
     (lookup_day days (dayKey s) = None → onPickDate days sessions iso f = None) ∧
     (∀ day, lookup_day days (dayKey s) = Some day →
        ∃ f', onPickDate days sessions iso f = Some f' ∧
          form_date f' = iso ∧ form_dayKey f' = dayKey s ∧ form_notes f' = notes s ∧
          (∀ k, is_Some (form_entries f' !! k) ↔ k ∈ ex_id <$> exercises day) ∧
          (∀ k e, form_entries f' !! k = Some e → filled e) ∧
          (dayKey s = form_dayKey f →
           cardioMinutes f' = nullish (minutes (cardio s)) (minutesDefault (day_cardio day)) ∧
           ∀ ex, ex ∈ exercises day →
             form_entries f' !! ex_id ex
             = Some (shown (default no_entry (entry_of (ex_id ex) s)))) ∧
          (dayKey s ≠ form_dayKey f →
           cardioMinutes f' = minutesDefault (day_cardio day) ∧
           form_entries f' = nextEntries sessions day))).
Proof.
  split.
  - intros Hnone. unfold onPickDate, loadSessionForDate.
    rewrite (sessionsByDate_none sessions iso Hnone). simpl.
    by rewrite String.eqb_refl.
  - intros i s Hi Hd Hlater.
    pose proof (sessionsByDate_at_last sessions iso i s Hi Hd Hlater) as Hidx. split.
    + intros Hday. unfold onPickDate, loadSessionForDate. by rewrite Hidx, Hday.
    + intros day Hday. eexists. split; [by apply (onPickDate_found _ _ _ f s day)|].
      cbn [form_date form_dayKey form_notes cardioMinutes form_entries].
      set (g := λ ex, shown (default no_entry (entry_of (ex_id ex) s))).
      split; [done|]. split; [done|]. split; [done|].
      destruct (String.eqb_spec (dayKey s) (form_dayKey f)) as [Hsame|Hother].
      * split; [intros k; apply (built_keys g)|].
        split; [intros k e (ex & _ & _ & ->)%(built_values g); apply shown_filled|].
        split; [|by intros Hne; destruct Hne].
        intros _. split; [done|]. intros ex Hex.
        apply (built_lookup_by_id g); [|done].
        intros a b Hab. unfold g. by rewrite Hab.
      * split; [intros k; apply (built_keys (seedEntry sessions))|].
        split.
        { intros k e (ex & _ & _ & ->)%(built_values (seedEntry sessions)).
          apply seedEntry_filled. }
        split; [by intros Heq; destruct Hother|]. by intros _.
Qed.

Lemma onPickDate_cases_witness :
  onPickDate GymProgramTracker.PROGRAM [press_jan1; press_feb1] "2024-03-01" press_form
  = Some {| form_date := "2024-03-01"; form_dayKey := "d1"; form_notes := " felt strong ";
            cardioMinutes := cardioMinutes press_form;
            form_entries := form_entries press_form |} ∧
  ∃ f', onPickDate GymProgramTracker.PROGRAM [press_jan1; press_feb1] "2024-02-01"
          infinite_form = Some f' ∧
        form_dayKey f' = "d1" ∧
        form_entries f' = nextEntries [press_jan1; press_feb1]
                           (default press_day (lookup_day GymProgramTracker.PROGRAM "d1")).
Proof.
  destruct (onPickDate_cases GymProgramTracker.PROGRAM [press_jan1; press_feb1]
              "2024-03-01" press_form) as [Hnew _].
  destruct (onPickDate_cases GymProgramTracker.PROGRAM [press_jan1; press_feb1]
              "2024-02-01" infinite_form) as [_ Hfound].
  split.
  - apply Hnew. intros y Hy.
    repeat (apply elem_of_cons in Hy as [->|Hy]; [by intros Hd; discriminate Hd|]).
    by apply elem_of_nil in Hy.
  - destruct (Hfound 1%nat press_feb1) as [_ Hday].
    + reflexivity.
    + reflexivity.
    + intros [|[|j]] y Hj Hy; [lia|lia|discriminate Hy].
    + destruct (Hday _ eq_refl) as (f' & Hload & _ & Hkey & _ & _ & _ & _ & Hother).
      exists f'. split; [exact Hload|]. split; [exact Hkey|].
      apply Hother. intros Heq. discriminate Heq.
Defined.

(** *** Edits of the form *)

Lemma set_field_twice (e : Entry) (field : string) (v1 v2 : scalar) :
  set_field (set_field e field v1) field v2 = set_field e field v2.
Proof. unfold set_field. by repeat case_match. Qed.

Lemma set_field_swap (e : Entry) (field1 field2 : string) (v1 v2 : scalar) :
  field1 ≠ field2 →
  set_field (set_field e field1 v1) field2 v2 = set_field (set_field e field2 v2) field1 v1.
Proof.
  intros Hne. unfold set_field.
  destruct (String.eqb_spec field1 "weight"), (String.eqb_spec field1 "reps"),
    (String.eqb_spec field1 "sets"), (String.eqb_spec field2 "weight"),
    (String.eqb_spec field2 "reps"), (String.eqb_spec field2 "sets");
    try done; congruence.
Qed.

Lemma updateEntry_lookup (exId field : string) (value : scalar) (prev : gmap string Entry) :
  updateEntry exId field value prev !! exId
  = Some (set_field (default empty_object (prev !! exId)) field value).
Proof. unfold updateEntry. by rewrite lookup_insert_eq. Qed.

Lemma updateEntry_lookup_ne (exId field : string) (value : scalar)
    (prev : gmap string Entry) (k : string) :
  k ≠ exId → updateEntry exId field value prev !! k = prev !! k.
Proof. intros Hne. unfold updateEntry. by rewrite lookup_insert_ne. Qed.

(** X8.  Edits of the form: a later edit of a field of an exercise
    overrides an earlier one, and edits of different exercises, or of
    different fields of one exercise, give the same entries in either
    order. *)
Theorem updateEntry_edits (prev : gmap string Entry) (ex1 ex2 field1 field2 : string)
    (v1 v2 : scalar) :
  updateEntry ex1 field1 v2 (updateEntry ex1 field1 v1 prev) = updateEntry ex1 field1 v2 prev ∧
  (ex1 ≠ ex2 ∨ field1 ≠ field2 →
   updateEntry ex2 field2 v2 (updateEntry ex1 field1 v1 prev)
   = updateEntry ex1 field1 v1 (updateEntry ex2 field2 v2 prev)).
Proof.
  split.
  - unfold updateEntry at 1. rewrite updateEntry_lookup. simpl.
    rewrite set_field_twice. unfold updateEntry. by rewrite insert_insert_eq.
  - intros Hne. destruct (decide (ex1 = ex2)) as [<-|Hex].
    + destruct Hne as [Hne|Hne]; [done|].
      unfold updateEntry at 1 3. rewrite !updateEntry_lookup. simpl.
      rewrite (set_field_swap _ field1 field2) by done.
      unfold updateEntry. by rewrite !insert_insert_eq.
    + unfold updateEntry at 1 3.
      rewrite !updateEntry_lookup_ne by done.
      unfold updateEntry. by apply insert_insert_ne.
Qed.

Lemma updateEntry_edits_witness :
  updateEntry "goblet_squat" "reps" (Str "12")
    (updateEntry "shoulder_press" "weight" (Str "45") (form_entries press_form))
  = updateEntry "shoulder_press" "weight" (Str "45")
      (updateEntry "goblet_squat" "reps" (Str "12") (form_entries press_form)).
Proof.
  destruct (updateEntry_edits (form_entries press_form) "shoulder_press" "goblet_squat"
              "weight" "reps" (Str "45") (Str "12")) as [_ Hswap].
  apply Hswap. left. intros Heq. discriminate Heq.
Defined.

Section EditAndSave.
Context `{Builtins}.

Lemma cleanEntry_empty_object : cleanEntry empty_object = cleanEntry no_entry.
Proof. reflexivity. Qed.

Lemma cleanEntry_default (o : option Entry) :
  cleanEntry (default empty_object o) = cleanEntry (default no_entry o).
Proof. by destruct o. Qed.

(** X9.  An edit followed by a save: the saved entry of an edited exercise
    of the day holds the normalised value in the edited field and its
    other fields are those a save without the edit stores; the saved
    entries of the other exercises are the same; and an edit of an
    exercise that is not of the day changes nothing of what is saved. *)
Theorem edit_then_save (day : Day) (entries : gmap string Entry) (exId field : string)
    (value : scalar) :
  let edited := cleanEntries day (updateEntry exId field value entries) in
  let plain := cleanEntries day entries in
  (∀ k, k ≠ exId → edited !! k = plain !! k) ∧
  (exId ∉ ex_id <$> exercises day → edited = plain) ∧
  (exId ∈ ex_id <$> exercises day →
   ∃ e e', plain !! exId = Some e ∧ edited !! exId = Some e' ∧
     (field = "weight" → weight e' = clean value ∧ reps e' = reps e ∧ sets e' = sets e) ∧
     (field = "reps" → weight e' = weight e ∧ reps e' = clean value ∧ sets e' = sets e) ∧
     (field = "sets" → weight e' = weight e ∧ reps e' = reps e ∧ sets e' = clean value)).
Proof.
  simpl. split; [|split].
  - intros k Hne. destruct (decide (k ∈ ex_id <$> exercises day)) as [Hk|Hk].
    + apply list_elem_of_fmap in Hk as (ex & -> & Hex).
      rewrite !cleanEntries_lookup by done. by rewrite updateEntry_lookup_ne.
    + transitivity (@None Entry); [|symmetry]; by apply built_lookup_absent.
  - intros Hout.
    apply (built_ext
             (λ ex, cleanEntry (default no_entry
                                  (updateEntry exId field value entries !! ex_id ex)))
             (λ ex, cleanEntry (default no_entry (entries !! ex_id ex)))).
    intros ex Hex. rewrite updateEntry_lookup_ne; [done|].
    intros Heq. apply Hout. rewrite <- Heq. by apply list_elem_of_fmap_2.
  - intros (ex & -> & Hex)%list_elem_of_fmap.
    eexists _, _. split; [by apply cleanEntries_lookup|].
    split; [by rewrite cleanEntries_lookup, updateEntry_lookup|].
    pose proof (cleanEntry_default (entries !! ex_id ex)) as Hdef.
    unfold cleanEntry in Hdef. injection Hdef as Hw Hr Hs.
    unfold set_field. split; [|split]; intros ->; simpl; by rewrite ?Hw, ?Hr, ?Hs.
Qed.
End EditAndSave.

Lemma edit_then_save_witness :
  ∃ e', @cleanEntries ascii_builtins press_day
          (updateEntry "shoulder_press" "weight" (Str "45") (form_entries press_form))
        !! "shoulder_press" = Some e' ∧
        weight e' = @clean ascii_builtins (Str "45").
Proof.
  destruct (@edit_then_save ascii_builtins press_day (form_entries press_form)
              "shoulder_press" "weight" (Str "45")) as (_ & _ & Hin).
  destruct Hin as (e & e' & _ & He' & Hweight & _).
  - apply (bool_decide_unpack _). by vm_compute.
  - exists e'. split; [exact He'|]. by apply Hweight.
Defined.

(** *** What export writes *)

Lemma serialize_number_written (n : number) : representable (serialize_number n) = true.
Proof. by destruct n as [[]| | |]. Qed.

Lemma serialize_written (v w : value) :
  serialize v = Some w → representable w = true.
Proof.
  revert v w. fix IH 1. intros [| |b|n|t|items|props] w; simpl; try by intros [= <-].
  - intros [= <-]. apply serialize_number_written.
  - intros [= <-]. simpl.
    induction items as [|x items IHitems]; [done|]. simpl.
    apply andb_true_iff. split; [|apply IHitems].
    destruct (serialize x) as [y|] eqn:Hx; [by apply (IH x)|done].
  - intros [= <-]. simpl.
    induction props as [|[k x] props IHprops]; [done|].
    destruct (serialize x) as [y|] eqn:Hx; [|apply IHprops].
    simpl. apply andb_true_iff. split; [by apply (IH x)|apply IHprops].
Qed.

Lemma serialize_items_written (items : list value) :
  Forall (λ v, representable v = true) (map (λ x, default VNull (serialize x)) items).
Proof.
  induction items as [|x items IH]; simpl; constructor; [|done].
  destruct (serialize x) as [y|] eqn:Hx; [by apply (serialize_written x)|done].
Qed.

(** X10.  Whatever the store holds, export writes a text and the import of
    that text completes; the store it leaves holds only values that
    [JSON.stringify] writes as they are, so that exporting again gives the
    same text. *)
Theorem export_is_stable (sessions before : list value) :
  ∃ t written,
    exportData sessions = Some t ∧
    importDataFromFile t before = ("Import complete.", written) ∧
    Forall (λ v, representable v = true) written ∧
    exportData written = Some t.
Proof.
  exists (Document (VObject [("sessions",
            VArray (map (λ x, default VNull (serialize x)) sessions))])).
  exists (map (λ x, default VNull (serialize x)) sessions).
  split; [done|]. split; [done|]. split; [apply serialize_items_written|].
  unfold exportData, JSON_stringify. simpl.
  by rewrite (serialize_items _ (serialize_items_written sessions)).
Qed.

(** X11.  The store across a restart: the effect that loads the store
    accepts a text exactly as import does and keeps the store when there
    is no item; what the saving effect wrote is loaded, saving it again
    writes the same text, and a store of values that [JSON.stringify]
    writes as they are is loaded as it was saved. *)
Theorem storage_reload (sessions initial : list value) :
  loadFromStorage None initial = initial ∧
  (∀ t, loadFromStorage (Some t) initial = snd (importDataFromFile t initial)) ∧
  ∃ loaded,
    loadFromStorage (saveToStorage sessions) initial = loaded ∧
    saveToStorage loaded = saveToStorage sessions ∧
    (Forall (λ v, representable v = true) sessions → loaded = sessions).
Proof.
  split; [done|]. split.
  - intros t. unfold loadFromStorage, importDataFromFile.
    destruct (safeParseJSON t) as [data|error]; [|done].
    by destruct (truthy data), (Array_isArray (get_prop data "sessions")).
  - exists (map (λ x, default VNull (serialize x)) sessions).
    split; [done|]. split.
    + unfold saveToStorage, JSON_stringify. simpl.
      by rewrite (serialize_items _ (serialize_items_written sessions)).
    + apply serialize_items.
Qed.

Lemma storage_reload_witness :
  loadFromStorage (saveToStorage [session_value press_jan1; session_value press_feb1]) []
  = [session_value press_jan1; session_value press_feb1].
Proof.
  destruct (storage_reload [session_value press_jan1; session_value press_feb1] [])
    as (_ & _ & loaded & <- & _ & Hsame).
  symmetry. apply Hsame. repeat constructor.
Defined.

(** *** The list of all exercises *)

Lemma map_has_elem (map : list (string * string)) (id : string) :
  map_has map id = true ↔ id ∈ map.*1.
Proof.
  unfold map_has. rewrite existsb_exists. split.
  - intros ([k v] & Hin%list_elem_of_In & Heq%String.eqb_eq). simpl in Heq. subst k.
    by apply (list_elem_of_fmap_2 fst _ (id, v)).
  - intros ([k v] & -> & Hin)%list_elem_of_fmap. exists (k, v).
    split; [by apply list_elem_of_In|apply String.eqb_refl].
Qed.

Lemma allExercises_flat (days : list (string * Day)) :
  allExercises days
  = foldl (λ map ex, if negb (map_has map (ex_id ex))
                     then map ++ [(ex_id ex, ex_name ex)] else map)
          [] (catalog_exercises days).
Proof.
  unfold allExercises, catalog_exercises.
  set (step := λ (map : list (string * string)) ex,
                 if negb (map_has map (ex_id ex))
                 then map ++ [(ex_id ex, ex_name ex)] else map).
  enough (∀ map, foldl (λ map d, foldl step map (exercises (snd d))) map days
                 = foldl step map (concat ((λ d, exercises (snd d)) <$> days))) as Hflat.
  { apply Hflat. }
  induction days as [|d days IH]; intros map; simpl; [done|].
  by rewrite foldl_app, IH.
Qed.

Lemma first_exercise_snoc (exs : list Exercise) (x ex : Exercise) (id : string) :
  first_exercise exs id ex → first_exercise (exs ++ [x]) id ex.
Proof.
  intros (i & Hi & Hid & Hbefore). exists i. split; [|split; [done|]].
  - by apply lookup_app_l_Some.
  - intros j y Hj Hy. apply (Hbefore j y Hj).
    apply lookup_lt_Some in Hi. by rewrite lookup_app_l in Hy by lia.
Qed.

Lemma first_position_snoc (exs : list Exercise) (x : Exercise) (id : string) (i : nat) :
  first_position exs id i → first_position (exs ++ [x]) id i.
Proof.
  intros [(ex & Hi & Hid) Hbefore]. split.
  - exists ex. split; [by apply lookup_app_l_Some|done].
  - intros j y Hj Hy. apply (Hbefore j y Hj).
    apply lookup_lt_Some in Hi. by rewrite lookup_app_l in Hy by lia.
Qed.

Lemma first_exercise_unique (exs : list Exercise) (id : string) (a b : Exercise) :
  first_exercise exs id a → first_exercise exs id b → a = b.
Proof.
  intros (i & Hi & Hida & Ha) (j & Hj & Hidb & Hb).
  destruct (Nat.lt_trichotomy i j) as [Hlt|[->|Hgt]]; [|congruence|].
  - by destruct (Hb i a Hlt Hi).
  - by destruct (Ha j b Hgt Hj).
Qed.

Lemma allExercises_invariant (exs : list Exercise) :
  let all := foldl (λ map ex, if negb (map_has map (ex_id ex))
                              then map ++ [(ex_id ex, ex_name ex)] else map) [] exs in
  all `sublist_of` (λ ex, (ex_id ex, ex_name ex)) <$> exs ∧
  NoDup all.*1 ∧
  (∀ id, id ∈ all.*1 ↔ id ∈ ex_id <$> exs) ∧
  (∀ id name, (id, name) ∈ all → ∃ ex, first_exercise exs id ex ∧ ex_name ex = name) ∧
  in_order_of_first_occurrence exs all.
Proof.
  induction exs as [|x exs IH] using rev_ind; simpl.
  { split; [done|]. split; [constructor|]. split; [done|].
    split; [by intros id name ?%elem_of_nil|]. by intros i j a b _ Hi. }
  rewrite foldl_app. simpl in *.
  set (all := foldl _ [] exs) in *. destruct IH as (Hsub & Hnodup & Hids & Hfirst & Horder).
  destruct (map_has all (ex_id x)) eqn:Hhas; simpl.
  - apply map_has_elem in Hhas. rewrite !fmap_app.
    split; [by apply sublist_inserts_r|]. split; [done|]. split.
    + intros id. rewrite elem_of_app, Hids. split; [by left|].
      intros [Hin|Hin]; [done|]. apply list_elem_of_singleton in Hin as ->. by apply Hids.
    + split.
      * intros id name (ex & Hex & Hname)%Hfirst. exists ex.
        split; [by apply first_exercise_snoc|done].
      * intros i j a b Hij Hi Hj. destruct (Horder i j a b Hij Hi Hj) as (p & q & Hp & Hq & Hpq).
        exists p, q. split; [by apply first_position_snoc|].
        split; [by apply first_position_snoc|done].
  - assert (ex_id x ∉ all.*1) as Hout.
    { intros Hin%map_has_elem. congruence. }
    rewrite !fmap_app. simpl. split; [by apply sublist_app|]. split; [|split].
    + apply NoDup_app. split; [done|]. split; [|apply NoDup_singleton].
      by intros id Hin ->%list_elem_of_singleton.
    + intros id. by rewrite !elem_of_app, Hids.
    + assert (first_position (exs ++ [x]) (ex_id x) (length exs)) as Hnew.
      { split; [exists x; by rewrite lookup_app_r, Nat.sub_diag by lia|].
        intros j y Hj Hy Heq. apply Hout, Hids. rewrite <- Heq.
        apply list_elem_of_fmap_2. rewrite lookup_app_l in Hy by lia.
        by apply (list_elem_of_lookup_2 _ j). }
      split.
      * intros id name [Hin|Hin]%elem_of_app.
        -- destruct (Hfirst id name Hin) as (ex & Hex & Hname). exists ex.
           split; [by apply first_exercise_snoc|done].
        -- apply list_elem_of_singleton in Hin as [= -> ->]. exists x. split; [|done].
           destruct Hnew as [(ex & Hex & Hid) Hbefore]. exists (length exs).
           rewrite lookup_app_r, Nat.sub_diag in Hex by lia. injection Hex as <-.
           split; [by rewrite lookup_app_r, Nat.sub_diag by lia|done].
      * intros i j a b Hij Hi Hj.
        assert (i < length all)%nat as Hilt.
        { apply lookup_lt_Some in Hj. rewrite length_app in Hj. simpl in Hj. lia. }
        rewrite lookup_app_l in Hi by done.
        destruct (decide (j < length all)%nat) as [Hjlt|Hjge].
        -- rewrite lookup_app_l in Hj by done.
           destruct (Horder i j a b Hij Hi Hj) as (p & q & Hp & Hq & Hpq).
           exists p, q. split; [by apply first_position_snoc|].
           split; [by apply first_position_snoc|done].
        -- rewrite lookup_app_r in Hj by lia.
           apply lookup_lt_Some in Hj as Hjlen. simpl in Hjlen.
           replace (j - length all)%nat with 0%nat in Hj by lia. injection Hj as <-.
           destruct a as [id name].
           destruct (Hfirst id name) as (ex & (p & Hp & Hid & Hbefore) & _).
           { by apply (list_elem_of_lookup_2 _ i). }
           exists p, (length exs). split.
           { apply first_position_snoc. split; [by exists ex|done]. }
           split; [exact Hnew|]. by apply lookup_lt_Some in Hp.
Qed.

Lemma find_by_key (all : list (string * string)) (id name : string) :
  NoDup all.*1 → (id, name) ∈ all →
  List.find (λ e, String.eqb (fst e) id) all = Some (id, name).
Proof.
  induction all as [|[k v] all IH]; intros Hnodup Hin; [by apply elem_of_nil in Hin|].
  apply NoDup_cons in Hnodup as [Hk Hnodup]. simpl.
  apply elem_of_cons in Hin as [[= <- <-]|Hin]; [by rewrite String.eqb_refl|].
  destruct (String.eqb_spec k id) as [->|_]; [|by apply IH].
  destruct Hk. by apply (list_elem_of_fmap_2 fst _ (id, name)).
Qed.

Lemma find_by_key_none (all : list (string * string)) (id : string) :
  id ∉ all.*1 → List.find (λ e, String.eqb (fst e) id) all = None.
Proof.
  induction all as [|[k v] all IH]; intros Hout; [done|]. simpl.
  destruct (String.eqb_spec k id) as [->|_].
  - destruct Hout. by left.
  - apply IH. intros Hin. apply Hout. by right.
Qed.

(** X12.  [allExercises] lists every exercise id of the catalog once,
    under the name of the first exercise with that id, and in the order
    in which the ids first occur through the days: of two entries of the
    list, the earlier one has its first occurrence in the catalog before
    that of the later one.  The history shows the listed name for such an
    id and the id itself for one that the catalog does not have. *)
Theorem allExercises_names (days : list (string * Day)) :
  let all := allExercises days in
  let exs := catalog_exercises days in
  NoDup all.*1 ∧
  all `sublist_of` (λ ex, (ex_id ex, ex_name ex)) <$> exs ∧
  in_order_of_first_occurrence exs all ∧
  (∀ id ex, first_exercise exs id ex →
     (id, ex_name ex) ∈ all ∧ exercise_name all id = ex_name ex) ∧
  (∀ id, (∀ ex, ex ∈ exs → ex_id ex ≠ id) →
     (id ∉ all.*1) ∧ exercise_name all id = id).
Proof.
  cbv zeta. rewrite allExercises_flat.
  destruct (allExercises_invariant (catalog_exercises days))
    as (Hsub & Hnodup & Hids & Hfirst & Horder).
  cbv zeta in Hsub, Hnodup, Hids, Hfirst, Horder. set (all := foldl _ [] _) in *.
  split; [done|]. split; [done|]. split; [done|]. split.
  - intros id ex Hex.
    assert (id ∈ all.*1) as ([k name] & -> & Hin)%list_elem_of_fmap.
    { apply Hids. destruct Hex as (i & Hi & <- & _).
      apply list_elem_of_fmap_2. by apply (list_elem_of_lookup_2 _ i). }
    simpl in *. destruct (Hfirst k name Hin) as (ex' & Hex' & <-).
    rewrite (first_exercise_unique _ _ _ _ Hex Hex').
    split; [done|]. unfold exercise_name. by rewrite (find_by_key all k (ex_name ex')).
  - intros id Hnone.
    assert (id ∉ all.*1) as Hout.
    { intros (ex & Hid & Hex)%Hids%list_elem_of_fmap. by destruct (Hnone ex). }
    split; [done|]. unfold exercise_name. by rewrite find_by_key_none.
Qed.

Lemma allExercises_names_witness :
  exercise_name (allExercises GymProgramTracker.PROGRAM) "shoulder_press" = "Shoulder Press" ∧
  exercise_name (allExercises App.PROGRAM) "bench_press" = "bench_press".
Proof.
  split.
  - destruct (allExercises_names GymProgramTracker.PROGRAM) as (_ & _ & _ & Hfirst & _).
    destruct (Hfirst "shoulder_press" shoulder_press) as [_ Hname]; [|exact Hname].
    exists 0%nat. split; [reflexivity|]. split; [reflexivity|]. intros j y Hj. lia.
  - destruct (allExercises_names App.PROGRAM) as (_ & _ & _ & _ & Hnone).
    destruct (Hnone "bench_press") as [_ Hname]; [|exact Hname].
    intros ex Hex. vm_compute in Hex.
    repeat (apply elem_of_cons in Hex as [->|Hex]; [by intros Heq; discriminate Heq|]).
    by apply elem_of_nil in Hex.
Defined.

(** *** The month grid *)

Lemma pad_weeks_enough (fuel : nat) :
  ∀ (k : nat) (cells : list cell),
    (k ≤ fuel)%nat →
    (Z.of_nat (length cells) + Z.of_nat k) mod 7 = 0 →
    ∃ pad, (pad ≤ k)%nat ∧
      pad_weeks fuel cells = Some (cells ++ replicate pad None) ∧
      (Z.of_nat (length cells) + Z.of_nat pad) mod 7 = 0.
Proof.
  induction fuel as [|fuel IH]; intros k cells Hk Hmod; simpl.
  - assert (k = 0%nat) as -> by lia. exists 0%nat. split; [done|].
    rewrite Z.add_0_r in Hmod. rewrite Hmod. simpl. by rewrite app_nil_r, Z.add_0_r.
  - destruct (Z.eqb_spec (Z.of_nat (length cells) mod 7) 0) as [Hzero|Hrest].
    + exists 0%nat. split; [lia|]. simpl. by rewrite app_nil_r, Z.add_0_r.
    + destruct k as [|k]; [by rewrite Z.add_0_r in Hmod|].
      destruct (IH k (cells ++ [None])) as (pad & Hpad & Hrun & Hfull); [lia|..].
      * rewrite length_app. simpl. by replace (Z.of_nat (length cells + 1) + Z.of_nat k)
          with (Z.of_nat (length cells) + Z.of_nat (S k)) by lia.
      * exists (S pad). split; [lia|]. rewrite Hrun. split.
        -- by rewrite <- app_assoc.
        -- rewrite length_app in Hfull. simpl in Hfull.
           by replace (Z.of_nat (length cells) + Z.of_nat (S pad))
             with (Z.of_nat (length cells + 1) + Z.of_nat pad) by lia.
Qed.

Lemma pad_weeks_full (cells : list cell) :
  ∃ pad, (pad < 7)%nat ∧
    pad_weeks 7 cells = Some (cells ++ replicate pad None) ∧
    (Z.of_nat (length cells) + Z.of_nat pad) mod 7 = 0.
Proof.
  destruct (pad_weeks_enough 7 (Z.to_nat ((7 - Z.of_nat (length cells) mod 7) mod 7)) cells)
    as (pad & Hpad & Hrun & Hfull).
  - pose proof (Z.mod_pos_bound (7 - Z.of_nat (length cells) mod 7) 7). lia.
  - rewrite Z2Nat.id by (apply Z.mod_pos_bound; lia).
    rewrite Zplus_mod_idemp_r.
    replace (Z.of_nat (length cells) + (7 - Z.of_nat (length cells) mod 7))
      with (1 * 7 + (Z.of_nat (length cells) - Z.of_nat (length cells) mod 7)) by lia.
    rewrite Z.add_comm, Z_mod_plus_full, Zminus_mod_idemp_r, Z.sub_diag. done.
  - exists pad. split; [|done].
    pose proof (Z.mod_pos_bound (7 - Z.of_nat (length cells) mod 7) 7). lia.
Qed.

Lemma week_slices_chunks (n : nat) :
  ∀ (fuel : nat) (before rest : list cell),
    length rest = (7 * n)%nat → (n ≤ fuel)%nat →
    ∃ weeks,
      week_slices fuel (Z.of_nat (length before)) (before ++ rest) = weeks ∧
      concat weeks = rest ∧ length weeks = n ∧
      Forall (λ w, length w = 7%nat) weeks.
Proof.
  induction n as [|n IH]; intros fuel before rest Hlen Hfuel.
  - apply nil_length_inv in Hlen as ->. exists []. split; [|done].
    destruct fuel as [|fuel]; [done|]. simpl.
    rewrite app_nil_r. by rewrite Z.ltb_irrefl.
  - destruct fuel as [|fuel]; [lia|]. simpl.
    destruct (Z.ltb_spec (Z.of_nat (length before)) (Z.of_nat (length (before ++ rest))))
      as [_|Hge]; [|rewrite length_app in Hge; lia].
    destruct (IH fuel (before ++ take 7 rest) (drop 7 rest))
      as (weeks & Hrun & Hconcat & Hweeks & Hseven).
    + rewrite length_drop. lia.
    + lia.
    + exists (take 7 rest :: weeks).
      assert (slice (before ++ rest) (Z.of_nat (length before)) (Z.of_nat (length before) + 7)
              = take 7 rest) as ->.
      { unfold slice. rewrite Nat2Z.id.
        replace (Z.to_nat (Z.of_nat (length before) + 7 - Z.of_nat (length before)))
          with 7%nat by lia.
        by rewrite drop_app_length. }
      assert (length (take 7 rest) = 7%nat) as Htake by (rewrite length_take; lia).
      rewrite length_app, Htake, <- app_assoc, take_drop in Hrun.
      replace (Z.of_nat (length before) + 7) with (Z.of_nat (length before + 7)) by lia.
      rewrite Hrun. split; [done|]. simpl. rewrite Hconcat, take_drop.
      split; [done|]. split; [by rewrite Hweeks|]. by constructor.
Qed.

(** X13.  [buildMonthGrid], for a month whose first day falls on the week
    day [jsDay] and that has [daysInMonth] days: both loops end, every
    week has seven cells, and the cells read week after week are one
    [null] for each day from Monday to the first of the month, then the
    days 1 to [daysInMonth] in order, then fewer than seven [null]; a
    month of 28 to 31 days fills four to six weeks. *)
Theorem buildMonthGrid_weeks (jsDay daysInMonth : Z) :
  0 ≤ jsDay ≤ 6 → 0 ≤ daysInMonth →
  ∃ weeks pad,
    buildMonthGrid jsDay daysInMonth = Some weeks ∧
    Forall (λ w, length w = 7%nat) weeks ∧
    (pad < 7)%nat ∧
    concat weeks
    = replicate (Z.to_nat ((jsDay + 6) mod 7)) None ++ (Some <$> seqZ 1 daysInMonth)
        ++ replicate pad None ∧
    (28 ≤ daysInMonth ≤ 31 → (4 ≤ length weeks ≤ 6)%nat).
Proof.
  intros Hday Hdays. unfold buildMonthGrid.
  set (cells := replicate _ None ++ (Some <$> seqZ 1 daysInMonth)).
  destruct (pad_weeks_full cells) as (pad & Hpad & -> & Hfull). simpl.
  assert (∃ n, length (cells ++ replicate pad None) = (7 * n)%nat) as [n Hn].
  { exists (Z.to_nat ((Z.of_nat (length cells) + Z.of_nat pad) / 7)).
    rewrite length_app, length_replicate.
    pose proof (Z.div_mod (Z.of_nat (length cells) + Z.of_nat pad) 7 ltac:(lia)) as Hdiv.
    unfold cell in *. rewrite Hfull in Hdiv.
    assert (0 ≤ (Z.of_nat (length cells) + Z.of_nat pad) / 7) by (apply Z.div_pos; lia).
    lia. }
  destruct (week_slices_chunks n (length (cells ++ replicate pad None)) []
              (cells ++ replicate pad None) Hn) as (weeks & Hrun & Hconcat & Hweeks & Hseven).
  { lia. }
  exists weeks, pad. split; [by rewrite <- Hrun|]. split; [done|]. split; [done|].
  split; [rewrite Hconcat; unfold cells; by rewrite <- app_assoc|].
  intros Hmonth. rewrite Hweeks.
  rewrite length_app, length_replicate in Hn. unfold cells in Hn.
  rewrite length_app, length_replicate, length_fmap, length_seqZ in Hn.
  pose proof (Z.mod_pos_bound (jsDay + 6) 7). lia.
Qed.

Lemma buildMonthGrid_weeks_witness :
  ∃ weeks, buildMonthGrid 4 29 = Some weeks ∧ (4 ≤ length weeks ≤ 6)%nat.
Proof.
  destruct (buildMonthGrid_weeks 4 29) as (weeks & pad & Hrun & _ & _ & _ & Hcount);
    [lia|lia|].
  exists weeks. split; [exact Hrun|]. apply Hcount. lia.
Defined.

(** *** The history *)

Section InsertionSort.
Context {A : Type} (cmp : A → A → Z) (R : A → A → Prop).
Hypothesis positive : ∀ y x, (cmp y x >? 0) = true → R x y.
Hypothesis not_positive : ∀ y x, (cmp y x >? 0) = false → R y x.

Lemma sort_insert_hd_by (x a : A) (l : list A) :
  HdRel R a l → R a x → HdRel R a (sort_insert cmp x l).
Proof.
  intros Hl Hx. destruct l as [|y l]; simpl; [by constructor|].
  destruct (cmp y x >? 0); constructor; [done|]. by inversion Hl.
Qed.

Lemma sort_insert_sorted_by (x : A) (l : list A) :
  Sorted R l → Sorted R (sort_insert cmp x l).
Proof.
  induction 1 as [|y l Hsorted IH Hhd]; simpl; [by repeat constructor|].
  destruct (cmp y x >? 0) eqn:Hcmp.
  - constructor; [by constructor|]. constructor. by apply positive.
  - constructor; [done|]. apply sort_insert_hd_by; [done|]. by apply not_positive.
Qed.

Lemma Array_sort_sorted_by (l : list A) : Sorted R (Array_sort cmp l).
Proof.
  unfold Array_sort.
  assert (Hgen : ∀ acc, Sorted R acc →
            Sorted R (foldl (λ sorted x, sort_insert cmp x sorted) acc l)).
  { induction l as [|x l IH]; intros acc Hacc; simpl; [done|].
    by apply IH, sort_insert_sorted_by. }
  apply Hgen. constructor.
Qed.
End InsertionSort.

Lemma not_older_trans (a b c : Session) : not_older a b → not_older b c → not_older a c.
Proof. unfold not_older. intros Hab Hbc. by apply (string_leb_trans _ (date b)). Qed.

Lemma not_older_newer (a b : Session) : not_older a b → date a ≠ date b → newer a b.
Proof.
  unfold not_older, newer, string_gt, String.leb. intros Hle Hne.
  rewrite (String.compare_antisym (date a) (date b)).
  destruct (String.compare (date b) (date a)) eqn:Hcmp; [|done|done].
  apply String.compare_eq_iff in Hcmp. congruence.
Qed.

Lemma newer_asym (a b : Session) : newer a b → newer b a → False.
Proof.
  unfold newer, string_gt. rewrite (String.compare_antisym (date a) (date b)).
  by destruct (String.compare (date b) (date a)).
Qed.

Lemma history_sorted (sessions : Store) : StronglySorted not_older (history sessions).
Proof.
  apply Sorted_StronglySorted; [intros a b c; apply not_older_trans|].
  apply Array_sort_sorted_by.
  - intros y x. unfold by_date_desc, not_older.
    destruct (string_gt (date x) (date y)) eqn:Hgt; [|done]. intros _. by apply string_gt_leb.
  - intros y x. unfold by_date_desc, not_older.
    destruct (string_gt (date x) (date y)) eqn:Hgt; [done|]. intros _.
    by apply string_not_gt_leb.
Qed.

Lemma strictly_sorted (l : Store) :
  StronglySorted not_older l → NoDup (date <$> l) → StronglySorted newer l.
Proof.
  induction 1 as [|x l Hsorted IH Hall]; intros Hnodup; [constructor|].
  rewrite fmap_cons in Hnodup. apply NoDup_cons in Hnodup as [Hx Hnodup].
  constructor; [by apply IH|].
  apply List.Forall_forall. intros y Hy. apply not_older_newer.
  - by apply (proj1 (List.Forall_forall _ _) Hall).
  - intros Heq. apply Hx. rewrite Heq. apply list_elem_of_fmap_2. by apply list_elem_of_In.
Qed.

(** X14.  The history shows the sessions of the store, each once, no
    session before one of a later date; on a store with one session per
    date every session comes before those of an earlier date, whatever
    the order of the store. *)
Theorem history_newest_first (sessions : Store) :
  history sessions ≡ₚ sessions ∧
  StronglySorted not_older (history sessions) ∧
  (unique_dates sessions →
   StronglySorted newer (history sessions) ∧
   ∀ other, other ≡ₚ sessions → history other = history sessions).
Proof.
  split; [apply Array_sort_perm|]. split; [apply history_sorted|].
  intros Hunique.
  assert (∀ l, l ≡ₚ sessions → StronglySorted newer (history l)) as Hstrict.
  { intros l Hl. apply strictly_sorted; [apply history_sorted|].
    unfold unique_dates in Hunique. rewrite <- Hl in Hunique.
    unfold history. by rewrite Array_sort_perm. }
  split; [by apply Hstrict|].
  intros other Hother.
  apply (StronglySorted_unique_strong newer).
  - intros a b _ _ Hab Hba. exfalso. by apply (newer_asym a b).
  - by apply Hstrict.
  - by apply Hstrict.
  - unfold history. by rewrite !Array_sort_perm.
Qed.

Lemma history_newest_first_witness :
  history [press_jan1; press_feb1] = history [press_feb1; press_jan1].
Proof.
  destruct (history_newest_first [press_feb1; press_jan1]) as (_ & _ & Hunique).
  destruct Hunique as [_ Hsame].
  - apply (bool_decide_unpack _). by vm_compute.
  - apply Hsame. apply Permutation_swap.
Defined.

(** *** Seeding after a save *)

Lemma strict_eq_empty (v : scalar) : strict_eq v (Str "") = true ↔ v = Str "".
Proof.
  destruct v as [| |t|n]; simpl; try by split.
  destruct (String.eqb_spec t "") as [->|Hne]; [done|]. split; [done|]. by intros [= ?].
Qed.

Lemma seeded_weight_seedEntry (fallow : scalar) (sessions : Store) (dayKey : string)
    (day : Day) (ex : Exercise) :
  lookup_day (PROGRAM_days fallow) dayKey = Some day → ex ∈ exercises day →
  seeded_weight (PROGRAM_days fallow) sessions dayKey (ex_id ex)
  = Some (weight (seedEntry sessions ex)).
Proof.
  intros Hday Hex. unfold seeded_weight, dayChangeDefaults. rewrite Hday. simpl.
  change (nextEntries sessions day) with (built (seedEntry sessions) ∅ (exercises day)).
  by rewrite (built_lookup (seedEntry sessions) _ ex (program_days_nodup _ _ _ Hday) Hex).
Qed.

Section SeedAfterSave.
Context `{Builtins}.

Lemma seedEntry_after_save (prev : Store) (day : Day) (f : FormState) (rnd now : string)
    (ex : Exercise) :
  ex ∈ exercises day →
  let w := clean (weight (default no_entry (form_entries f !! ex_id ex))) in
  seedEntry (prev ++ [payload day f rnd now]) ex
  = if strict_eq w (Str "") then seedEntry prev ex
    else {| weight := w; reps := Str ""; sets := Str "" |}.
Proof.
  intros Hex w. unfold seedEntry. rewrite rev_app_distr. simpl.
  unfold has_weight at 1, weight_in at 1, entry_of. simpl.
  rewrite (cleanEntries_lookup day (form_entries f) ex Hex). simpl. fold w.
  destruct (strict_eq w (Str "")) eqn:Hw; simpl; [done|].
  rewrite (cleanEntries_lookup day (form_entries f) ex Hex). simpl. fold w.
  by rewrite (nullish_of_stored w) by apply clean_stored.
Qed.

(** X15.  In either component, when the store has no session of the date
    of the form, a save appends, and on the next change to the day of the
    form each of its exercises is seeded with the weight just saved for
    it; an exercise saved without a weight is seeded as before the save. *)
Theorem seed_after_save (fallow : scalar) (upsert : Session → Store → Store)
    (f : FormState) (rnd now : string) (prev : Store) (day : Day) (ex : Exercise) :
  upsert = App.upsert ∨ upsert = GymProgramTracker.upsert →
  lookup_day (PROGRAM_days fallow) (form_dayKey f) = Some day →
  ex ∈ exercises day →
  (∀ s, s ∈ prev → date s ≠ form_date f) →
  seeds_saved_weight (PROGRAM_days fallow) upsert f rnd now prev ex.
Proof.
  intros Hupsert Hday Hex Hfresh. unfold seeds_saved_weight.
  exists (prev ++ [payload day f rnd now]). split.
  { unfold saveSession. rewrite Hday. simpl. f_equal. destruct Hupsert as [-> | ->].
    - apply app_upsert_fresh. intros y Hy [Hd _]. by apply (Hfresh y Hy).
    - apply tracker_upsert_fresh. intros y Hy Hd. by apply (Hfresh y Hy). }
  rewrite !(seeded_weight_seedEntry fallow _ _ day ex Hday Hex).
  rewrite (seedEntry_after_save prev day f rnd now ex Hex). split.
  - intros Hw. destruct (strict_eq _ (Str "")) eqn:Hempty; [|done].
    by apply strict_eq_empty in Hempty.
  - intros Hw. by rewrite Hw.
Qed.
End SeedAfterSave.

Lemma seed_after_save_witness :
  ∃ store,
    @GymProgramTracker.saveSession ascii_builtins press_form "1f" "2024-03-01T10:00:00.000Z" []
    = Some store ∧
    seeded_weight GymProgramTracker.PROGRAM store "d1" "shoulder_press"
    = Some (Num (lit 85 (-1))).
Proof.
  destruct (@seed_after_save ascii_builtins Null GymProgramTracker.upsert press_form "1f"
              "2024-03-01T10:00:00.000Z" [] _ shoulder_press (or_intror eq_refl) eq_refl)
    as (store & Hsave & Hseed & _).
  - by left.
  - intros s Hs. by apply elem_of_nil in Hs.
  - exists store. split; [exact Hsave|].
    etrans; [apply Hseed; by vm_compute|]. by vm_compute.
Defined.

(** *** The series and the order of the store *)

Lemma string_leb_antisym (a b : string) :
  String.leb a b = true → String.leb b a = true → a = b.
Proof.
  unfold String.leb. rewrite (String.compare_antisym b a).
  destruct (String.compare a b) eqn:Hcmp; try done.
  intros _ _. by apply String.compare_eq_iff.
Qed.

Lemma same_date_same_session (store : Store) (a b : Session) :
  unique_dates store → a ∈ store → b ∈ store → date a = date b → a = b.
Proof.
  intros Hunique [i Hi]%list_elem_of_lookup [j Hj]%list_elem_of_lookup Hd.
  assert (i = j) as ->; [|congruence].
  apply (NoDup_lookup (date <$> store) i j (date a)); [done|..].
  - by rewrite list_lookup_fmap, Hi.
  - by rewrite list_lookup_fmap, Hj; simpl; rewrite Hd.
Qed.

Lemma List_filter_perm {A} (p : A → bool) (l l' : list A) :
  l ≡ₚ l' → List.filter p l ≡ₚ List.filter p l'.
Proof.
  induction 1 as [|x l l' _ IH|x y l|l l' l'' _ IH1 _ IH2]; simpl; [done|..].
  - destruct (p x); [by constructor|done].
  - destruct (p x), (p y); try done. apply Permutation_swap.
  - by etrans.
Qed.

Lemma List_filter_sublist {A} (p : A → bool) (l : list A) : List.filter p l `sublist_of` l.
Proof.
  induction l as [|x l IH]; simpl; [done|].
  destruct (p x); [by apply sublist_skip|by apply sublist_cons].
Qed.

Lemma points_strictly_sorted (l : list Point) :
  StronglySorted date_le l → NoDup (p_date <$> l) →
  StronglySorted (λ a b, string_gt (p_date b) (p_date a) = true) l.
Proof.
  induction 1 as [|x l Hsorted IH Hall]; intros Hnodup; [constructor|].
  rewrite fmap_cons in Hnodup. apply NoDup_cons in Hnodup as [Hx Hnodup].
  constructor; [by apply IH|].
  apply List.Forall_forall. intros y Hy.
  pose proof (proj1 (List.Forall_forall _ _) Hall y Hy) as Hle.
  unfold date_le, String.leb in Hle. unfold string_gt.
  rewrite (String.compare_antisym (p_date y) (p_date x)).
  destruct (String.compare (p_date x) (p_date y)) eqn:Hcmp; [|done|done].
  apply String.compare_eq_iff in Hcmp. destruct Hx. rewrite Hcmp.
  apply list_elem_of_fmap_2. by apply list_elem_of_In.
Qed.

Section SeriesOrder.
Context `{Builtins}.

Lemma chartData_elem (sessions : Store) (exId : string) (d : Point) :
  d ∈ chartData sessions exId ↔
  ∃ s, s ∈ sessions ∧ records exId s = true ∧ d = point_of exId s.
Proof.
  unfold chartData. rewrite Array_sort_perm. split.
  - intros (s & -> & Hs)%list_elem_of_fmap. exists s.
    apply list_elem_of_In in Hs. apply filter_In in Hs as [Hs Hrec].
    split; [by apply list_elem_of_In|done].
  - intros (s & Hs & Hrec & ->). apply list_elem_of_fmap_2.
    apply list_elem_of_In, filter_In. split; [by apply list_elem_of_In|done].
Qed.

Lemma chartData_unique_dates (sessions : Store) (exId : string) :
  unique_dates sessions → NoDup (p_date <$> chartData sessions exId).
Proof.
  intros Hunique. unfold chartData. rewrite Array_sort_perm.
  change (map (point_of exId)) with (fmap (M := list) (point_of exId)).
  rewrite <- list_fmap_compose.
  apply (sublist_NoDup _ (date <$> sessions)); [done|].
  apply (fmap_sublist date), List_filter_sublist.
Qed.

(** X17.  On a store with one session per date the series of an exercise
    is in increasing order of date and does not depend on the order of the
    sessions in the store. *)
Theorem chartData_any_order (sessions other : Store) (exId : string) :
  unique_dates sessions → other ≡ₚ sessions →
  chartData other exId = chartData sessions exId ∧
  StronglySorted (λ a b, string_gt (p_date b) (p_date a) = true) (chartData sessions exId).
Proof.
  intros Hunique Hother.
  assert (∀ l, StronglySorted date_le (chartData l exId)) as Hsorted.
  { intros l. apply Sorted.Sorted_StronglySorted; [intros a b c; apply date_le_trans|].
    apply Array_sort_sorted. }
  split.
  - apply (StronglySorted_unique_strong date_le); [|apply Hsorted..|].
    + intros a b (s & Hs & _ & ->)%chartData_elem (t & Ht & _ & ->)%chartData_elem Hab Hba.
      rewrite Hother in Hs.
      rewrite (same_date_same_session sessions s t Hunique Hs Ht); [done|].
      by apply string_leb_antisym.
    + unfold chartData. rewrite !Array_sort_perm.
      apply Permutation_map. by apply List_filter_perm.
  - apply points_strictly_sorted; [apply Hsorted|by apply chartData_unique_dates].
Qed.
End SeriesOrder.

Lemma chartData_any_order_witness :
  @chartData ascii_builtins [press_feb1; press_jan1] "shoulder_press"
  = @chartData ascii_builtins [press_jan1; press_feb1] "shoulder_press".
Proof.
  destruct (@chartData_any_order ascii_builtins [press_jan1; press_feb1]
              [press_feb1; press_jan1] "shoulder_press") as [Hsame _].
  - apply (bool_decide_unpack _). by vm_compute.
  - apply Permutation_swap.
  - exact Hsame.
Defined.

(** *** The progress of an exercise after a save *)

Lemma string_gt_irrefl (a : string) : string_gt a a = false.
Proof.
  unfold string_gt. pose proof (String.compare_antisym a a) as Hsym.
  by destruct (String.compare a a).
Qed.

Lemma string_gt_asym (a b : string) : string_gt a b = true → string_gt b a = false.
Proof.
  unfold string_gt. rewrite (String.compare_antisym a b).
  by destruct (String.compare b a).
Qed.

Lemma sort_insert_last {A} (cmp : A → A → Z) (x : A) (l : list A) :
  (∀ y, y ∈ l → (cmp y x >? 0) = false) → sort_insert cmp x l = l ++ [x].
Proof.
  induction l as [|y l IH]; intros Hall; simpl; [done|].
  rewrite (Hall y) by (by left). f_equal. apply IH. intros z Hz. apply Hall. by right.
Qed.

Lemma Array_sort_snoc {A} (cmp : A → A → Z) (l : list A) (x : A) :
  Array_sort cmp (l ++ [x]) = sort_insert cmp x (Array_sort cmp l).
Proof. unfold Array_sort. by rewrite foldl_app. Qed.

Section ProgressAfterSave.
Context `{Builtins}.

Lemma chartData_dates (sessions : Store) (exId : string) (d : Point) :
  d ∈ chartData sessions exId → ∃ s, s ∈ sessions ∧ p_date d = date s.
Proof.
  unfold chartData. rewrite Array_sort_perm.
  intros (s & -> & Hs)%list_elem_of_fmap. exists s. split; [|done].
  apply list_elem_of_In in Hs. apply filter_In in Hs as [Hs _]. by apply list_elem_of_In.
Qed.

Lemma chartData_snoc (sessions : Store) (exId : string) (s : Session) :
  records exId s = true →
  (∀ y, y ∈ sessions → string_gt (date y) (date s) = false) →
  chartData (sessions ++ [s]) exId = chartData sessions exId ++ [point_of exId s].
Proof.
  intros Hrec Hlater. unfold chartData at 1.
  rewrite List.filter_app, map_app. simpl. rewrite Hrec. simpl.
  rewrite Array_sort_snoc. fold (chartData sessions exId).
  apply sort_insert_last. intros y (x & Hx & Hd)%chartData_dates.
  unfold by_date. rewrite Hd. simpl. by rewrite (Hlater x Hx).
Qed.

Lemma lastTwo_snoc (pts : list Point) (x : Point) :
  numeric x →
  last (lastTwo (pts ++ [x])) = Some x ∧
  prev (lastTwo (pts ++ [x])) = last (lastTwo pts).
Proof.
  intros Hx.
  pose proof (filter_ends_with pts [] x Hx (Forall_nil_2 _)) as Hv.
  destruct (list_end_cases (List.filter is_valid pts)) as [Hb|[[y Hb]|(r & p & y & Hb)]];
    rewrite Hb in Hv.
  - by rewrite (lastTwo_one _ x Hv), (lastTwo_none _ Hb).
  - by rewrite (lastTwo_two _ [] y x Hv), (lastTwo_one _ y Hb).
  - assert (Hv' : List.filter is_valid (pts ++ [x]) = (r ++ [p]) ++ [y; x]).
    { rewrite Hv. by rewrite <- !app_assoc. }
    by rewrite (lastTwo_two _ (r ++ [p]) y x Hv'), (lastTwo_two _ r p y Hb).
Qed.

(** X16.  In either component, on a store with one session per date, a
    save under a date later than that of every stored session, with a
    numeric weight for an exercise of the day, keeps one session per date
    and puts a point with that date and weight at the end of the series
    of the exercise, the rest of the series being as it was; the summary
    then has this point as [last] and the former [last] as [prev].  No
    two points of these series have the same date, so their order is the
    order of the dates whatever the engine does with equal ones. *)
Theorem progress_after_save (days : list (string * Day))
    (upsert : Session → Store → Store) (f : FormState) (rnd now : string)
    (sessions : Store) (day : Day) (ex : Exercise) (n : number) :
  upsert = App.upsert ∨ upsert = GymProgramTracker.upsert →
  unique_dates sessions →
  lookup_day days (form_dayKey f) = Some day →
  ex ∈ exercises day →
  (∀ s, s ∈ sessions → string_gt (form_date f) (date s) = true) →
  clean (weight (default no_entry (form_entries f !! ex_id ex))) = Num n →
  let saved := {| p_date := form_date f; p_weight := Some n; p_dayKey := form_dayKey f |} in
  ∃ store,
    saveSession days upsert f rnd now sessions = Some store ∧
    unique_dates store ∧
    StronglySorted (λ a b, string_gt (p_date b) (p_date a) = true)
      (chartData store (ex_id ex)) ∧
    chartData store (ex_id ex) = chartData sessions (ex_id ex) ++ [saved] ∧
    last (lastTwo (chartData store (ex_id ex))) = Some saved ∧
    prev (lastTwo (chartData store (ex_id ex)))
    = last (lastTwo (chartData sessions (ex_id ex))).
Proof.
  intros Hupsert Hunique Hday Hex Hlater Hweight saved.
  assert (∀ s, s ∈ sessions → date s ≠ form_date f) as Hfresh.
  { intros s Hs Heq. specialize (Hlater s Hs). rewrite Heq in Hlater.
    by rewrite string_gt_irrefl in Hlater. }
  exists (sessions ++ [payload day f rnd now]). split.
  { unfold saveSession. rewrite Hday. simpl. f_equal. destruct Hupsert as [-> | ->].
    - apply app_upsert_fresh. intros y Hy [Hd _]. by apply (Hfresh y Hy).
    - apply tracker_upsert_fresh. intros y Hy Hd. by apply (Hfresh y Hy). }
  assert (unique_dates (sessions ++ [payload day f rnd now])) as Hunique'.
  { by apply (keys_append_fresh date). }
  split; [done|]. split.
  { apply points_strictly_sorted; [|by apply chartData_unique_dates].
    apply Sorted.Sorted_StronglySorted; [intros a b c; apply date_le_trans|].
    apply Array_sort_sorted. }
  assert (entry_of (ex_id ex) (payload day f rnd now)
          = Some (cleanEntry (default no_entry (form_entries f !! ex_id ex)))) as Hentry.
  { unfold entry_of. simpl. by apply cleanEntries_lookup. }
  assert (point_of (ex_id ex) (payload day f rnd now) = saved) as Hpoint.
  { unfold point_of. rewrite Hentry. simpl. by rewrite Hweight. }
  assert (numeric saved) as Hnumeric.
  { exists n. split; [done|].
    destruct (clean_stored (weight (default no_entry (form_entries f !! ex_id ex))))
      as [Hempty|(m & Hm & Hnan)]; congruence. }
  assert (chartData (sessions ++ [payload day f rnd now]) (ex_id ex)
          = chartData sessions (ex_id ex) ++ [saved]) as Hchart.
  { rewrite <- Hpoint. apply chartData_snoc.
    - unfold records. by rewrite Hentry.
    - intros y Hy. simpl. by apply string_gt_asym, Hlater. }
  split; [done|]. rewrite Hchart. by apply lastTwo_snoc.
Qed.
End ProgressAfterSave.

Lemma progress_after_save_witness :
  ∃ store,
    @App.saveSession ascii_builtins march_form "1f" "2024-03-01T10:00:00.000Z"
      [press_jan1; press_feb1] = Some store ∧
    last (@lastTwo ascii_builtins (@chartData ascii_builtins store "shoulder_press"))
    = Some {| p_date := "2024-03-01"; p_weight := Some (lit 337 (-3)); p_dayKey := "d1" |} ∧
    prev (@lastTwo ascii_builtins (@chartData ascii_builtins store "shoulder_press"))
    = Some {| p_date := "2024-02-01"; p_weight := Some (lit 50 0); p_dayKey := "d1" |}.
Proof.
  destruct (@progress_after_save ascii_builtins App.PROGRAM App.upsert march_form "1f"
              "2024-03-01T10:00:00.000Z" [press_jan1; press_feb1]
              (default press_day (lookup_day App.PROGRAM "d1")) shoulder_press
              (lit 337 (-3)) (or_introl eq_refl))
    as (store & Hsave & _ & _ & _ & Hlast & Hprev).
  - apply (bool_decide_unpack _). by vm_compute.
  - reflexivity.
  - by left.
  - intros s Hs.
    repeat (apply elem_of_cons in Hs as [->|Hs]; [reflexivity|]).
    by apply elem_of_nil in Hs.
  - by vm_compute.
  - exists store. split; [exact Hsave|]. split; [exact Hlast|].
    etrans; [exact Hprev|]. by vm_compute.
Defined.

(** *** The dates of the calendar *)

Lemma compare_append (a b s t : string) :
  String.length a = String.length b →
  String.compare (a +:+ s) (b +:+ t)
  = match String.compare a b with Eq => String.compare s t | c => c end.
Proof.
  revert b. induction a as [|c a IH]; intros [|c' b] Hlen; try done. simpl.
  destruct (Ascii.compare c c'); try done. apply IH. by injection Hlen.
Qed.

Lemma length_append (a b : string) :
  String.length (a +:+ b) = (String.length a + String.length b)%nat.
Proof. induction a as [|c a IH]; simpl; [done|]. by rewrite IH. Qed.

Lemma year_table :
  Forall (λ y, pretty y = pad2 (y / 100) +:+ pad2 (y mod 100)) (seqZ 1000 9000).
Proof. apply (bool_decide_unpack _). by vm_compute. Qed.

Lemma pad2_table :
  Forall (λ a, String.length (pad2 a) = 2%nat ∧
               Forall (λ b, String.compare (pad2 a) (pad2 b) = (a ?= b)) (seqZ 0 100))
         (seqZ 0 100).
Proof. apply (bool_decide_unpack _). by vm_compute. Qed.

Lemma pad2_length (a : Z) : 0 ≤ a < 100 → String.length (pad2 a) = 2%nat.
Proof.
  intros Ha. pose proof pad2_table as Htable. rewrite Forall_forall in Htable.
  apply (Htable a). apply elem_of_seqZ. lia.
Qed.

Lemma pad2_compare (a b : Z) :
  0 ≤ a < 100 → 0 ≤ b < 100 → String.compare (pad2 a) (pad2 b) = (a ?= b).
Proof.
  intros Ha Hb. pose proof pad2_table as Htable. rewrite Forall_forall in Htable.
  destruct (Htable a) as [_ Hrow]; [apply elem_of_seqZ; lia|].
  rewrite Forall_forall in Hrow. apply Hrow. apply elem_of_seqZ. lia.
Qed.

Lemma year_digits (y : Z) :
  1000 ≤ y ≤ 9999 → pretty y = pad2 (y / 100) +:+ pad2 (y mod 100).
Proof.
  intros Hy. pose proof year_table as Htable. rewrite Forall_forall in Htable.
  apply (Htable y). apply elem_of_seqZ. lia.
Qed.

Lemma year_compare (y y' : Z) :
  1000 ≤ y ≤ 9999 → 1000 ≤ y' ≤ 9999 →
  String.length (pretty y) = 4%nat ∧ String.compare (pretty y) (pretty y') = (y ?= y').
Proof.
  intros Hy Hy'. rewrite !year_digits by done.
  assert (0 ≤ y / 100 < 100 ∧ 0 ≤ y mod 100 < 100) as [Ha Hb].
  { split; [split; [apply Z.div_pos; lia|apply Z.div_lt_upper_bound; lia]|].
    apply Z.mod_pos_bound. lia. }
  assert (0 ≤ y' / 100 < 100 ∧ 0 ≤ y' mod 100 < 100) as [Ha' Hb'].
  { split; [split; [apply Z.div_pos; lia|apply Z.div_lt_upper_bound; lia]|].
    apply Z.mod_pos_bound. lia. }
  split; [by rewrite length_append, !pad2_length|].
  rewrite compare_append by (by rewrite !pad2_length).
  rewrite !pad2_compare by done.
  pose proof (Z.div_mod y 100 ltac:(lia)) as Hdiv.
  pose proof (Z.div_mod y' 100 ltac:(lia)) as Hdiv'.
  destruct (Z.compare_spec (y / 100) (y' / 100)) as [Heq|Hlt|Hgt].
  - destruct (Z.compare_spec (y mod 100) (y' mod 100));
      symmetry; [apply Z.compare_eq_iff|apply Z.compare_lt_iff|apply Z.compare_gt_iff]; lia.
  - symmetry. apply Z.compare_lt_iff. lia.
  - symmetry. apply Z.compare_gt_iff. lia.
Qed.

(** X18.  For years of four digits [isoFromParts] gives a text of ten
    characters, and the order of two such texts as strings, which is the
    one the series and the history sort by, is the order of the dates;
    so different dates of the calendar have different texts. *)
Theorem isoFromParts_order (y m d y' m' d' : Z) :
  date_parts y m d → date_parts y' m' d' →
  String.length (isoFromParts y m d) = 10%nat ∧
  String.compare (isoFromParts y m d) (isoFromParts y' m' d')
  = compare_parts y m d y' m' d' ∧
  (isoFromParts y m d = isoFromParts y' m' d' → y = y' ∧ m = m' ∧ d = d').
Proof.
  intros (Hy & Hm & Hd) (Hy' & Hm' & Hd').
  destruct (year_compare y y' Hy Hy') as [Hlen Hyear].
  destruct (year_compare y' y Hy' Hy) as [Hlen' _].
  assert (String.compare (isoFromParts y m d) (isoFromParts y' m' d')
          = compare_parts y m d y' m' d') as Hcompare.
  { unfold isoFromParts, compare_parts.
    rewrite compare_append by congruence. rewrite Hyear.
    destruct (y ?= y'); [|done|done].
    rewrite (compare_append "-" "-") by done. simpl.
    rewrite compare_append by (rewrite !pad2_length; [done|lia|lia]).
    rewrite pad2_compare by lia.
    rewrite (Z.add_comm m 1), (Z.add_comm m' 1), Z.add_compare_mono_l.
    destruct (m ?= m'); [|done|done].
    rewrite (compare_append "-" "-") by done. simpl.
    apply pad2_compare; lia. }
  split; [|split; [done|]].
  - unfold isoFromParts. rewrite !length_append, Hlen, !pad2_length by lia. done.
  - intros Heq. rewrite Heq in Hcompare. unfold compare_parts in Hcompare.
    pose proof (String.compare_antisym (isoFromParts y' m' d') (isoFromParts y' m' d')) as Hsym.
    destruct (Z.compare_spec y y'), (Z.compare_spec m m'), (Z.compare_spec d d');
      try done; rewrite Hcompare in Hsym; done.
Qed.

Lemma isoFromParts_order_witness :
  string_gt (isoFromParts 2024 9 1) (isoFromParts 2024 1 28) = true.
Proof.
  destruct (isoFromParts_order 2024 9 1 2024 1 28) as (_ & Hcompare & _).
  - unfold date_parts. lia.
  - unfold date_parts. lia.
  - unfold string_gt. by rewrite Hcompare.
Defined.

(** *** The two components side by side *)

Lemma findIndex_negative {A} (p : A → bool) (l : list A) :
  (findIndex p l >=? 0) = false → ∀ y, y ∈ l → p y = false.
Proof.
  intros Hneg y Hy. apply (findIndex_missing p l y); [|done].
  destruct (Z.geb_spec (findIndex p l) 0); [done|lia].
Qed.

Lemma findIndex_positive {A} (p : A → bool) (l : list A) :
  (findIndex p l >=? 0) = true → ∃ x, x ∈ l ∧ p x = true.
Proof.
  intros Hpos. destruct (findIndex_found p l) as (x & Hx & Hpx).
  - destruct (Z.geb_spec (findIndex p l) 0); [lia|done].
  - exists x. split; [|done]. by apply (list_elem_of_lookup_2 _ _ _ Hx).
Qed.

(** X19.  The updaters of the two components give the same store exactly
    when the store has a session of the date and day key of the saved
    one, or none of its date: they differ only on a session of the same
    date and another day, which the calendar version replaces and
    [src/App.jsx] keeps. *)
Theorem upserts_agree (p : Session) (store : Store) :
  App.upsert p store = GymProgramTracker.upsert p store ↔
  (∃ s, s ∈ store ∧ matches_both p s) ∨ (∀ s, s ∈ store → ¬ matches_date p s).
Proof.
  unfold App.upsert, GymProgramTracker.upsert. simpl.
  destruct (findIndex (same_date_and_day p) store >=? 0) eqn:Hboth.
  - split; [|done]. intros _. left.
    destruct (findIndex_positive _ _ Hboth) as (x & Hx & Hpx).
    exists x. split; [done|]. by apply same_date_and_day_iff.
  - pose proof (findIndex_negative _ _ Hboth) as Hnone.
    destruct (findIndex (same_date p) store >=? 0) eqn:Hdate.
    + split.
      * intros Heq. apply (f_equal length) in Heq.
        unfold set_index in Heq. rewrite length_app, length_insert in Heq. simpl in Heq. lia.
      * intros [(s & Hs & Hm%same_date_and_day_iff)|Hfresh].
        -- rewrite (Hnone s Hs) in Hm. done.
        -- destruct (findIndex_positive _ _ Hdate) as (x & Hx & Hpx%same_date_iff).
           by destruct (Hfresh x Hx).
    + split; [|done]. intros _. right. intros s Hs Hm%same_date_iff.
      rewrite (findIndex_negative _ _ Hdate s Hs) in Hm. done.
Qed.

Lemma upserts_agree_witness :
  App.upsert press_feb1_again [press_jan1; press_feb1]
  = GymProgramTracker.upsert press_feb1_again [press_jan1; press_feb1].
Proof.
  apply (proj2 (upserts_agree press_feb1_again [press_jan1; press_feb1])).
  left. exists press_feb1. split; [|done]. apply elem_of_cons. right. by left.
Defined.

Lemma lookup_day_same (a b : scalar) (key : string) :
  nullish a (Str "") = nullish b (Str "") →
  option_Forall2 same_day (lookup_day (PROGRAM_days a) key) (lookup_day (PROGRAM_days b) key).
Proof.
  intros Hab. unfold lookup_day, PROGRAM_days.
  cbn [List.find fst].
  repeat (destruct (String.eqb _ key);
          [cbn [fmap option_fmap option_map snd]; constructor;
           split; [done|]; split; [done|]; cbn [exercises];
           repeat (constructor; [by repeat split|]); constructor|]).
  constructor.
Qed.

Lemma seedEntry_same (sessions : Store) (a b : Exercise) :
  same_exercise a b → seedEntry sessions a = seedEntry sessions b.
Proof.
  intros (Hid & _ & Hstart). unfold seedEntry. rewrite Hid.
  by destruct (List.find (has_weight (ex_id b)) (rev sessions)); simpl; rewrite ?Hstart.
Qed.

Lemma built_same (g : Exercise → Entry) (exs exs' : list Exercise) :
  (∀ a b, same_exercise a b → g a = g b) →
  Forall2 same_exercise exs exs' → built g ∅ exs = built g ∅ exs'.
Proof.
  intros Hg Hall. unfold built. generalize (∅ : gmap string Entry) as acc.
  induction Hall as [|a b exs exs' Hab _ IH]; intros acc; simpl; [done|].
  destruct Hab as (Hid & Hname & Hstart).
  rewrite Hid, (Hg a b) by done. apply IH.
Qed.

Lemma upsert_same_day (p : Session) (store : Store) :
  (∀ s, s ∈ store → date s = date p → dayKey s = dayKey p) →
  App.upsert p store = GymProgramTracker.upsert p store.
Proof.
  intros Hsame. unfold App.upsert, GymProgramTracker.upsert. simpl.
  destruct (findIndex (same_date_and_day p) store >=? 0) eqn:Hboth; [done|].
  rewrite (findIndex_none (same_date p) store); [done|].
  intros y Hy. destruct (same_date p y) eqn:Hdate; [|done].
  apply same_date_iff in Hdate.
  assert (same_date_and_day p y = true) as Hm.
  { apply same_date_and_day_iff. split; [done|]. by apply Hsame. }
  by rewrite (findIndex_negative _ _ Hboth y Hy) in Hm.
Qed.

Section SameCatalog.
Context `{Builtins}.

Lemma payload_same (day day' : Day) (f : FormState) (rnd now : string) :
  same_day day day' → payload day f rnd now = payload day' f rnd now.
Proof.
  intros (Htitle & Hcardio & Hexs). unfold payload. rewrite Htitle, Hcardio.
  do 2 f_equal.
  apply (built_same (λ ex, cleanEntry (default no_entry (form_entries f !! ex_id ex))));
    [|done].
  by intros a b (-> & _).
Qed.

(** X20.  The catalog of the calendar version writes [null] where that of
    [src/App.jsx] writes the empty string for an exercise without a
    starting value; the two components still seed the form alike on a
    change of day, list the same exercises, throw for the same day keys,
    and build the same session from a form, so that a save gives the same
    store in both whenever their updaters agree. *)
Theorem components_agree (sessions : Store) (f : FormState) (rnd now : string) :
  (∀ dayKey, App.dayChangeDefaults sessions dayKey
             = GymProgramTracker.dayChangeDefaults sessions dayKey) ∧
  allExercises App.PROGRAM = allExercises GymProgramTracker.PROGRAM ∧
  (App.saveSession f rnd now sessions = None ↔
   GymProgramTracker.saveSession f rnd now sessions = None) ∧
  ((∀ s, s ∈ sessions → date s = form_date f → dayKey s = form_dayKey f) →
   App.saveSession f rnd now sessions = GymProgramTracker.saveSession f rnd now sessions).
Proof.
  assert (∀ key, option_Forall2 same_day (lookup_day App.PROGRAM key)
                   (lookup_day GymProgramTracker.PROGRAM key)) as Hdays.
  { intros key. by apply lookup_day_same. }
  split; [|split; [by vm_compute|split]].
  - intros dayKey.
    unfold App.dayChangeDefaults, GymProgramTracker.dayChangeDefaults, dayChangeDefaults.
    destruct (Hdays dayKey) as [day day' (_ & Hcardio & Hexs)|]; [|done]. simpl.
    rewrite Hcardio. do 2 f_equal.
    apply (built_same (seedEntry sessions)); [|done]. apply seedEntry_same.
  - unfold App.saveSession, GymProgramTracker.saveSession, saveSession.
    by destruct (Hdays (form_dayKey f)).
  - intros Hsame.
    unfold App.saveSession, GymProgramTracker.saveSession, saveSession.
    destruct (Hdays (form_dayKey f)) as [day day' Hday|]; [|done]. simpl.
    rewrite (payload_same day day' f rnd now Hday). f_equal.
    by apply upsert_same_day.
Qed.
End SameCatalog.

Lemma components_agree_witness :
  @App.saveSession ascii_builtins press_form "1f" "2024-03-01T10:00:00.000Z"
    [press_jan1; press_feb1]
  = @GymProgramTracker.saveSession ascii_builtins press_form "1f" "2024-03-01T10:00:00.000Z"
      [press_jan1; press_feb1].
Proof.
  destruct (@components_agree ascii_builtins [press_jan1; press_feb1] press_form "1f"
              "2024-03-01T10:00:00.000Z") as (_ & _ & _ & Hsave).
  apply Hsave. intros s Hs Hd.
  repeat (apply elem_of_cons in Hs as [->|Hs]; [try done; discriminate Hd|]).
  by apply elem_of_nil in Hs.
Defined.
